(** * frida-java: the class factory (lib/class-factory.js)

    A shallow embedding of the class factory of the Java bridge: the
    TypeAdapter registry ([getTypeFromJniTypename]), the overload
    dispatcher ([makeMethodDispatcher]), the member resolver
    ([makeMethodFromOverloads], [makeConstructor]), the class cache
    ([use], [ensureClass], [cast]) and the hooking engine
    ([replaceDalvikImplementation], [replaceArtImplementation],
    [dispose]).

    Script values are an inductive type, script objects whose identity
    matters live in explicit stores, process memory is a map from
    addresses to bytes, and a thrown [Error] is the [Throw] constructor
    of [result]. *)

From Stdlib Require Import ZArith QArith String Ascii List Bool Lia.
From stdpp Require Import gmap strings list fin_maps.

Open Scope Z_scope.

(** ** Script values *)

(** A script number.  Every finite double is a rational, so the finite
    numbers are embedded in [Q]; the model has more finite numbers than
    doubles exist, which only strengthens a statement over all numbers. *)
Inductive number :=
| Finite (q : Q)
| NaN
| Infinity (negative : bool).

Definition of_int (z : Z) : number := Finite (inject_Z z).

(** [Number.isInteger] on a number. *)
Definition isInteger (n : number) : bool :=
  match n with
  | Finite q => Qnum q mod Zpos (Qden q) =? 0
  | _ => false
  end.

(** [n >= z] and [n <= z] against an integer literal. *)
Definition num_ge (n : number) (z : Z) : bool :=
  match n with
  | Finite q => Qle_bool (inject_Z z) q
  | NaN => false
  | Infinity negative => negb negative
  end.

Definition num_le (n : number) (z : Z) : bool :=
  match n with
  | Finite q => Qle_bool q (inject_Z z)
  | NaN => false
  | Infinity negative => negative
  end.

(** [n > z], as in a loop guard. *)
Definition num_gt (n : number) (z : Z) : bool :=
  match n with
  | Finite q => negb (Qle_bool q (inject_Z z))
  | NaN => false
  | Infinity negative => negb negative
  end.

(** A NativePointer, by its address. *)
Definition ptr := Z.
Definition NULL : ptr := 0.
Definition isNull (p : ptr) : bool := p =? 0.

(** An object built by a class wrapper constructor
    ([function (classHandle, handle) { ... }] in [ensureClass]).  Its
    fields are written once, by the constructor; [oid] is the identity of
    the object, what [===] compares. *)
Record Wrapper := {
  oid : positive;
  w_classWrapper : positive;   (* this.$classWrapper, a class wrapper *)
  w_classHandle : ptr;         (* this.$classHandle *)
  w_handle : option ptr        (* this.$handle, None for null *)
}.

(** Script values.  A string is its sequence of 16-bit code units. *)
#[warnings="-register-all"]
Inductive value :=
| VUndefined
| VNull
| VBoolean (b : bool)
| VNumber (n : number)
| VString (s : list Z)
| VInt64 (z : Z)
| VPointer (p : ptr)
| VWrapper (w : Wrapper)
| VArray (xs : list value)
| VObject.

Inductive jstype :=
| Tundefined | Tobject | Tboolean | Tnumber | Tstring.

Definition typeof (v : value) : jstype :=
  match v with
  | VUndefined => Tundefined
  | VBoolean _ => Tboolean
  | VNumber _ => Tnumber
  | VString _ => Tstring
  | VNull | VInt64 _ | VPointer _ | VWrapper _ | VArray _ | VObject => Tobject
  end.

(** ToBoolean, for [!!v] and [v ? a : b]. *)
Definition truthy (v : value) : bool :=
  match v with
  | VUndefined | VNull => false
  | VBoolean b => b
  | VNumber (Finite q) => negb (Qnum q =? 0)
  | VNumber NaN => false
  | VNumber (Infinity _) => true
  | VString s => negb (Nat.eqb (length s) 0)
  | _ => true
  end.

(** [v.hasOwnProperty('$handle')] and [v.hasOwnProperty('length')], for a
    [v] with [typeof v === 'object']. *)
Definition hasOwn_handle (v : value) : bool :=
  match v with VWrapper _ => true | _ => false end.

Definition hasOwn_length (v : value) : bool :=
  match v with VArray _ => true | _ => false end.

(** The code units of a literal. *)
Definition units (s : string) : list Z :=
  map (fun a => Z.of_N (N_of_ascii a)) (list_ascii_of_string s).

(** ToUint16 of a number, for [String.fromCharCode]. *)
Definition ToUint16 (n : number) : Z :=
  match n with
  | Finite q => (Qnum q ÷ Zpos (Qden q)) mod 65536
  | _ => 0
  end.

(** ** Results *)

Inductive result (A : Type) :=
| Ok (a : A)
| Throw (msg : string).
Arguments Ok {A} a.
Arguments Throw {A} msg.

Definition bind {A B} (r : result A) (k : A -> result B) : result B :=
  match r with
  | Ok a => k a
  | Throw msg => Throw msg
  end.

Notation "x <- r ;; k" := (bind r (fun x => k))
  (at level 100, r at next level, right associativity).

(** ** Names in generated code and in dictionaries *)

Definition isLetter (a : ascii) : bool :=
  let n := nat_of_ascii a in
  Nat.leb 65 n && Nat.leb n 90 || Nat.leb 97 n && Nat.leb n 122.

Definition isDigit (a : ascii) : bool :=
  let n := nat_of_ascii a in
  Nat.leb 48 n && Nat.leb n 57.

Fixpoint replaceUnless (keep : ascii -> bool) (s : string) : string :=
  match s with
  | EmptyString => EmptyString
  | String a rest => String (if keep a then a else "_"%char) (replaceUnless keep rest)
  end.

(** [s.replace(/^[^a-zA-Z_]|[^a-zA-Z0-9_]/g, '_')], the name that
    [makeMethod] gives the function it generates, and with [dollar] the
    variant [s.replace(/^[^a-zA-Z$_]|[^a-zA-Z0-9$_]/g, '_')] of
    [ensureClass]: the first character is replaced unless it is a
    letter, an underscore (or a dollar), every other character unless
    it is one of these or a digit. *)
Definition sanitize (dollar : bool) (s : string) : string :=
  let keepFirst a := isLetter a || Ascii.eqb a "_" || dollar && Ascii.eqb a "$" in
  match s with
  | EmptyString => EmptyString
  | String a rest =>
      String (if keepFirst a then a else "_"%char)
             (replaceUnless (fun a => keepFirst a || isDigit a) rest)
  end.

(** The names that the text [function <name>(...) {...}] cannot carry
    in strict mode code, which the code that [eval] runs here is (the
    file starts with ['use strict']): the reserved words of ECMAScript
    with those of strict mode, and [eval] and [arguments]. *)
Definition reservedWords : list string :=
  ["break"; "case"; "catch"; "class"; "const"; "continue"; "debugger"; "default";
   "delete"; "do"; "else"; "enum"; "export"; "extends"; "false"; "finally"; "for";
   "function"; "if"; "implements"; "import"; "in"; "instanceof"; "interface"; "let";
   "new"; "null"; "package"; "private"; "protected"; "public"; "return"; "static";
   "super"; "switch"; "this"; "throw"; "true"; "try"; "typeof"; "var"; "void";
   "while"; "with"; "yield"; "eval"; "arguments"]%string.

(** [eval('... = function ' + name + '(...) {...}')], as far as it can
    fail: the text is a function expression with the given name, or an
    anonymous one for the empty name, and [eval] throws a SyntaxError
    when the name is reserved. *)
Definition evalFunction (name : string) : result unit :=
  if bool_decide (name ∈ reservedWords) then Throw "SyntaxError" else Ok tt.

(** The property names that a plain object ([{}]) inherits from
    [Object.prototype] (ECMAScript 2015 with its Annex B). *)
Definition ObjectPrototype : list string :=
  ["constructor"; "hasOwnProperty"; "isPrototypeOf"; "propertyIsEnumerable";
   "toLocaleString"; "toString"; "valueOf"; "__proto__"; "__defineGetter__";
   "__defineSetter__"; "__lookupGetter__"; "__lookupSetter__"]%string.

(** What [classes[name]] can evaluate to besides [undefined]: a class
    wrapper stored under that name, or, for a name that [classes] does
    not hold itself, the property of that name of [Object.prototype]
    (the function [Object] for [constructor], [Object.prototype] for
    [__proto__], a built-in method for the others). *)
Inductive ClassesValue :=
| Wrapped (klass : positive)
| Inherited (key : string).

(** ** The TypeAdapter registry *)

Inductive RawType :=
| uint8 | int8 | uint16 | int16 | int32 | int64 | float | double | void | pointer.

(** The [Memory.readX] / [Memory.writeX] pair a primitive carries. *)
Inductive MemoryAccess := U8 | S8 | U16 | S16 | S32 | S64 | Float | Double.

(** A converter ([fromJni] or [toJni]).  The converters of the
    primitives are functions of the value alone; those of arrays and
    reference types call into the JNI environment and the factory. *)
Inductive Converter :=
| Pure (f : value -> option value)
| WithEnv.

(** The object literal a [getPrimitiveType], [getArrayType] or
    [getObjectType] returns. [wordSize] is the key [size] of the source. *)
Record TypeBody := {
  type : RawType;
  wordSize : nat;
  byteSize : option nat;
  isCompatible : value -> bool;
  fromJni : option Converter;
  toJni : option Converter;
  memoryRW : option MemoryAccess   (* memoryRead and memoryWrite *)
}.

Record TypeAdapter := {
  className : string;
  body : TypeBody
}.

Definition int_in_range (lo hi : Z) (v : value) : bool :=
  match v with
  | VNumber n => isInteger n && num_ge n lo && num_le n hi
  | _ => false
  end.

Definition is_number (v : value) : bool :=
  match v with VNumber _ => true | _ => false end.

Definition boolean_isCompatible (v : value) : bool :=
  match v with VBoolean _ => true | _ => false end.

Definition boolean_fromJni (v : value) : option value :=
  Some (VBoolean (truthy v)).

Definition boolean_toJni (v : value) : option value :=
  Some (VNumber (of_int (if truthy v then 1 else 0))).

Definition char_isCompatible (v : value) : bool :=
  match v with
  | VString [charCode] => (0 <=? charCode) && (charCode <=? 65535)
  | _ => false
  end.

(** [String.fromCharCode(c)] of a raw number; the bridge hands it raw
    uint16 values only, other arguments are outside the model. *)
Definition char_fromJni (c : value) : option value :=
  match c with
  | VNumber n => Some (VString [ToUint16 n])
  | _ => None
  end.

(** [s.charCodeAt(0)]: NaN on the empty string, a TypeError (None) on a
    value that has no [charCodeAt]. *)
Definition char_toJni (s : value) : option value :=
  match s with
  | VString [] => Some (VNumber NaN)
  | VString (c :: _) => Some (VNumber (of_int c))
  | _ => None
  end.

Definition long_isCompatible (v : value) : bool :=
  match v with
  | VNumber _ => true
  | VInt64 _ => true
  | _ => false
  end.

Definition void_isCompatible (v : value) : bool :=
  match v with VUndefined => true | _ => false end.

Definition getPrimitiveType (type : string) : option TypeBody :=
  if String.eqb type "boolean" then
    Some {| type := uint8; wordSize := 1; byteSize := Some 1%nat;
            isCompatible := boolean_isCompatible;
            fromJni := Some (Pure boolean_fromJni);
            toJni := Some (Pure boolean_toJni);
            memoryRW := Some U8 |}
  else if String.eqb type "byte" then
    Some {| type := int8; wordSize := 1; byteSize := Some 1%nat;
            isCompatible := int_in_range (-128) 127;
            fromJni := None; toJni := None; memoryRW := Some S8 |}
  else if String.eqb type "char" then
    Some {| type := uint16; wordSize := 1; byteSize := Some 2%nat;
            isCompatible := char_isCompatible;
            fromJni := Some (Pure char_fromJni);
            toJni := Some (Pure char_toJni);
            memoryRW := Some U16 |}
  else if String.eqb type "short" then
    Some {| type := int16; wordSize := 1; byteSize := Some 2%nat;
            isCompatible := int_in_range (-32768) 32767;
            fromJni := None; toJni := None; memoryRW := Some S16 |}
  else if String.eqb type "int" then
    Some {| type := int32; wordSize := 1; byteSize := Some 4%nat;
            isCompatible := int_in_range (-2147483648) 2147483647;
            fromJni := None; toJni := None; memoryRW := Some S32 |}
  else if String.eqb type "long" then
    Some {| type := int64; wordSize := 2; byteSize := Some 8%nat;
            isCompatible := long_isCompatible;
            fromJni := None; toJni := None; memoryRW := Some S64 |}
  else if String.eqb type "float" then
    Some {| type := float; wordSize := 1; byteSize := Some 4%nat;
            isCompatible := is_number;
            fromJni := None; toJni := None; memoryRW := Some Float |}
  else if String.eqb type "double" then
    Some {| type := double; wordSize := 2; byteSize := Some 8%nat;
            isCompatible := is_number;
            fromJni := None; toJni := None; memoryRW := Some Double |}
  else if String.eqb type "void" then
    Some {| type := void; wordSize := 0; byteSize := Some 0%nat;
            isCompatible := void_isCompatible;
            fromJni := None; toJni := None; memoryRW := None |}
  else None.

(** [isCompatiblePrimitiveArray(v, typename)].  The element test of the
    source is [getTypeFromJniTypename(typename).isCompatible], which for
    a primitive name is the test of [getPrimitiveType]
    (see [primitive_lookup_body]). *)
Definition isCompatiblePrimitiveArray (v : value) (typename : string) : bool :=
  match v with
  | VNull => true
  | VArray xs =>
      match getPrimitiveType typename with
      | Some t => forallb (isCompatible t) xs
      | None => false
      end
  | _ => false
  end.

Definition primitiveArray (element : string) : TypeBody :=
  {| type := pointer; wordSize := 1; byteSize := None;
     isCompatible := fun v => isCompatiblePrimitiveArray v element;
     fromJni := Some WithEnv; toJni := Some WithEnv; memoryRW := None |}.

Definition objectArray_isCompatible (elementType : TypeAdapter) (v : value) : bool :=
  match v with
  | VNull => true
  | VArray xs => forallb (isCompatible (body elementType)) xs
  | _ => false
  end.

(** [getArrayType(typename, unbox)].  [elementType] is the outcome of the
    recursive lookup [getTypeFromJniTypename(typename.substring(1), unbox)]
    that the default case makes. *)
Definition getArrayType (typename : string) (unbox : bool)
    (elementType : result TypeAdapter) : result TypeBody :=
  if String.eqb typename "[Z" then Ok (primitiveArray "boolean")
  else if String.eqb typename "[B" then Ok (primitiveArray "byte")
  else if String.eqb typename "[C" then Ok (primitiveArray "char")
  else if String.eqb typename "[D" then Ok (primitiveArray "double")
  else if String.eqb typename "[F" then Ok (primitiveArray "float")
  else if String.eqb typename "[I" then Ok (primitiveArray "int")
  else if String.eqb typename "[J" then Ok (primitiveArray "long")
  else if String.eqb typename "[S" then Ok (primitiveArray "short")
  else if String.prefix "[" typename then
    elementType <- elementType ;;
    Ok {| type := pointer; wordSize := 1; byteSize := None;
          isCompatible := objectArray_isCompatible elementType;
          fromJni := Some WithEnv; toJni := Some WithEnv; memoryRW := None |}
  else Throw ("Unsupported type here " +:+ typename).

Definition isStringLike (typename : string) : bool :=
  String.eqb typename "java.lang.CharSequence" || String.eqb typename "java.lang.String".

Definition object_isCompatible (typename : string) (v : value) : bool :=
  match v with
  | VNull => true
  | VString _ => isStringLike typename
  | _ => match typeof v with Tobject => hasOwn_handle v | _ => false end
  end.

Definition getObjectType (typename : string) (unbox : bool) : TypeBody :=
  {| type := pointer; wordSize := 1; byteSize := None;
     isCompatible := object_isCompatible typename;
     fromJni := Some WithEnv; toJni := Some WithEnv; memoryRW := None |}.

(** [typename[0] === 'L' && typename[typename.length - 1] === ';'] *)
Definition isDescriptor (typename : string) : bool :=
  match String.get 0 typename, String.get (String.length typename - 1) typename with
  | Some first, Some last => Ascii.eqb first "L" && Ascii.eqb last ";"
  | _, _ => false
  end.

(** [typename.substring(1, typename.length - 1)] *)
Definition stripDescriptor (typename : string) : string :=
  String.substring 1 (String.length typename - 2) typename.

(** The last branch of [getTypeFromJniTypename]: a reference type. *)
Definition objectCase (typename : string) (unbox : bool) : string * TypeBody :=
  let typename :=
    if isDescriptor typename then stripDescriptor typename else typename in
  (typename, getObjectType typename unbox).

(** [getTypeFromJniTypename(typename, unbox)]; an omitted [unbox] is
    [None].  The test [typename.indexOf('[') === 0] looks at the first
    character, whose tail is the [typename.substring(1)] that
    [getArrayType] looks up. *)
Fixpoint getTypeFromJniTypename (typename : string) (unbox : option bool)
    : result TypeAdapter :=
  let unbox := default true unbox in
  named <-
    match getPrimitiveType typename with
    | Some type => Ok (typename, type)
    | None =>
        match typename with
        | String first rest =>
            if Ascii.eqb first "[" then
              type <- getArrayType typename unbox
                        (getTypeFromJniTypename rest (Some unbox)) ;;
              Ok (typename, type)
            else Ok (objectCase typename unbox)
        | EmptyString => Ok (objectCase typename unbox)
        end
    end ;;
  Ok {| className := fst named; body := snd named |}.

(** Every call of [getTypeFromJniTypename] builds its [result] object
    anew.  The store lists the descriptor objects built so far; an
    object is identified by its position. *)
Definition lookupType (typename : string) (unbox : option bool)
    (built : list TypeAdapter) : result nat * list TypeAdapter :=
  match getTypeFromJniTypename typename unbox with
  | Ok t => (Ok (length built), built ++ [t])
  | Throw msg => (Throw msg, built)
  end.

(** ** Methods and the overload dispatcher *)

Inductive MethodType := CONSTRUCTOR_METHOD | STATIC_METHOD | INSTANCE_METHOD.

Definition MethodType_eqb (a b : MethodType) : bool :=
  match a, b with
  | CONSTRUCTOR_METHOD, CONSTRUCTOR_METHOD
  | STATIC_METHOD, STATIC_METHOD
  | INSTANCE_METHOD, INSTANCE_METHOD => true
  | _, _ => false
  end.

(** The function objects a dispatcher holds: the function [f] that
    [makeMethod(methodName, type, methodId, retType, argTypes, env)]
    builds inside [ensureClass] (so with the class wrapper [klass] in
    scope), and the function [defaultValueOf] of
    [makeMethodFromOverloads], whose [returnType] property is the value
    of [getTypeFromJniTypename('int')]. *)
Inductive Method :=
| makeMethod (klass : positive) (methodName : string) (type : MethodType)
    (methodId : ptr) (retType : TypeAdapter) (argTypes : list TypeAdapter)
| defaultValueOf (klass : positive) (returnType : TypeAdapter).

(** The properties [holder], [type], [returnType], [argumentTypes]. *)
Definition holder (m : Method) : positive :=
  match m with
  | makeMethod klass _ _ _ _ _ => klass
  | defaultValueOf klass _ => klass
  end.

Definition kind (m : Method) : MethodType :=
  match m with
  | makeMethod _ _ type _ _ _ => type
  | defaultValueOf _ _ => INSTANCE_METHOD
  end.

Definition returnType (m : Method) : TypeAdapter :=
  match m with
  | makeMethod _ _ _ _ retType _ => retType
  | defaultValueOf _ returnType => returnType
  end.

Definition argumentTypes (m : Method) : list TypeAdapter :=
  match m with
  | makeMethod _ _ _ _ _ argTypes => argTypes
  | defaultValueOf _ _ => []
  end.

(** [argTypes.every(function (t, i) { return t.isCompatible(args[i]); })],
    from index [i] on; a missing [args[i]] is [undefined]. *)
Fixpoint every_isCompatible (i : nat) (argTypes : list TypeAdapter)
    (args : list value) : bool :=
  match argTypes with
  | [] => true
  | t :: rest =>
      isCompatible (body t) (nth i args VUndefined)
      && every_isCompatible (S i) rest args
  end.

Definition canInvokeWith (m : Method) (args : list value) : bool :=
  match m with
  | makeMethod _ _ _ _ _ argTypes =>
      if negb (Nat.eqb (length args) (length argTypes)) then false
      else every_isCompatible 0 argTypes args
  | defaultValueOf _ _ => Nat.eqb (length args) 0
  end.

(** What a call of a method function does: the synthetic [valueOf]
    returns its receiver, a bridged method goes through JNI. *)
Inductive Effect :=
| Return (v : value)
| CallJni (methodId : ptr) (type : MethodType) (this : Wrapper) (args : list value).

Definition apply (m : Method) (this : Wrapper) (args : list value) : Effect :=
  match m with
  | makeMethod _ _ type methodId _ _ => CallJni methodId type this args
  | defaultValueOf _ _ => Return (VWrapper this)
  end.

(** A class wrapper: the constructor function [klass] of [ensureClass]
    with the properties [initializeClass] gives it. *)
Record Klass := {
  k_className : string;         (* klass.className, the simple name *)
  k_name : string;              (* klass.__name__ *)
  k_handle : ptr;               (* klass.__handle__ *)
  k_methods : list ptr;         (* klass.__methods__ *)
  k_fields : list ptr;          (* klass.__fields__ *)
  k_super : option ClassesValue (* superKlass, None for null *)
}.

(** The closure of [makeMethodDispatcher(name, methods)]. *)
Record Dispatcher := {
  d_name : string;
  candidates : gmap nat (list Method);
  overloads : list Method
}.

Definition addCandidate (candidates : gmap nat (list Method)) (m : Method)
    : gmap nat (list Method) :=
  let numArgs := length (argumentTypes m) in
  match candidates !! numArgs with
  | None => <[numArgs := [m]]> candidates
  | Some group => <[numArgs := group ++ [m]]> candidates
  end.

Definition makeMethodDispatcher (name : string) (methods : list Method) : Dispatcher :=
  {| d_name := name;
     candidates := fold_left addCandidate methods ∅;
     overloads := methods |}.

(** How a call of the dispatcher function [f] ends. *)
Inductive Dispatch :=
| Error (msg : string)
| Literal (s : list Z)
| Apply (m : Method).

Definition isInstance (this : Wrapper) : bool :=
  match w_handle this with Some _ => true | None => false end.

(** ['<' + this.$classWrapper.__name__ + '>'] *)
Definition classLiteral (klasses : gmap positive Klass) (this : Wrapper) : Dispatch :=
  match klasses !! w_classWrapper this with
  | Some klass => Literal (units ("<" +:+ k_name klass +:+ ">"))
  | None => Error "TypeError"
  end.

(** What [f] does with the first [method] of the group that can be
    invoked with the arguments. *)
Definition invokeSelected (name : string) (klasses : gmap positive Klass)
    (this : Wrapper) (method : Method) : Dispatch :=
  if MethodType_eqb (kind method) INSTANCE_METHOD && negb (isInstance this) then
    if String.eqb name "toString" then classLiteral klasses this
    else Error (name +:+ ": cannot call instance method without an instance")
  else Apply method.

(** The loop [for (let i = 0; i !== group.length; i++)] of [f]. *)
Fixpoint selectOverload (name : string) (klasses : gmap positive Klass)
    (this : Wrapper) (arguments : list value) (group : list Method) : Dispatch :=
  match group with
  | [] => Error (name +:+ ": argument types do not match any overload")
  | method :: rest =>
      if canInvokeWith method arguments then invokeSelected name klasses this method
      else selectOverload name klasses this arguments rest
  end.

(** The dispatcher function [f], called on [this] with [arguments]. *)
Definition f (d : Dispatcher) (klasses : gmap positive Klass)
    (this : Wrapper) (arguments : list value) : Dispatch :=
  match candidates d !! length arguments with
  | None => Error (d_name d +:+ ": argument count does not match any overload")
  | Some group => selectOverload (d_name d) klasses this arguments group
  end.

(** ** The member resolver *)

(** What reflection tells about a [java.lang.reflect.Type]: the outcome
    of [env.getTypeName(t)] and of [env.getArrayTypeName(t)]. *)
Record JType := {
  getTypeName : result string;
  getArrayTypeName : result string
}.

(** A reflected method, as the calls of [makeMethodFromOverloads] see
    it.  [getGenericReturnType] and [getGenericParameterTypes] are each
    followed by [env.checkForExceptionAndThrowIt()], so each is a
    [result]. *)
Record JMethod := {
  fromReflectedMethod : ptr;
  getModifiers : Z;
  isVarArgs : bool;
  getGenericReturnType : result JType;
  getGenericParameterTypes : result (list JType)
}.

(** [Modifier.STATIC] *)
Definition Modifier_STATIC : Z := 8.

(** The loop over [argTypes] in [makeMethodFromOverloads]. *)
Fixpoint resolveArgTypes (isVarArgs : bool) (argTypes : list JType)
    : result (list TypeAdapter) :=
  match argTypes with
  | [] => Ok []
  | t :: rest =>
      argClassName <-
        (if isVarArgs && Nat.eqb (length rest) 0 then getArrayTypeName t
         else getTypeName t) ;;
      argType <- getTypeFromJniTypename argClassName None ;;
      jsArgTypes <- resolveArgTypes isVarArgs rest ;;
      Ok (argType :: jsArgTypes)
  end.

(** [makeMethod(methodName, type, methodId, retType, argTypes, env)],
    called: it generates the function with [eval] under the sanitized
    method name, which throws for a reserved word. *)
Definition callMakeMethod (klass : positive) (methodName : string) (type : MethodType)
    (methodId : ptr) (retType : TypeAdapter) (argTypes : list TypeAdapter)
    : result Method :=
  match evalFunction (sanitize false methodName) with
  | Ok _ => Ok (makeMethod klass methodName type methodId retType argTypes)
  | Throw msg => Throw msg
  end.

(** The body of [overloads.map(function (handle) { ... })]: [None] is
    the [null] of the [catch] clause.  The call of [makeMethod] comes
    after the [try] statement, an error it throws is not caught. *)
Definition resolveOverload (klass : positive) (name : string) (handle : JMethod)
    : result (option Method) :=
  let methodId := fromReflectedMethod handle in
  let jsType :=
    if negb (Z.land (getModifiers handle) Modifier_STATIC =? 0)
    then STATIC_METHOD else INSTANCE_METHOD in
  let attempt :=
    retType <- getGenericReturnType handle ;;
    retTypeName <- getTypeName retType ;;
    jsRetType <- getTypeFromJniTypename retTypeName None ;;
    argTypes <- getGenericParameterTypes handle ;;
    jsArgTypes <- resolveArgTypes (isVarArgs handle) argTypes ;;
    Ok (jsRetType, jsArgTypes) in
  match attempt with
  | Ok (jsRetType, jsArgTypes) =>
      method <- callMakeMethod klass name jsType methodId jsRetType jsArgTypes ;;
      Ok (Some method)
  | Throw _ => Ok None
  end.

(** [overloads.map(g)] for a [g] that can throw: the first error ends
    the loop. *)
Fixpoint mapResult {A B} (g : A -> result B) (l : list A) : result (list B) :=
  match l with
  | [] => Ok []
  | a :: rest =>
      b <- g a ;;
      bs <- mapResult g rest ;;
      Ok (b :: bs)
  end.

Definition implementsDefaultValueOf (m : Method) : bool :=
  MethodType_eqb (kind m) INSTANCE_METHOD && Nat.eqb (length (argumentTypes m)) 0.

Definition makeMethodFromOverloads (klass : positive) (name : string)
    (overloads : list JMethod) : result Dispatcher :=
  mapped <- mapResult (resolveOverload klass name) overloads ;;
  let methods := omap id mapped in
  if Nat.eqb (length methods) 0 then Throw "No supported overloads"
  else
    methods <-
      (if String.eqb name "valueOf" then
         if negb (existsb implementsDefaultValueOf methods) then
           returnType <- getTypeFromJniTypename "int" None ;;
           Ok (methods ++ [defaultValueOf klass returnType])
         else Ok methods
       else Ok methods) ;;
    Ok (makeMethodDispatcher name methods).

(** A reflected constructor: [env.fromReflectedMethod(constructor)] and
    the elements of [getGenericParameterTypes]. *)
Record JConstructor := {
  c_fromReflectedMethod : ptr;
  c_getGenericParameterTypes : list JType
}.

Record Constructors := {
  allocAndInit : Dispatcher;
  initOnly : Dispatcher
}.

(** [className.lastIndexOf('.')] and [className.slice(start)]. *)
Fixpoint lastIndexOf (c : ascii) (s : string) : Z :=
  match s with
  | EmptyString => -1
  | String a rest =>
      let r := lastIndexOf c rest in
      if 0 <=? r then r + 1 else if Ascii.eqb a c then 0 else -1
  end.

Definition slice (start : Z) (s : string) : string :=
  String.substring (Z.to_nat start) (String.length s - Z.to_nat start) s.

Definition basename (className : string) : string :=
  slice (lastIndexOf "." className + 1) className.

(** The loop over [constructors] in [makeConstructor]: a constructor one
    of whose parameter types does not resolve is skipped by the
    [continue] of the [catch] clause.  The two calls of [makeMethod]
    generate functions named after the simple name of the class, the
    name under which [ensureClass] has generated the class wrapper
    before: their [eval] does not throw (see [reserved_simple_name]). *)
Fixpoint constructorMethods (klass : positive) (name : string)
    (jsRetType jsVoidType : TypeAdapter) (constructors : list JConstructor)
    : list Method * list Method :=
  match constructors with
  | [] => ([], [])
  | constructor :: rest =>
      let '(jsCtorMethods, jsInitMethods) :=
        constructorMethods klass name jsRetType jsVoidType rest in
      let methodId := c_fromReflectedMethod constructor in
      match resolveArgTypes false (c_getGenericParameterTypes constructor) with
      | Throw _ => (jsCtorMethods, jsInitMethods)
      | Ok jsArgTypes =>
          (makeMethod klass (basename name) CONSTRUCTOR_METHOD methodId jsRetType jsArgTypes
             :: jsCtorMethods,
           makeMethod klass (basename name) INSTANCE_METHOD methodId jsVoidType jsArgTypes
             :: jsInitMethods)
      end
  end.

(** [makeConstructor(classHandle, env)] inside [ensureClass] for the
    class [name]; [constructors] is what [getDeclaredConstructors]
    returns. *)
Definition makeConstructor (klass : positive) (name : string)
    (constructors : list JConstructor) : result Constructors :=
  jsRetType <- getTypeFromJniTypename name (Some false) ;;
  jsVoidType <- getTypeFromJniTypename "void" (Some false) ;;
  let '(jsCtorMethods, jsInitMethods) :=
    constructorMethods klass name jsRetType jsVoidType constructors in
  if Nat.eqb (length jsInitMethods) 0 then Throw "no supported overloads"
  else Ok {| allocAndInit := makeMethodDispatcher "<init>" jsCtorMethods;
             initOnly := makeMethodDispatcher "<init>" jsInitMethods |}.

(** ** The Java side and the JNI reference table *)

Record ClassInfo := {
  jc_name : string;
  declaredMethods : list (string * JMethod);
  declaredFields : list string;
  declaredConstructors : list JConstructor
}.

(** A loaded class with its chain of superclasses. *)
Inductive JClass :=
| Root (info : ClassInfo)
| Extends (info : ClassInfo) (superclass : JClass).

Definition info (c : JClass) : ClassInfo :=
  match c with Root i => i | Extends i _ => i end.

Fixpoint ancestry (c : JClass) : list string :=
  match c with
  | Root i => [jc_name i]
  | Extends i s => jc_name i :: ancestry s
  end.

Inductive JObject :=
| ClassObject (c : JClass)
| MethodObject (m : JMethod)
| FieldObject (name : string)
| Instance (c : JClass) (id : nat).

(** The names of the classes an object is an instance of. *)
Definition classesOf (o : JObject) : list string :=
  match o with
  | ClassObject _ => ["java.lang.Class"; "java.lang.Object"]%string
  | MethodObject _ => ["java.lang.reflect.Method"; "java.lang.Object"]%string
  | FieldObject _ => ["java.lang.reflect.Field"; "java.lang.Object"]%string
  | Instance c _ => ancestry c
  end.

(** ** Process memory *)

Definition memory := Z -> Z.

Definition readU8 (m : memory) (a : ptr) : Z := m a mod 256.

(** Little-endian reads and writes of [n] bytes. *)
Fixpoint read_le (n : nat) (m : memory) (a : ptr) : Z :=
  match n with
  | O => 0
  | S k => readU8 m a + 256 * read_le k m (a + 1)
  end.

Definition write_le (n : nat) (a : ptr) (v : Z) (m : memory) : memory :=
  fun x =>
    if (a <=? x) && (x <? a + Z.of_nat n) then (v / 256 ^ (x - a)) mod 256
    else m x.

Definition readU16 := read_le 2.
Definition readU32 := read_le 4.
Definition writeU16 := write_le 2.
Definition writeU32 := write_le 4.

(** [Memory.readS32]: the 32-bit word, read as signed. *)
Definition readS32 (m : memory) (a : ptr) : Z :=
  let u := read_le 4 m a in
  if u <? 2147483648 then u else u - 4294967296.
Definition writeS32 := write_le 4.

(** [Memory.copy(dst, src, n)] *)
Definition copy (dst src : ptr) (n : Z) (m : memory) : memory :=
  fun x => if (dst <=? x) && (x <? dst + n) then m (src + (x - dst)) else m x.

(** The bytes of [n] cells from [a] on. *)
Fixpoint bytes (n : nat) (m : memory) (a : ptr) : list Z :=
  match n with
  | O => []
  | S k => readU8 m a :: bytes k m (a + 1)
  end.

(** ** The state of a factory and of the process it lives in *)

Inductive Flavor := art | dalvik.

(** The four words [fetchMethod] reads from an ArtMethod. *)
Record ArtMethodInfo := {
  jniCode : ptr;
  accessFlags : Z;
  quickCode : ptr;
  interpreterCode : ptr
}.

(** The variables one call of [makeMethod] closes over. *)
Record MethodState := {
  ms_methodId : ptr;
  ms_type : MethodType;
  ms_argTypes : list TypeAdapter;
  dalvikTargetMethodId : ptr;
  dalvikOriginalMethod : option ptr;
  artOriginalMethodInfo : option ArtMethodInfo;
  implementation : option ptr
}.

(** An entry of [patchedClasses]. [targetMethods] is keyed by
    [methodId.toString(16)], here by the address itself. *)
Record Entry := {
  classObject : ptr;
  vtablePtr : ptr;
  vtableCountPtr : ptr;
  vtable : ptr;
  vtableCount : Z;
  shadowVtable : ptr;
  shadowVtableCount : Z;
  targetMethods : list (ptr * positive)
}.

(** The factory's variables ([classes], [patchedClasses],
    [patchedMethods]), the stores of the script objects they refer to
    (class wrappers, method functions), the JNI reference table and the
    memory of the process.  [patchedClasses] and [targetMethods] keep
    insertion order, for the [for ... in] loops of [dispose]. *)
Record Factory := {
  classes : gmap string positive;
  klasses : gmap positive Klass;
  patchedClasses : list (ptr * Entry);
  patchedMethods : gset positive;
  methods : gmap positive MethodState;
  allocated : positive;
  loadedClasses : list JClass;
  refs : gmap ptr JObject;
  mem : memory;
  brk : ptr
}.

Definition set_classes (x : gmap string positive) (st : Factory) : Factory :=
  {| classes := x; klasses := klasses st; patchedClasses := patchedClasses st;
     patchedMethods := patchedMethods st; methods := methods st;
     allocated := allocated st; loadedClasses := loadedClasses st;
     refs := refs st; mem := mem st; brk := brk st |}.

Definition set_klasses (x : gmap positive Klass) (st : Factory) : Factory :=
  {| classes := classes st; klasses := x; patchedClasses := patchedClasses st;
     patchedMethods := patchedMethods st; methods := methods st;
     allocated := allocated st; loadedClasses := loadedClasses st;
     refs := refs st; mem := mem st; brk := brk st |}.

Definition set_patchedClasses (x : list (ptr * Entry)) (st : Factory) : Factory :=
  {| classes := classes st; klasses := klasses st; patchedClasses := x;
     patchedMethods := patchedMethods st; methods := methods st;
     allocated := allocated st; loadedClasses := loadedClasses st;
     refs := refs st; mem := mem st; brk := brk st |}.

Definition set_patchedMethods (x : gset positive) (st : Factory) : Factory :=
  {| classes := classes st; klasses := klasses st; patchedClasses := patchedClasses st;
     patchedMethods := x; methods := methods st;
     allocated := allocated st; loadedClasses := loadedClasses st;
     refs := refs st; mem := mem st; brk := brk st |}.

Definition set_methods (x : gmap positive MethodState) (st : Factory) : Factory :=
  {| classes := classes st; klasses := klasses st; patchedClasses := patchedClasses st;
     patchedMethods := patchedMethods st; methods := x;
     allocated := allocated st; loadedClasses := loadedClasses st;
     refs := refs st; mem := mem st; brk := brk st |}.

Definition set_allocated (x : positive) (st : Factory) : Factory :=
  {| classes := classes st; klasses := klasses st; patchedClasses := patchedClasses st;
     patchedMethods := patchedMethods st; methods := methods st;
     allocated := x; loadedClasses := loadedClasses st;
     refs := refs st; mem := mem st; brk := brk st |}.

Definition set_refs (x : gmap ptr JObject) (st : Factory) : Factory :=
  {| classes := classes st; klasses := klasses st; patchedClasses := patchedClasses st;
     patchedMethods := patchedMethods st; methods := methods st;
     allocated := allocated st; loadedClasses := loadedClasses st;
     refs := x; mem := mem st; brk := brk st |}.

Definition set_mem (x : memory) (st : Factory) : Factory :=
  {| classes := classes st; klasses := klasses st; patchedClasses := patchedClasses st;
     patchedMethods := patchedMethods st; methods := methods st;
     allocated := allocated st; loadedClasses := loadedClasses st;
     refs := refs st; mem := x; brk := brk st |}.

Definition set_brk (x : ptr) (st : Factory) : Factory :=
  {| classes := classes st; klasses := klasses st; patchedClasses := patchedClasses st;
     patchedMethods := patchedMethods st; methods := methods st;
     allocated := allocated st; loadedClasses := loadedClasses st;
     refs := refs st; mem := mem st; brk := x |}.

(** A new script object: its identity. *)
Definition newObject (st : Factory) : positive * Factory :=
  (allocated st, set_allocated (Pos.succ (allocated st)) st).

(** ** The JNI environment *)

(** Modelled from the spec: the JNI accessor [Env] (lib/env.js) is an
    external collaborator and not among the sources.  A reference is a
    handle of the reference table, pinned until it is deleted;
    [newGlobalRef] makes a new handle for the object its argument
    denotes, and [NULL] for a handle that denotes none. *)
Definition newRef (o : JObject) (st : Factory) : ptr * Factory :=
  let r := fresh ({[NULL]} ∪ dom (refs st)) in
  (r, set_refs (<[r := o]> (refs st)) st).

(** Modelled from the spec: [env.newGlobalRef(h)] (lib/env.js). *)
Definition newGlobalRef (h : ptr) (st : Factory) : ptr * Factory :=
  match refs st !! h with
  | Some o => newRef o st
  | None => (NULL, st)
  end.

(** Modelled from the spec: [env.deleteLocalRef(h)] and
    [env.deleteGlobalRef(h)] (lib/env.js) release the handle. *)
Definition deleteLocalRef (h : ptr) (st : Factory) : Factory :=
  set_refs (delete h (refs st)) st.

Definition deleteGlobalRef (h : ptr) (st : Factory) : Factory :=
  set_refs (delete h (refs st)) st.

(** [className.replace(/\./g, '/')] *)
Fixpoint slashes (s : string) : string :=
  match s with
  | EmptyString => EmptyString
  | String a rest => String (if Ascii.eqb a "." then "/"%char else a) (slashes rest)
  end.

(** Modelled from the spec: [env.findClass], which throws when the VM
    has no class of that name. *)
Definition findClass (name : string) (st : Factory) : result ptr * Factory :=
  match List.find (fun c => String.eqb (slashes (jc_name (info c))) name)
          (loadedClasses st) with
  | Some c => let '(r, st) := newRef (ClassObject c) st in (Ok r, st)
  | None => (Throw "java.lang.ClassNotFoundException", st)
  end.

(** Modelled from the spec: [env.isInstanceOf(handle, classHandle)];
    a null reference is an instance of every class. *)
Definition isInstanceOf (handle : option ptr) (classHandle : ptr) (st : Factory) : bool :=
  match refs st !! classHandle with
  | Some (ClassObject t) =>
      match handle with
      | None => true
      | Some h =>
          match refs st !! h with
          | Some o => bool_decide (jc_name (info t) ∈ classesOf o)
          | None => isNull h
          end
      end
  | _ => false
  end.

(** Modelled from the spec: [env.isSameObject(a, b)]. *)
Definition isSameObject (a b : ptr) (st : Factory) : Prop :=
  refs st !! a = refs st !! b.

(** Modelled from the spec: [env.getObjectClassName(handle)] and
    [env.getClassName(classHandle)] (lib/env.js), for the message of a
    failed cast. *)
Definition getObjectClassName (handle : option ptr) (st : Factory) : string :=
  match handle with
  | Some h =>
      match refs st !! h with
      | Some o => List.hd EmptyString (classesOf o)
      | None => EmptyString
      end
  | None => EmptyString
  end.

Definition getClassName (classHandle : ptr) (st : Factory) : string :=
  match refs st !! classHandle with
  | Some (ClassObject t) => jc_name (info t)
  | _ => EmptyString
  end.

(** ** The class cache *)

(** One [env.newGlobalRef] per reflected member, as the loops of
    [addMethodsAndFields] make them.  The local references of a loop
    body are deleted before the body ends and leave no trace in the
    table. *)
Fixpoint globalRefs (objects : list JObject) (st : Factory) : list ptr * Factory :=
  match objects with
  | [] => ([], st)
  | o :: rest =>
      let '(h, st) := newRef o st in
      let '(hs, st) := globalRefs rest st in
      (h :: hs, st)
  end.

(** [classes[name]]: the wrapper stored under [name], else what the
    prototype chain of the plain object [classes] has under that name,
    else [undefined] ([None]).  Every value found is truthy. *)
Definition getClass (name : string) (st : Factory) : option ClassesValue :=
  match classes st !! name with
  | Some klass => Some (Wrapped klass)
  | None =>
      if bool_decide (name ∈ ObjectPrototype) then Some (Inherited name) else None
  end.

(** [initializeClass()] for the new wrapper [klass] of the class [c]
    that [classHandle] denotes; [superKlass] stands for the prototype
    chain set up just before. *)
Definition initializeClass (c : JClass) (classHandle : ptr) (name : string)
    (klass : positive) (superKlass : option ClassesValue) (st : Factory) : Factory :=
  let '(handle, st) := newGlobalRef classHandle st in
  let '(methodHandles, st) :=
    globalRefs (map (fun nm => MethodObject (snd nm)) (declaredMethods (info c))) st in
  let '(fieldHandles, st) :=
    globalRefs (map FieldObject (declaredFields (info c))) st in
  let k := {| k_className := basename name; k_name := name; k_handle := handle;
              k_methods := methodHandles; k_fields := fieldHandles;
              k_super := superKlass |} in
  set_klasses (<[klass := k]> (klasses st)) st.

(** [ensureClass(classHandle, cachedName)], for a [classHandle] that
    denotes the class [c]; [env.getClassName] and [env.getSuperclass]
    read [c].  The superclass is wrapped first, its local reference
    deleted whether that succeeds or throws; then [eval] generates the
    constructor function under the sanitized simple name, and only then
    is the wrapper stored in [classes]. *)
Fixpoint ensureClass_of (c : JClass) (classHandle : ptr) (cachedName : option string)
    (st : Factory) : result ClassesValue * Factory :=
  let name := match cachedName with Some n => n | None => jc_name (info c) end in
  match getClass name st with
  | Some klass => (Ok klass, st)
  | None =>
      let '(superKlass, st) :=
        match c with
        | Root _ => (Ok None, st)
        | Extends _ s =>
            let '(superHandle, st) := newRef (ClassObject s) st in
            let '(k, st) := ensureClass_of s superHandle None st in
            (match k with Ok k => Ok (Some k) | Throw msg => Throw msg end,
             deleteLocalRef superHandle st)
        end in
      match superKlass with
      | Throw msg => (Throw msg, st)
      | Ok superKlass =>
          match evalFunction (sanitize true (basename name)) with
          | Throw msg => (Throw msg, st)
          | Ok _ =>
              let '(klass, st) := newObject st in
              let st := set_classes (<[name := klass]> (classes st)) st in
              (Ok (Wrapped klass),
               initializeClass c classHandle name klass superKlass st)
          end
      end
  end.

(** [ensureClass(classHandle, cachedName)].  JNI gives no meaning to a
    [classHandle] that denotes no class; the model stops there. *)
Definition ensureClass (classHandle : ptr) (cachedName : option string)
    (st : Factory) : result ClassesValue * Factory :=
  match refs st !! classHandle with
  | Some (ClassObject c) => ensureClass_of c classHandle cachedName st
  | _ => (Throw "not a class reference", st)
  end.

(** [new C(classHandle, handle)]: the constructor function that
    [ensureClass] evaluates.  [handle] is [None] for [null]. *)
Definition construct (C : positive) (classHandle : ptr) (handle : option ptr)
    (st : Factory) : Wrapper * Factory :=
  let '(ch, st) := newGlobalRef classHandle st in
  let '(h, st) :=
    match handle with
    | Some h => let '(g, st) := newGlobalRef h st in (Some g, st)
    | None => (None, st)
    end in
  let '(o, st) := newObject st in
  ({| oid := o; w_classWrapper := C; w_classHandle := ch; w_handle := h |}, st).

(** [new C(C.__handle__, handle)] *)
Definition instantiate (C : positive) (handle : option ptr) (st : Factory)
    : result Wrapper * Factory :=
  match klasses st !! C with
  | Some k => let '(w, st) := construct C (k_handle k) handle st in (Ok w, st)
  | None => (Throw "TypeError", st)
  end.

(** A class loader installed as [loader]: what [loader.loadClass(name)]
    returns, a wrapper of the [java.lang.Class] object, or throws. *)
Definition Loader := string -> Factory -> result Wrapper * Factory.

(** What [use] returns: an object built by a class wrapper, or the
    empty object that [new Object(undefined, null)] builds. *)
Inductive UseValue :=
| ClassView (w : Wrapper)
| EmptyObject (o : positive).

(** [new C(C.__handle__, null)] for the [C] that [use] has got.  The
    function [Object] ignores its arguments and returns a new empty
    object; the other values inherited from [Object.prototype] are no
    constructors. *)
Definition newC (C : ClassesValue) (st : Factory) : result UseValue * Factory :=
  match C with
  | Wrapped C =>
      match instantiate C None st with
      | (Ok w, st) => (Ok (ClassView w), st)
      | (Throw msg, st) => (Throw msg, st)
      end
  | Inherited key =>
      if String.eqb key "constructor" then
        let '(o, st) := newObject st in (Ok (EmptyObject o), st)
      else (Throw "TypeError: C is not a constructor", st)
  end.

(** [factory.use(className)] *)
Definition use (loader : option Loader) (className : string) (st : Factory)
    : result UseValue * Factory :=
  let '(C, st) :=
    match getClass className st with
    | Some C => (Ok C, st)
    | None =>
        match loader with
        | Some loadClass =>
            match loadClass className st with
            | (Ok klassObj, st) =>
                ensureClass (default NULL (w_handle klassObj)) (Some className) st
            | (Throw msg, st) => (Throw msg, st)
            end
        | None =>
            match findClass (slashes className) st with
            | (Ok handle, st) =>
                let '(C, st) := ensureClass handle (Some className) st in
                (C, deleteLocalRef handle st)
            | (Throw msg, st) => (Throw msg, st)
            end
        end
    end in
  match C with
  | Ok C => newC C st
  | Throw msg => (Throw msg, st)
  end.

(** [factory.cast(obj, klass)]; [obj] is a wrapper or a bare handle. *)
Definition cast (obj : Wrapper + ptr) (klass : Wrapper) (st : Factory)
    : result Wrapper * Factory :=
  let handle := match obj with inl w => w_handle w | inr p => Some p end in
  if isInstanceOf handle (w_classHandle klass) st then
    instantiate (w_classWrapper klass) handle st
  else
    (Throw ("Cast from '" +:+ getObjectClassName handle st +:+ "' to '"
            +:+ getClassName (w_classHandle klass) st +:+ "' isn't possible"), st).

(** ** The hooking engine *)

Definition DVM_JNI_ENV_OFFSET_SELF := 12.
Definition DVM_CLASS_OBJECT_OFFSET_VTABLE_COUNT := 112.
Definition DVM_CLASS_OBJECT_OFFSET_VTABLE := 116.
Definition DVM_OBJECT_OFFSET_CLAZZ := 0.
Definition DVM_METHOD_SIZE := 56.
Definition DVM_METHOD_OFFSET_ACCESS_FLAGS := 4.
Definition DVM_METHOD_OFFSET_METHOD_INDEX := 8.
Definition DVM_METHOD_OFFSET_REGISTERS_SIZE := 10.
Definition DVM_METHOD_OFFSET_OUTS_SIZE := 12.
Definition DVM_METHOD_OFFSET_INS_SIZE := 14.
Definition DVM_METHOD_OFFSET_JNI_ARG_INFO := 36.
Definition kAccNative := 256.          (* 0x0100 *)
Definition kAccFastNative := 524288.   (* 0x00080000 *)

(** [getArtMethodSpec(vm, factory).offset] *)
Record ArtMethodOffset := {
  o_jniCode : Z;
  o_accessFlags : Z;
  o_quickCode : Z;
  o_interpreterCode : Z
}.

(** What the factory takes from its external collaborators: the [Api]
    of the VM (lib/api.js), the offsets of the spec locator
    (lib/android.js) and the host ([Process.pointerSize], the address of
    a [NativeCallback] made for a method and a script function). *)
Record Api := {
  flavor : Flavor;
  pointerSize : nat;
  env_handle : ptr;
  dvmUseJNIBridge : ptr -> ptr -> memory -> memory;
  dvmDecodeIndirectRef : ptr -> ptr -> ptr;
  artInterpreterToCompiledCodeBridge : ptr;
  runtime_instance_ptr : ptr;
  artMethodOffset : ArtMethodOffset;
  runtimeOffset_classLinker : option Z;
  classLinkerOffset_quickGenericJniTrampoline : option Z;
  NativeCallback : positive -> Z -> ptr
}.

Definition readPointer (api : Api) := read_le (pointerSize api).
Definition writePointer (api : Api) := write_le (pointerSize api).

(** [Memory.alloc(n)], a bump allocator, and [Memory.dup(a, n)]. *)
Definition alloc (n : Z) (st : Factory) : ptr * Factory :=
  (brk st, set_brk (brk st + n) st).

Definition dup (a : ptr) (n : Z) (st : Factory) : ptr * Factory :=
  let '(p, st) := alloc n st in
  (p, set_mem (copy p a n (mem st)) st).

Definition fetchMethod (api : Api) (methodId : ptr) (m : memory) : ArtMethodInfo :=
  let off := artMethodOffset api in
  {| jniCode := readPointer api m (methodId + o_jniCode off);
     accessFlags := readU32 m (methodId + o_accessFlags off);
     quickCode := readPointer api m (methodId + o_quickCode off);
     interpreterCode := readPointer api m (methodId + o_interpreterCode off) |}.

Definition patchMethod (api : Api) (methodId : ptr) (patches : ArtMethodInfo)
    (m : memory) : memory :=
  let off := artMethodOffset api in
  let m := writePointer api (methodId + o_jniCode off) (jniCode patches) m in
  let m := writeU32 (methodId + o_accessFlags off) (accessFlags patches) m in
  let m := writePointer api (methodId + o_quickCode off) (quickCode patches) m in
  writePointer api (methodId + o_interpreterCode off) (interpreterCode patches) m.

Definition set_implementation (x : option ptr) (ms : MethodState) : MethodState :=
  {| ms_methodId := ms_methodId ms; ms_type := ms_type ms; ms_argTypes := ms_argTypes ms;
     dalvikTargetMethodId := dalvikTargetMethodId ms;
     dalvikOriginalMethod := dalvikOriginalMethod ms;
     artOriginalMethodInfo := artOriginalMethodInfo ms;
     implementation := x |}.

Definition set_artOriginalMethodInfo (x : option ArtMethodInfo) (ms : MethodState)
    : MethodState :=
  {| ms_methodId := ms_methodId ms; ms_type := ms_type ms; ms_argTypes := ms_argTypes ms;
     dalvikTargetMethodId := dalvikTargetMethodId ms;
     dalvikOriginalMethod := dalvikOriginalMethod ms;
     artOriginalMethodInfo := x;
     implementation := implementation ms |}.

Definition set_dalvikCopies (original target : ptr) (ms : MethodState) : MethodState :=
  {| ms_methodId := ms_methodId ms; ms_type := ms_type ms; ms_argTypes := ms_argTypes ms;
     dalvikTargetMethodId := target;
     dalvikOriginalMethod := Some original;
     artOriginalMethodInfo := artOriginalMethodInfo ms;
     implementation := implementation ms |}.

(** The search for [artQuickGenericJniTrampoline] in
    [replaceArtImplementation]; [Throw] carries [errorMessage]. *)
Definition findQuickGenericJniTrampoline (api : Api) (m : memory) : result ptr :=
  match runtimeOffset_classLinker api, classLinkerOffset_quickGenericJniTrampoline api with
  | Some classLinkerOffset, Some trampolineOffset =>
      let runtime := readPointer api m (runtime_instance_ptr api) in
      if negb (isNull runtime) then
        let classLinker := readPointer api m (runtime + classLinkerOffset) in
        if negb (isNull classLinker) then
          let p := readPointer api m (classLinker + trampolineOffset) in
          if negb (isNull p) then Ok p
          else Throw "runtime->classlinker->quick_generic_jni_trampoline == null"
        else Throw "runtime->classlinker == null"
      else Throw "runtime == null"
  | _, _ => Throw "unknown Runtime and/or ClassLinker spec for the current VM version"
  end.

(** [replaceArtImplementation(fn)] in the closure of the method [self];
    [fn] is [None] for [null].  The operator [|] works on 32-bit
    integers; [Z.lor] has the same low 32 bits, which are what
    [Memory.writeU32] stores. *)
Definition replaceArtImplementation (api : Api) (self : positive) (fn : option Z)
    (st : Factory) : result unit * Factory :=
  match methods st !! self with
  | None => (Throw "TypeError", st)
  | Some ms =>
      match fn, artOriginalMethodInfo ms with
      | None, None => (Ok tt, st)
      | _, _ =>
          let methodId := ms_methodId ms in
          let original :=
            match artOriginalMethodInfo ms with
            | Some original => original
            | None => fetchMethod api methodId (mem st)
            end in
          let ms := set_artOriginalMethodInfo (Some original) ms in
          match fn with
          | Some fn =>
              let implementation := NativeCallback api self fn in
              let ms := set_implementation (Some implementation) ms in
              let st := set_methods (<[self := ms]> (methods st)) st in
              match findQuickGenericJniTrampoline api (mem st) with
              | Throw errorMessage =>
                  (Throw ("Cannot find the correct copy of quick generic jni trampoline: "
                          +:+ errorMessage), st)
              | Ok artQuickGenericJniTrampoline =>
                  let patches :=
                    {| jniCode := implementation;
                       accessFlags :=
                         Z.lor (Z.lor (readU32 (mem st)
                                         (methodId + o_accessFlags (artMethodOffset api)))
                                      kAccNative) kAccFastNative;
                       quickCode := artQuickGenericJniTrampoline;
                       interpreterCode := artInterpreterToCompiledCodeBridge api |} in
                  let st := set_mem (patchMethod api methodId patches (mem st)) st in
                  (Ok tt, set_patchedMethods ({[self]} ∪ patchedMethods st) st)
              end
          | None =>
              let st := set_patchedMethods (patchedMethods st ∖ {[self]}) st in
              let st := set_mem (patchMethod api methodId original (mem st)) st in
              (Ok tt, set_methods (<[self := set_implementation None ms]> (methods st)) st)
          end
      end
  end.

(** [argTypes.reduce((acc, t) => (acc + t.size), 0)] *)
Definition argsSizeOf (argTypes : list TypeAdapter) : Z :=
  fold_left (fun acc t => acc + Z.of_nat (wordSize (body t))) argTypes 0.

(** [replaceDalvikImplementation(fn)] in the closure of the method
    [self]. *)
Definition replaceDalvikImplementation (api : Api) (self : positive) (fn : option Z)
    (st : Factory) : result unit * Factory :=
  match methods st !! self with
  | None => (Throw "TypeError", st)
  | Some ms =>
      match fn, dalvikOriginalMethod ms with
      | None, None => (Ok tt, st)
      | _, _ =>
          let methodId := ms_methodId ms in
          let '(original, ms, st) :=
            match dalvikOriginalMethod ms with
            | Some original => (original, ms, st)
            | None =>
                let '(original, st) := dup methodId DVM_METHOD_SIZE st in
                let '(target, st) := dup methodId DVM_METHOD_SIZE st in
                (original, set_dalvikCopies original target ms, st)
            end in
          match fn with
          | Some fn =>
              let implementation := NativeCallback api self fn in
              let ms := set_implementation (Some implementation) ms in
              let argsSize := argsSizeOf (ms_argTypes ms) in
              let argsSize :=
                if MethodType_eqb (ms_type ms) INSTANCE_METHOD then argsSize + 1
                else argsSize in
              let m := mem st in
              let accessFlags :=
                Z.lor (readU32 m (methodId + DVM_METHOD_OFFSET_ACCESS_FLAGS)) kAccNative in
              let registersSize := argsSize in
              let outsSize := 0 in
              let insSize := argsSize in
              let jniArgInfo := 2147483648 in
              let m := writeU32 (methodId + DVM_METHOD_OFFSET_ACCESS_FLAGS) accessFlags m in
              let m := writeU16 (methodId + DVM_METHOD_OFFSET_REGISTERS_SIZE) registersSize m in
              let m := writeU16 (methodId + DVM_METHOD_OFFSET_OUTS_SIZE) outsSize m in
              let m := writeU16 (methodId + DVM_METHOD_OFFSET_INS_SIZE) insSize m in
              let m := writeU32 (methodId + DVM_METHOD_OFFSET_JNI_ARG_INFO) jniArgInfo m in
              let m := dvmUseJNIBridge api methodId implementation m in
              let st := set_mem m st in
              let st := set_methods (<[self := ms]> (methods st)) st in
              (Ok tt, set_patchedMethods ({[self]} ∪ patchedMethods st) st)
          | None =>
              let st := set_patchedMethods (patchedMethods st ∖ {[self]}) st in
              let st := set_mem (copy methodId original DVM_METHOD_SIZE (mem st)) st in
              (Ok tt, set_methods (<[self := set_implementation None ms]> (methods st)) st)
          end
      end
  end.

(** The setter of the property [implementation] of a method function. *)
Definition setImplementation (api : Api) (self : positive) (fn : option Z)
    (st : Factory) : result unit * Factory :=
  match methods st !! self with
  | None => (Throw "TypeError", st)
  | Some ms =>
      match ms_type ms with
      | CONSTRUCTOR_METHOD =>
          (Throw "Reimplementing $new is not possible. Please replace implementation of $init instead.", st)
      | _ =>
          match flavor api with
          | art => replaceArtImplementation api self fn st
          | dalvik => replaceDalvikImplementation api self fn st
          end
      end
  end.

(** Objects used as dictionaries keyed by an address: lookup, and
    assignment that keeps the place of a key already present. *)
Fixpoint lookupKey {A} (key : ptr) (d : list (ptr * A)) : option A :=
  match d with
  | [] => None
  | (k, v) :: rest => if k =? key then Some v else lookupKey key rest
  end.

Fixpoint assignKey {A} (key : ptr) (v : A) (d : list (ptr * A)) : list (ptr * A) :=
  match d with
  | [] => [(key, v)]
  | (k, w) :: rest =>
      if k =? key then (k, v) :: rest else (k, w) :: assignKey key v rest
  end.

(** [delete d[key]] *)
Definition deleteKey {A} (key : ptr) (d : list (ptr * A)) : list (ptr * A) :=
  List.filter (fun kv => negb (fst kv =? key)) d.

(** The digits of [p.toString(16)], the key under which an address is
    filed; an address is not negative. *)
Fixpoint hexDigitsFrom (fuel : nat) (p : Z) (acc : list Z) : list Z :=
  match fuel with
  | O => acc
  | S k => if p <? 16 then p :: acc else hexDigitsFrom k (p / 16) (p mod 16 :: acc)
  end.

Definition hexDigits (p : ptr) : list Z :=
  hexDigitsFrom (S (Z.to_nat (Z.log2 p))) p [].

(** A key that is an array index: a string of decimal digits that
    reads, in base ten, as an integer below 2^32 - 1.  The hexadecimal
    form of an address has no leading zero. *)
Definition arrayIndex (p : ptr) : option Z :=
  let digits := hexDigits p in
  if forallb (fun d => d <? 10) digits then
    let n := fold_left (fun acc d => 10 * acc + d) digits 0 in
    if n <? 4294967295 then Some n else None
  else None.

Fixpoint insertIndex (x : Z * ptr) (l : list (Z * ptr)) : list (Z * ptr) :=
  match l with
  | [] => [x]
  | y :: rest => if fst x <=? fst y then x :: l else y :: insertIndex x rest
  end.

(** The own keys of a dictionary in the order in which [for (key in d)]
    visits them (the order of [[OwnPropertyKeys]], which ECMAScript 2020
    prescribes for [for-in] and V8 has always followed): the array
    indices in ascending numeric order, then the other keys in the order
    of their creation. *)
Definition forInKeys {A} (d : list (ptr * A)) : list ptr :=
  map snd (fold_right insertIndex []
             (omap (fun kv => match arrayIndex (fst kv) with
                              | Some i => Some (i, fst kv)
                              | None => None
                              end) d))
  ++ map fst (List.filter (fun kv => match arrayIndex (fst kv) with
                                     | Some _ => false
                                     | None => true
                                     end) d).

Definition set_shadow (count : Z) (targets : list (ptr * positive)) (e : Entry) : Entry :=
  {| classObject := classObject e; vtablePtr := vtablePtr e;
     vtableCountPtr := vtableCountPtr e; vtable := vtable e;
     vtableCount := vtableCount e; shadowVtable := shadowVtable e;
     shadowVtableCount := count; targetMethods := targets |}.

(** [synchronizeDalvikVtable.call(this, env, instance)] in the closure
    of the method [self]. *)
Definition synchronizeDalvikVtable (api : Api) (self : positive) (this : Wrapper)
    (instance : bool) (st : Factory) : Factory :=
  match methods st !! self with
  | None => st
  | Some ms =>
      match dalvikOriginalMethod ms with
      | None => st
      | Some _ =>
          let thread := readPointer api (mem st) (env_handle api + DVM_JNI_ENV_OFFSET_SELF) in
          let objectPtr :=
            dvmDecodeIndirectRef api thread
              (if instance then default NULL (w_handle this) else w_classHandle this) in
          let classObject :=
            if instance then readPointer api (mem st) (objectPtr + DVM_OBJECT_OFFSET_CLAZZ)
            else objectPtr in
          let key := classObject in
          let '(entry, st) :=
            match lookupKey key (patchedClasses st) with
            | Some entry => (entry, st)
            | None =>
                let vtablePtr := classObject + DVM_CLASS_OBJECT_OFFSET_VTABLE in
                let vtableCountPtr := classObject + DVM_CLASS_OBJECT_OFFSET_VTABLE_COUNT in
                let vtable := readPointer api (mem st) vtablePtr in
                let vtableCount := readS32 (mem st) vtableCountPtr in
                let vtableSize := vtableCount * Z.of_nat (pointerSize api) in
                let '(shadowVtable, st) := alloc (2 * vtableSize) st in
                let st := set_mem (copy shadowVtable vtable vtableSize (mem st)) st in
                let st := set_mem (writePointer api vtablePtr shadowVtable (mem st)) st in
                let entry :=
                  {| classObject := classObject; vtablePtr := vtablePtr;
                     vtableCountPtr := vtableCountPtr; vtable := vtable;
                     vtableCount := vtableCount; shadowVtable := shadowVtable;
                     shadowVtableCount := vtableCount; targetMethods := [] |} in
                (entry, set_patchedClasses (assignKey key entry (patchedClasses st)) st)
            end in
          let methodId := ms_methodId ms in
          match lookupKey methodId (targetMethods entry) with
          | Some _ => st
          | None =>
              let methodIndex := shadowVtableCount entry in
              let count := methodIndex + 1 in
              let m := mem st in
              let m := writePointer api
                         (shadowVtable entry + methodIndex * Z.of_nat (pointerSize api))
                         (dalvikTargetMethodId ms) m in
              let m := writeU16 (dalvikTargetMethodId ms + DVM_METHOD_OFFSET_METHOD_INDEX)
                         methodIndex m in
              let m := writeS32 (vtableCountPtr entry) count m in
              let entry := set_shadow count (assignKey methodId self (targetMethods entry)) entry in
              set_patchedClasses (assignKey key entry (patchedClasses st)) (set_mem m st)
          end
      end
  end.

(** ToNumber on the values a comparison meets here. *)
Definition ToNumber (v : value) : number :=
  match v with
  | VNumber n => n
  | VNull => of_int 0
  | VBoolean b => of_int (if b then 1 else 0)
  | _ => NaN
  end.

(** [patchedMethods.length]: [patchedMethods] is a [Set], which has a
    [size] and no property [length]; the lookup gives [undefined]. *)
Definition Set_length (s : gset positive) : value := VUndefined.

(** The loop [for (let methodId in targetMethods)] of [dispose] over
    the keys still to visit; with the outcome, what is left of
    [targetMethods].  A key is deleted once the setter has returned. *)
Fixpoint restoreTargetMethods (api : Api) (keys : list ptr)
    (targetMethods : list (ptr * positive)) (st : Factory)
    : result unit * list (ptr * positive) * Factory :=
  match keys with
  | [] => (Ok tt, targetMethods, st)
  | methodId :: keys =>
      match lookupKey methodId targetMethods with
      | None => restoreTargetMethods api keys targetMethods st
      | Some method =>
          match setImplementation api method None st with
          | (Ok _, st) =>
              restoreTargetMethods api keys (deleteKey methodId targetMethods) st
          | (Throw msg, st) => (Throw msg, targetMethods, st)
          end
      end
  end.

(** The loop [for (let entryId in patchedClasses)] of [dispose] over the
    keys still to visit. *)
Fixpoint restorePatchedClasses (api : Api) (keys : list ptr) (st : Factory)
    : result unit * Factory :=
  match keys with
  | [] => (Ok tt, st)
  | entryId :: keys =>
      match lookupKey entryId (patchedClasses st) with
      | None => restorePatchedClasses api keys st
      | Some entry =>
          let m := writePointer api (vtablePtr entry) (vtable entry) (mem st) in
          let m := writeS32 (vtableCountPtr entry) (vtableCount entry) m in
          match restoreTargetMethods api (forInKeys (targetMethods entry))
                  (targetMethods entry) (set_mem m st) with
          | (Ok _, _, st) =>
              restorePatchedClasses api keys
                (set_patchedClasses (deleteKey entryId (patchedClasses st)) st)
          | (Throw msg, remaining, st) =>
              let entry := set_shadow (shadowVtableCount entry) remaining entry in
              (Throw msg,
               set_patchedClasses (assignKey entryId entry (patchedClasses st)) st)
          end
      end
  end.

(** The loop [for (let classId in classes)] of [dispose]. *)
Definition releaseClass (st : Factory) (entry : string * positive) : Factory :=
  let st :=
    match klasses st !! entry.2 with
    | Some klass =>
        let st := fold_left (fun st m => deleteGlobalRef m st) (k_methods klass) st in
        let st := fold_left (fun st f => deleteGlobalRef f st) (k_fields klass) st in
        deleteGlobalRef (k_handle klass) st
    | None => st
    end in
  set_classes (delete entry.1 (classes st)) st.

(** [factory.dispose(env)].  The guard of the [while] loop compares
    [patchedMethods.length] with 0; should it hold, the body calls
    [patchedMethods.pop], which a [Set] does not have. *)
Definition dispose (api : Api) (st : Factory) : result unit * Factory :=
  if num_gt (ToNumber (Set_length (patchedMethods st))) 0 then
    (Throw "TypeError: patchedMethods.pop is not a function", st)
  else
    match restorePatchedClasses api (forInKeys (patchedClasses st)) st with
    | (Ok _, st) => (Ok tt, fold_left releaseClass (map_to_list (classes st)) st)
    | (Throw msg, st) => (Throw msg, st)
    end.

(** ** Definitions used by the statements *)

(** A converter applied to a value; an absent converter leaves the
    value as it is. *)
Definition convert (c : option Converter) (v : value) : option value :=
  match c with
  | None => Some v
  | Some (Pure f) => f v
  | Some WithEnv => None
  end.

(** [fromJni(toJni(v))] *)
Definition roundTrip (t : TypeBody) (v : value) : option value :=
  match convert (toJni t) v with
  | Some raw => convert (fromJni t) raw
  | None => None
  end.

(** A number whose value is an integer between [lo] and [hi]. *)
Definition integral (lo hi : Z) (v : value) : Prop :=
  exists q z, v = VNumber (Finite q) /\ (q == inject_Z z)%Q /\ lo <= z <= hi.

(** The values of a Java primitive, as the specification gives them: a
    numeric primitive holds the numbers of its range ([byte] those of
    [-128, 127], and so on by width), [char] a string of one 16-bit code
    unit, [boolean] true and false. *)
Definition inRange (name : string) (v : value) : Prop :=
  if String.eqb name "boolean" then exists b, v = VBoolean b
  else if String.eqb name "byte" then integral (-128) 127 v
  else if String.eqb name "char" then
    exists c, v = VString [c] /\ 0 <= c <= 65535
  else if String.eqb name "short" then integral (-32768) 32767 v
  else if String.eqb name "int" then integral (-2147483648) 2147483647 v
  else if String.eqb name "long" then
    integral (-9223372036854775808) 9223372036854775807 v
    \/ exists z, v = VInt64 z /\ -9223372036854775808 <= z <= 9223372036854775807
  else if String.eqb name "float" then
    exists n, v = VNumber n /\
      match n with
      | Finite q =>
          (inject_Z (-340282346638528859811704183484516925440) <= q)%Q /\
          (q <= inject_Z 340282346638528859811704183484516925440)%Q
      | _ => True
      end
  else if String.eqb name "double" then exists n, v = VNumber n
  else if String.eqb name "void" then v = VUndefined
  else False.

(** The primitives whose [isCompatible] tests the range. *)
Definition rangeChecked (name : string) : bool :=
  String.eqb name "boolean" || String.eqb name "byte" || String.eqb name "char"
  || String.eqb name "short" || String.eqb name "int" || String.eqb name "double"
  || String.eqb name "void".

(** The overloads of [methods] that take [n] arguments, in order. *)
Definition bucket (n : nat) (methods : list Method) : list Method :=
  List.filter (fun m => Nat.eqb (length (argumentTypes m)) n) methods.

(** The first method of a group all of whose argument types accept the
    argument at their position. *)
Definition firstCompatible (args : list value) (group : list Method) : option Method :=
  List.find (fun m => every_isCompatible 0 (argumentTypes m) args) group.


(** A method accepts the arguments: it takes as many as there are, and
    each of its argument types accepts the argument at its position. *)
Definition accepts (m : Method) (args : list value) : Prop :=
  Forall2 (fun t v => isCompatible (body t) v = true) (argumentTypes m) args.

Definition isOk {A} (r : result A) : bool :=
  match r with Ok _ => true | Throw _ => false end.

(** The names of all parameter types can be had: [getArrayTypeName] for
    the last one of a varargs method, [getTypeName] for the others. *)
Fixpoint parametersResolve (isVarArgs : bool) (argTypes : list JType) : bool :=
  match argTypes with
  | [] => true
  | t :: rest =>
      isOk (if isVarArgs && Nat.eqb (length rest) 0 then getArrayTypeName t
            else getTypeName t)
      && parametersResolve isVarArgs rest
  end.

(** The return type and the parameter types of a reflected method
    resolve. *)
Definition typesResolve (handle : JMethod) : bool :=
  match getGenericReturnType handle with
  | Ok retType =>
      isOk (getTypeName retType) &&
      match getGenericParameterTypes handle with
      | Ok argTypes => parametersResolve (isVarArgs handle) argTypes
      | Throw _ => false
      end
  | Throw _ => false
  end.


(** The registry describes the type of that name by [t]. *)
Definition describes (name : result string) (t : TypeAdapter) : Prop :=
  exists n, name = Ok n /\ getTypeFromJniTypename n None = Ok t.

(** The name asked for each parameter type: the name under which the
    last parameter of a varargs method is an array, the type name for
    every other parameter. *)
Fixpoint parameterNames (isVarArgs : bool) (argTypes : list JType) : list (result string) :=
  match argTypes with
  | [] => []
  | [t] => [if isVarArgs then getArrayTypeName t else getTypeName t]
  | t :: rest => getTypeName t :: parameterNames isVarArgs rest
  end.

(** A reflected method is declared [static]: bit 3 (0x0008) of its
    modifiers is set. *)
Definition declaredStatic (handle : JMethod) : bool := Z.testbit (getModifiers handle) 3.

(** [m] is the bridge function for the reflected method [handle] of the
    class wrapped by [klass]: it carries the method's name and id, is
    static or instance as the method is declared, and its return and
    argument types are the registry's descriptors of the method's
    return and parameter types. *)
Definition bridges (klass : positive) (name : string) (handle : JMethod) (m : Method)
    : Prop :=
  exists retType argTypes jsRetType jsArgTypes,
    getGenericReturnType handle = Ok retType /\
    describes (getTypeName retType) jsRetType /\
    getGenericParameterTypes handle = Ok argTypes /\
    Forall2 describes (parameterNames (isVarArgs handle) argTypes) jsArgTypes /\
    m = makeMethod klass name
          (if declaredStatic handle then STATIC_METHOD else INSTANCE_METHOD)
          (fromReflectedMethod handle) jsRetType jsArgTypes.

(** A reflected method is declared as an instance method without
    parameters. *)
Definition instanceNoArgs (handle : JMethod) : Prop :=
  declaredStatic handle = false /\ getGenericParameterTypes handle = Ok [].


(** Example data: the descriptor of a type name. *)
Definition typeNamed (typename : string) : TypeAdapter :=
  match getTypeFromJniTypename typename None with
  | Ok t => t
  | Throw _ => {| className := typename; body := getObjectType typename true |}
  end.

(** Example data: a class wrapper for [com.example.K], a view of the
    class and an instance of it. *)
Definition exampleKlasses : gmap positive Klass :=
  {[ 1%positive :=
       {| k_className := "K"; k_name := "com.example.K"; k_handle := 16;
          k_methods := []; k_fields := []; k_super := None |} ]}.

Definition classView : Wrapper :=
  {| oid := 2; w_classWrapper := 1; w_classHandle := 17; w_handle := None |}.

Definition anInstance : Wrapper :=
  {| oid := 3; w_classWrapper := 1; w_classHandle := 18; w_handle := Some 19 |}.

(** Example data: the instance methods [m(int)], [m(String)] and
    [toString(int)] of that class. *)
Definition m_int : Method :=
  makeMethod 1 "m" INSTANCE_METHOD 4096 (typeNamed "void") [typeNamed "int"].

Definition m_String : Method :=
  makeMethod 1 "m" INSTANCE_METHOD 4152 (typeNamed "void") [typeNamed "java.lang.String"].

Definition toString_int : Method :=
  makeMethod 1 "toString" INSTANCE_METHOD 4208 (typeNamed "java.lang.String")
    [typeNamed "int"].

(** Example data: reflected types and methods.  [valueOf_int] is a
    static [valueOf(int)]; the return type of [broken] cannot be had. *)
Definition jtype (name : string) : JType :=
  {| getTypeName := Ok name; getArrayTypeName := Ok ("[L" +:+ name +:+ ";") |}.

Definition valueOf_int : JMethod :=
  {| fromReflectedMethod := 8192; getModifiers := 9; isVarArgs := false;
     getGenericReturnType := Ok (jtype "java.lang.Integer");
     getGenericParameterTypes := Ok [jtype "int"] |}.

(** Example data: an instance method [valueOf()] that returns an
    [Object]. *)
Definition valueOf_noArgs : JMethod :=
  {| fromReflectedMethod := 8136; getModifiers := 1; isVarArgs := false;
     getGenericReturnType := Ok (jtype "java.lang.Object");
     getGenericParameterTypes := Ok [] |}.

Definition broken : JMethod :=
  {| fromReflectedMethod := 8248; getModifiers := 1; isVarArgs := false;
     getGenericReturnType := Throw "java.lang.TypeNotPresentException";
     getGenericParameterTypes := Ok [] |}.

Definition brokenConstructor : JConstructor :=
  {| c_fromReflectedMethod := 8304;
     c_getGenericParameterTypes :=
       [{| getTypeName := Throw "java.lang.TypeNotPresentException";
           getArrayTypeName := Throw "java.lang.TypeNotPresentException" |}] |}.

Definition defaultConstructor : JConstructor :=
  {| c_fromReflectedMethod := 8360; c_getGenericParameterTypes := [] |}.

(** The state [ClassFactory(vm)] starts from: empty [classes],
    [patchedClasses] and [patchedMethods], in a VM with the classes
    [loaded], memory [m] and allocations from [heap] on. *)
Definition ClassFactory (loaded : list JClass) (m : memory) (heap : ptr) : Factory :=
  {| classes := ∅; klasses := ∅; patchedClasses := []; patchedMethods := ∅;
     methods := ∅; allocated := 1; loadedClasses := loaded;
     refs := ∅; mem := m; brk := heap |}.

(** Example data: [java.lang.Object] and its subclass [com.example.K]
    with a method [valueOf(int)] and a field [count]; a factory that has
    wrapped [K], and an object of class [K] with a local reference. *)
Definition Object_class : JClass :=
  Root {| jc_name := "java.lang.Object"; declaredMethods := [];
          declaredFields := []; declaredConstructors := [defaultConstructor] |}.

Definition K_class : JClass :=
  Extends {| jc_name := "com.example.K";
             declaredMethods := [("valueOf"%string, valueOf_int)];
             declaredFields := ["count"%string];
             declaredConstructors := [defaultConstructor] |}
          Object_class.



Definition freshFactory : Factory :=
  ClassFactory [Object_class; K_class] (fun _ => 0) 1048576.

Definition usedOnce : result UseValue * Factory := use None "com.example.K" freshFactory.

Definition usedTwice : result UseValue * Factory :=
  use None "com.example.K" (snd usedOnce).

Definition withObject : ptr * Factory := newRef (Instance K_class 0) (snd usedOnce).

(** Example data: the view of [K] that the first [use] returned, an
    instance made by casting the object's local reference, and the cast
    of that instance's handle back to [K]. *)
Definition K_view : Wrapper :=
  {| oid := 3; w_classWrapper := 2; w_classHandle := 7; w_handle := None |}.

Definition K_instance : result Wrapper * Factory :=
  cast (inr (fst withObject)) K_view (snd withObject).

Definition K_recast : result Wrapper * Factory :=
  match fst K_instance with
  | Ok i => cast (inr (default NULL (w_handle i))) K_view (snd K_instance)
  | Throw msg => (Throw msg, snd K_instance)
  end.

(** Two ranges of addresses that do not meet. *)
Definition apart (a n b k : Z) : Prop := a + n <= b \/ b + k <= a.

(** The four fields of an ArtMethod lie apart from each other. *)
Definition fieldsDisjoint (api : Api) : Prop :=
  let off := artMethodOffset api in
  let P := Z.of_nat (pointerSize api) in
  apart (o_jniCode off) P (o_accessFlags off) 4 /\
  apart (o_jniCode off) P (o_quickCode off) P /\
  apart (o_jniCode off) P (o_interpreterCode off) P /\
  apart (o_accessFlags off) 4 (o_quickCode off) P /\
  apart (o_accessFlags off) 4 (o_interpreterCode off) P /\
  apart (o_quickCode off) P (o_interpreterCode off) P.

(** The four words of an ArtMethod record that a hook replaces, as
    they stand in memory: jniCode, accessFlags, quickCode and
    interpreterCode, the flags 32 bits wide, the others a pointer
    each. *)
Definition artWords (api : Api) (m : memory) (methodId : ptr) : list Z :=
  let off := artMethodOffset api in
  [read_le (pointerSize api) m (methodId + o_jniCode off);
   read_le 4 m (methodId + o_accessFlags off);
   read_le (pointerSize api) m (methodId + o_quickCode off);
   read_le (pointerSize api) m (methodId + o_interpreterCode off)].

(** The words of a snapshot, each cut to the width of its field. *)
Definition storedWords (api : Api) (s : ArtMethodInfo) : list Z :=
  [jniCode s mod 256 ^ Z.of_nat (pointerSize api);
   accessFlags s mod 256 ^ 4;
   quickCode s mod 256 ^ Z.of_nat (pointerSize api);
   interpreterCode s mod 256 ^ Z.of_nat (pointerSize api)].


(** The pre-hook snapshot of a method: the one taken at an earlier hook
    if there is one ([artOriginalMethodInfo], the bytes of the copy
    [dalvikOriginalMethod]), else the record as it is, which is what the
    coming hook will keep. *)
Definition artSnapshot (api : Api) (st : Factory) (ms : MethodState) : ArtMethodInfo :=
  match artOriginalMethodInfo ms with
  | Some original => original
  | None => fetchMethod api (ms_methodId ms) (mem st)
  end.

Definition dalvikSnapshot (st : Factory) (ms : MethodState) : list Z :=
  bytes 56 (mem st)
    (match dalvikOriginalMethod ms with
     | Some original => original
     | None => ms_methodId ms
     end).

(** What the hooking engine relies on.  ART: the four fields lie apart
    and a snapshot already held was read from the record.  Dalvik: the
    copy that holds (or will hold, at the next allocation) the snapshot
    lies apart from the record, and [dvmUseJNIBridge] writes into the
    record only. *)
Definition hookable (api : Api) (st : Factory) (ms : MethodState) : Prop :=
  match flavor api with
  | art =>
      fieldsDisjoint api /\
      forall original, artOriginalMethodInfo ms = Some original ->
        exists m0, original = fetchMethod api (ms_methodId ms) m0
  | dalvik =>
      apart (match dalvikOriginalMethod ms with
             | Some original => original
             | None => brk st
             end) 56 (ms_methodId ms) 56 /\
      forall implementation m x,
        x < ms_methodId ms \/ ms_methodId ms + 56 <= x ->
        dvmUseJNIBridge api (ms_methodId ms) implementation m x = m x
  end.

(** The native record of the method, in the state [after], equals the
    pre-hook snapshot of the state [before]: on ART the four words, on
    Dalvik the 56 bytes of the Method struct. *)
Definition recordRestored (api : Api) (before : Factory) (ms : MethodState)
    (after : Factory) : Prop :=
  match flavor api with
  | art => fetchMethod api (ms_methodId ms) (mem after) = artSnapshot api before ms
  | dalvik => bytes 56 (mem after) (ms_methodId ms) = dalvikSnapshot before ms
  end.

(** Example data: an ART and a Dalvik VM on a 32-bit process, a memory
    with the chain runtime -> class linker -> trampoline and a method
    record at 4096, and a factory that holds one instance method for
    that record, not hooked so far. *)
Definition artApi : Api :=
  {| flavor := art; pointerSize := 4; env_handle := 256;
     dvmUseJNIBridge := fun _ _ m => m;
     dvmDecodeIndirectRef := fun _ r => r;
     artInterpreterToCompiledCodeBridge := 28672;
     runtime_instance_ptr := 512;
     artMethodOffset :=
       {| o_jniCode := 40; o_accessFlags := 12; o_quickCode := 44;
          o_interpreterCode := 36 |};
     runtimeOffset_classLinker := Some 16;
     classLinkerOffset_quickGenericJniTrampoline := Some 32;
     NativeCallback := fun _ fn => 36864 + fn |}.

Definition dalvikApi : Api :=
  {| flavor := dalvik; pointerSize := 4; env_handle := 256;
     dvmUseJNIBridge := fun method implementation m =>
                          write_le 4 (method + 40) implementation m;
     dvmDecodeIndirectRef := fun _ r => r;
     artInterpreterToCompiledCodeBridge := 0;
     runtime_instance_ptr := 0;
     artMethodOffset :=
       {| o_jniCode := 0; o_accessFlags := 0; o_quickCode := 0;
          o_interpreterCode := 0 |};
     runtimeOffset_classLinker := None;
     classLinkerOffset_quickGenericJniTrampoline := None;
     NativeCallback := fun _ fn => 36864 + fn |}.

Definition exampleMemory : memory :=
  write_le 4 512 768
    (write_le 4 784 1024
       (write_le 4 1056 20480
          (write_le 4 4100 1
             (write_le 4 4108 1
                (write_le 4 4132 26624
                   (write_le 4 4140 24576 (fun _ => 0))))))).

Definition exampleMethod : MethodState :=
  {| ms_methodId := 4096; ms_type := INSTANCE_METHOD; ms_argTypes := [];
     dalvikTargetMethodId := 4096; dalvikOriginalMethod := None;
     artOriginalMethodInfo := None; implementation := None |}.

Definition hookFactory : Factory :=
  set_methods {[ 1%positive := exampleMethod ]}
    (ClassFactory [Object_class; K_class] exampleMemory 1048576).

(** The factory after [method.implementation = fn] on ART. *)
Definition hooked : Factory := snd (setImplementation artApi 1 (Some 7) hookFactory).


(** Example data on Dalvik: the factory after
    [method.implementation = fn], and after a call of the method on an
    instance at 8192 has run [synchronizeDalvikVtable]. *)
Definition hookedDalvik : Factory :=
  snd (setImplementation dalvikApi 1 (Some 7) hookFactory).

(** Example data on Dalvik: a memory in which the object at 8192 is of
    the class whose class object lies at 12288, with a vtable of two
    entries at 16384; the factory over that memory after
    [method.implementation = fn]; and the receiver of a call. *)
Definition vtableMemory : memory :=
  write_le 4 8192 12288
    (write_le 4 12400 2
       (write_le 4 12404 16384
          (write_le 4 16384 4096
             (write_le 4 16388 4200 exampleMemory)))).

Definition hookedWithVtable : Factory :=
  snd (setImplementation dalvikApi 1 (Some 7) (set_mem vtableMemory hookFactory)).

Definition receiver : Wrapper :=
  {| oid := 9; w_classWrapper := 2; w_classHandle := 7; w_handle := Some 8192 |}.

Definition calledDalvik : Factory :=
  synchronizeDalvikVtable dalvikApi 1
    {| oid := 9; w_classWrapper := 2; w_classHandle := 7; w_handle := Some 8192 |}
    true hookedDalvik.

(** ** More of the dispatcher: selection by signature *)

(** The number of colons in a string. *)
Fixpoint colons (s : string) : nat :=
  match s with
  | EmptyString => 0
  | String a rest => (if Ascii.eqb a ":" then 1 else 0) + colons rest
  end.

(** [method.argumentTypes.map(t => t.className).join(':')] *)
Definition signatureOf (m : Method) : string :=
  String.concat ":" (map className (argumentTypes m)).

(** The loop of [overload] over the group. *)
Fixpoint findSignature (name signature : string) (group : list Method) : result Method :=
  match group with
  | [] => Throw (name +:+ ": specified argument types do not match any overload")
  | method :: rest =>
      if String.eqb (signatureOf method) signature then Ok method
      else findSignature name signature rest
  end.

(** The property [overload] of a dispatcher, called with the type names
    [arguments]; [Array.prototype.join.call(arguments, ':')] is their
    concatenation with colons. *)
Definition overload (d : Dispatcher) (arguments : list string) : result Method :=
  match candidates d !! length arguments with
  | None => Throw (d_name d +:+ ": argument count does not match any overload")
  | Some group => findSignature (d_name d) (String.concat ":" arguments) group
  end.

(** The first method of a group whose argument types have the class
    names [names]. *)
Definition firstNamed (names : list string) (group : list Method) : option Method :=
  List.find (fun m => bool_decide (map className (argumentTypes m) = names)) group.

(** Two method functions made for the same reflected constructor: the
    one of [$new] and the one of [$init]. *)
Definition sameConstructor (klass : positive) (name : string) (a b : Method) : Prop :=
  exists methodId retType voidType argTypes,
    a = makeMethod klass (basename name) CONSTRUCTOR_METHOD methodId retType argTypes /\
    b = makeMethod klass (basename name) INSTANCE_METHOD methodId voidType argTypes.

(** The number of dots in a string. *)
Fixpoint dots (s : string) : nat :=
  match s with
  | EmptyString => 0
  | String a rest => (if Ascii.eqb a "." then 1 else 0) + dots rest
  end.

(** ** More of the class cache *)

(** The names of the superclasses of a class, nearest first. *)
Definition superNames (c : JClass) : list string :=
  match c with
  | Root _ => []
  | Extends _ s => ancestry s
  end.

(** Along the chain of superclasses of [c], a class that [classes]
    gives a value for has all its own superclasses given one. *)
Fixpoint chainClosed (c : JClass) (st : Factory) : Prop :=
  match c with
  | Root _ => True
  | Extends _ s =>
      (is_Some (getClass (jc_name (info s)) st) ->
       Forall (fun a => is_Some (getClass a st)) (ancestry s)) /\
      chainClosed s st
  end.

(** The first step of [ensureClass] after a miss: the superclass, if
    there is one, is wrapped, and its local reference deleted. *)
Definition ensureSuperclass (c : JClass) (st : Factory)
    : result (option ClassesValue) * Factory :=
  match c with
  | Root _ => (Ok None, st)
  | Extends _ s =>
      let '(superHandle, st) := newRef (ClassObject s) st in
      let '(k, st) := ensureClass_of s superHandle None st in
      (match k with Ok k => Ok (Some k) | Throw msg => Throw msg end,
       deleteLocalRef superHandle st)
  end.

(** [makeHandleDestructor(...handles)]: the function it returns, run.
    The null handles are filtered out, the others deleted in order. *)
Definition makeHandleDestructor (handles : list (option ptr)) (st : Factory) : Factory :=
  fold_left (fun st ref => deleteGlobalRef ref st) (omap id handles) st.

(** The destructor bound to a wrapper object by its constructor:
    [makeHandleDestructor(this.$handle, this.$classHandle)]. *)
Definition destructorOf (w : Wrapper) : Factory -> Factory :=
  makeHandleDestructor [w_handle w; Some (w_classHandle w)].

(** ** More of the hooking engine *)

(** Every method function with a replacement is in [patchedMethods],
    and no other. *)
Definition tracked (st : Factory) : Prop :=
  forall self ms,
    methods st !! self = Some ms ->
    (self ∈ patchedMethods st <-> implementation ms <> None).

(** The method [ms1] of the state [st1] is the method [ms], hooked: it
    can still be hooked, and it holds the pre-hook snapshot of the state
    [before] (on Dalvik in the copy its [originalMethod] points to). *)
Definition holdsSnapshot (api : Api) (before : Factory) (ms : MethodState)
    (st1 : Factory) (ms1 : MethodState) : Prop :=
  ms_methodId ms1 = ms_methodId ms /\
  ms_type ms1 = ms_type ms /\
  hookable api st1 ms1 /\
  match flavor api with
  | art => artOriginalMethodInfo ms1 = Some (artSnapshot api before ms)
  | dalvik =>
      exists original,
        dalvikOriginalMethod ms1 = Some original /\
        bytes 56 (mem st1) original = dalvikSnapshot before ms
  end.

(** [m.implementation = fn] for each [fn] of [fns] in turn, errors
    caught. *)
Definition setImplementations (api : Api) (self : positive) (fns : list Z)
    (st : Factory) : Factory :=
  fold_left (fun st fn => snd (setImplementation api self (Some fn) st)) fns st.

(** The class object that [synchronizeDalvikVtable.call(this, env,
    instance)] patches: the class of the receiver of an instance
    method, the class itself for a static one. *)
Definition dalvikClassObject (api : Api) (this : Wrapper) (instance : bool)
    (st : Factory) : ptr :=
  let thread := readPointer api (mem st) (env_handle api + DVM_JNI_ENV_OFFSET_SELF) in
  let objectPtr :=
    dvmDecodeIndirectRef api thread
      (if instance then default NULL (w_handle this) else w_classHandle this) in
  if instance then readPointer api (mem st) (objectPtr + DVM_OBJECT_OFFSET_CLAZZ)
  else objectPtr.

(** [resolveArtTargetMethodId()] in the closure of the method [self]:
    the method id a call from script passes to JNI on ART.  [thread]
    is what [api['art::Thread::CurrentFromGdb']()] returns and [Clone]
    is [api['art::mirror::Object::Clone']], which allocates the copy in
    the runtime's heap.  The closure exists for a method function only;
    for another [self] the model stops with an error. *)
Definition resolveArtTargetMethodId (api : Api) (thread : ptr)
    (Clone : ptr -> ptr -> memory -> ptr * memory) (self : positive) (st : Factory)
    : result ptr * Factory :=
  match methods st !! self with
  | None => (Throw "TypeError", st)
  | Some ms =>
      match artOriginalMethodInfo ms with
      | None => (Ok (ms_methodId ms), st)
      | Some original =>
          let '(target, m) := Clone (ms_methodId ms) thread (mem st) in
          (Ok target, set_mem (patchMethod api target original m) st)
      end
  end.

(** * Properties *)

(** ** The TypeAdapter registry *)

Example basename_of_K : basename "com.example.K" = "K"%string.
Proof. reflexivity. Qed.

Example basename_without_dot : basename "K" = "K"%string.
Proof. reflexivity. Qed.

Example slashes_of_K : slashes "com.example.K" = "com/example/K"%string.
Proof. reflexivity. Qed.

Example descriptor_is_stripped :
  className (typeNamed "Ljava.lang.String;") = "java.lang.String"%string.
Proof. reflexivity. Qed.

Example array_keeps_its_name :
  className (typeNamed "[Ljava.lang.String;") = "[Ljava.lang.String;"%string.
Proof. reflexivity. Qed.

Example byte_accepts_127 :
  isCompatible (body (typeNamed "byte")) (VNumber (of_int 127)) = true.
Proof. reflexivity. Qed.

Example byte_rejects_128 :
  isCompatible (body (typeNamed "byte")) (VNumber (of_int 128)) = false.
Proof. reflexivity. Qed.

Example byte_rejects_a_half :
  isCompatible (body (typeNamed "byte")) (VNumber (Finite (1 # 2))) = false.
Proof. reflexivity. Qed.

Example String_accepts_a_string :
  isCompatible (body (typeNamed "java.lang.String")) (VString (units "x")) = true.
Proof. reflexivity. Qed.

Example Object_rejects_a_string :
  isCompatible (body (typeNamed "java.lang.Object")) (VString (units "x")) = false.
Proof. reflexivity. Qed.

Example int_array_accepts :
  isCompatible (body (typeNamed "[I")) (VArray [VNumber (of_int 1); VNumber (of_int 2)])
  = true.
Proof. reflexivity. Qed.

Lemma isInteger_spec q :
  isInteger (Finite q) = true <-> exists z, (q == inject_Z z)%Q.
Proof.
  destruct q as [n d]. unfold isInteger, Qeq. simpl. rewrite Z.eqb_eq. split.
  - intros H. exists (n / Zpos d).
    rewrite Z.mul_1_r. rewrite Z.mul_comm.
    apply Z.div_exact; [lia | exact H].
  - intros [z Hz]. rewrite Z.mul_1_r in Hz. subst n. apply Z.mod_mul. lia.
Qed.

Lemma int_in_range_spec lo hi v :
  int_in_range lo hi v = true <-> integral lo hi v.
Proof.
  unfold int_in_range, integral. split.
  - destruct v as [| | |n| | | | | |]; try discriminate.
    rewrite !andb_true_iff. intros [[Hi Hge] Hle].
    destruct n as [q| |]; try discriminate.
    apply isInteger_spec in Hi. destruct Hi as [z Hz].
    exists q, z. split; [reflexivity|]. split; [exact Hz|].
    simpl in Hge, Hle. apply Qle_bool_iff in Hge, Hle.
    rewrite Hz in Hge, Hle. rewrite <- Zle_Qle in Hge, Hle. lia.
  - intros (q & z & -> & Hz & Hr). simpl.
    rewrite !andb_true_iff. repeat split.
    + apply isInteger_spec. exists z. exact Hz.
    + apply Qle_bool_iff. rewrite Hz. rewrite <- Zle_Qle. lia.
    + apply Qle_bool_iff. rewrite Hz. rewrite <- Zle_Qle. lia.
Qed.

Lemma truthy_of_bool (b : bool) :
  truthy (VNumber (of_int (if b then 1 else 0))) = b.
Proof. destruct b; reflexivity. Qed.

Lemma ToUint16_code_unit c :
  0 <= c <= 65535 -> ToUint16 (of_int c) = c.
Proof.
  intros H. unfold ToUint16, of_int, inject_Z. simpl.
  rewrite Z.quot_1_r. apply Z.mod_small. lia.
Qed.

Ltac primitive_cases H :=
  lazymatch type of H with
  | (if String.eqb ?n ?lit then _ else _) = _ =>
      let E := fresh "E" in
      destruct (String.eqb n lit) eqn:E;
      [apply String.eqb_eq in E; subst n; injection H as <- | primitive_cases H]
  | _ => discriminate H
  end.

(** C9, as amended: for every primitive and every value it accepts,
    marshaling out and back gives the value again; and for [boolean],
    [byte], [char], [short], [int], [double] and [void] the values
    accepted are exactly those of the primitive's range. *)
Theorem primitive_marshaling (name : string) (t : TypeBody) (v : value) :
  getPrimitiveType name = Some t ->
  (isCompatible t v = true -> roundTrip t v = Some v) /\
  (rangeChecked name = true -> (isCompatible t v = true <-> inRange name v)).
Proof.
  intros H. unfold getPrimitiveType in H. primitive_cases H; simpl; (split; [intros Hc | intros Hr]);
    try reflexivity; try discriminate Hr.
  - (* boolean *)
    destruct v; try discriminate Hc. unfold roundTrip; simpl.
    unfold boolean_fromJni. now rewrite truthy_of_bool.
  - unfold inRange; simpl. split.
    + destruct v; try discriminate. eauto.
    + intros [b ->]. reflexivity.
  - unfold inRange; simpl. apply int_in_range_spec.
  - (* char *)
    destruct v as [| | | |s| | | | |]; try discriminate Hc.
    destruct s as [|c [|]]; try discriminate Hc.
    simpl in Hc. apply andb_true_iff in Hc. destruct Hc as [H0 H1].
    apply Z.leb_le in H0, H1.
    unfold roundTrip, convert, char_toJni, char_fromJni; cbn [toJni fromJni].
    now rewrite ToUint16_code_unit by lia.
  - unfold inRange; simpl. split.
    + destruct v as [| | | |s| | | | |]; try discriminate.
      destruct s as [|c [|]]; try discriminate.
      simpl. rewrite andb_true_iff, !Z.leb_le. eauto.
    + intros (c & -> & Hc). simpl. rewrite andb_true_iff, !Z.leb_le. lia.
  - unfold inRange; simpl. apply int_in_range_spec.
  - unfold inRange; simpl. apply int_in_range_spec.
  - unfold inRange; simpl. split.
    + destruct v; try discriminate. eauto.
    + intros [n ->]. reflexivity.
  - unfold inRange; simpl. split.
    + destruct v; try discriminate. reflexivity.
    + intros ->. reflexivity.
Qed.

Lemma primitive_marshaling_witness :
  exists t, getPrimitiveType "char" = Some t /\
    roundTrip t (VString [65]) = Some (VString [65]) /\
    (isCompatible t (VString [65]) = true <-> inRange "char" (VString [65])).
Proof.
  eexists. split; [reflexivity|].
  destruct (primitive_marshaling "char" _ (VString [65]) eq_refl) as [Hrt Hrange].
  split; [apply Hrt; reflexivity | apply Hrange; reflexivity].
Defined.

(** C9, the claim as stated fails: [long] accepts the number 2^64, which
    lies outside the range of a Java [long]. *)
Lemma long_accepts_out_of_range :
  exists t, getPrimitiveType "long" = Some t /\
    isCompatible t (VNumber (of_int 18446744073709551616)) = true /\
    ~ inRange "long" (VNumber (of_int 18446744073709551616)).
Proof.
  eexists. split; [reflexivity|]. split; [reflexivity|].
  unfold inRange; simpl. intros [(q & z & Hv & Hq & Hr) | (z & Hv & _)].
  - injection Hv as <-. unfold of_int, inject_Z, Qeq in Hq. simpl in Hq. lia.
  - discriminate Hv.
Qed.

Lemma getTypeFromJniTypename_eq typename unbox :
  getTypeFromJniTypename typename unbox =
  (named <-
     match getPrimitiveType typename with
     | Some type => Ok (typename, type)
     | None =>
         match typename with
         | String first rest =>
             if Ascii.eqb first "[" then
               type <- getArrayType typename (default true unbox)
                         (getTypeFromJniTypename rest (Some (default true unbox))) ;;
               Ok (typename, type)
             else Ok (objectCase typename (default true unbox))
         | EmptyString => Ok (objectCase typename (default true unbox))
         end
     end ;;
   Ok {| className := fst named; body := snd named |}).
Proof. destruct typename; reflexivity. Qed.

(** The lookup of a primitive name gives the object of
    [getPrimitiveType] under that name. *)
Lemma primitive_lookup_body name t unbox :
  getPrimitiveType name = Some t ->
  getTypeFromJniTypename name unbox = Ok {| className := name; body := t |}.
Proof. intros H. rewrite getTypeFromJniTypename_eq, H. reflexivity. Qed.

Lemma getArrayType_total rest unbox e :
  (exists t, e = Ok t) ->
  exists b, getArrayType (String "[" rest) unbox e = Ok b.
Proof.
  intros [t ->]. unfold getArrayType.
  repeat match goal with
  | |- context [if String.eqb ?a ?b then _ else _] =>
      destruct (String.eqb a b); [eauto|]
  end.
  assert (Hp : String.prefix "[" (String "[" rest) = true)
    by (simpl; destruct rest; reflexivity).
  rewrite Hp. simpl. eauto.
Qed.

Lemma getTypeFromJniTypename_total typename :
  forall unbox, exists t, getTypeFromJniTypename typename unbox = Ok t.
Proof.
  induction typename as [|first rest IH]; intros unbox;
    rewrite getTypeFromJniTypename_eq.
  - destruct (getPrimitiveType ""); simpl; eauto.
  - destruct (getPrimitiveType (String first rest)); simpl; eauto.
    destruct (Ascii.eqb first "[") eqn:E; simpl; eauto.
    apply Ascii.eqb_eq in E. subst first.
    destruct (getArrayType_total rest (default true unbox) _
                (IH (Some (default true unbox)))) as [b ->].
    simpl. eauto.
Qed.

(** C8, as amended: the lookup of a type name never fails (a name that
    is no primitive and no array is taken as a reference type), and it
    keeps no cache: each lookup of a name builds a new descriptor object
    with the same contents. *)
Theorem type_lookup_total_uncached (typename : string) (unbox : option bool)
    (built : list TypeAdapter) :
  exists t,
    getTypeFromJniTypename typename unbox = Ok t /\
    lookupType typename unbox built = (Ok (length built), built ++ [t]) /\
    lookupType typename unbox (built ++ [t])
      = (Ok (S (length built)), (built ++ [t]) ++ [t]).
Proof.
  destruct (getTypeFromJniTypename_total typename unbox) as [t Ht].
  exists t. unfold lookupType. rewrite Ht. repeat split.
  rewrite length_app. simpl. do 2 f_equal. lia.
Qed.

(** C8, the claim as stated fails: the second lookup of [int] returns an
    object other than the one the first lookup returned, and a name that
    is no Java type at all is looked up without an error. *)
Lemma type_lookup_not_cached :
  let first := lookupType "int" None [] in
  let second := lookupType "int" None (snd first) in
  fst first = Ok 0%nat /\ fst second = Ok 1%nat /\ fst second <> fst first /\
  exists t, getTypeFromJniTypename "?" None = Ok t.
Proof.
  repeat split; try discriminate. eexists. reflexivity.
Qed.

(** ** The overload dispatcher *)

Lemma fold_addCandidate_lookup (methods : list Method) :
  forall (acc : gmap nat (list Method)) (n : nat),
    fold_left addCandidate methods acc !! n =
    match acc !! n with
    | Some group => Some (group ++ bucket n methods)
    | None =>
        match bucket n methods with
        | [] => None
        | group => Some group
        end
    end.
Proof.
  induction methods as [|m methods IH]; intros acc n; simpl.
  - destruct (acc !! n); [rewrite app_nil_r|]; reflexivity.
  - rewrite IH. unfold addCandidate.
    destruct (Nat.eqb (length (argumentTypes m)) n) eqn:E.
    + apply Nat.eqb_eq in E. subst n.
      destruct (acc !! length (argumentTypes m)) as [group|] eqn:Hacc.
      * rewrite lookup_insert_eq, <- app_assoc. reflexivity.
      * rewrite lookup_insert_eq. reflexivity.
    + apply Nat.eqb_neq in E.
      destruct (acc !! length (argumentTypes m)) as [group|] eqn:Hacc;
        rewrite lookup_insert_ne by exact E; reflexivity.
Qed.

Lemma candidates_lookup name methods n :
  candidates (makeMethodDispatcher name methods) !! n =
  match bucket n methods with
  | [] => None
  | group => Some group
  end.
Proof.
  unfold makeMethodDispatcher. simpl.
  rewrite fold_addCandidate_lookup, lookup_empty. reflexivity.
Qed.

Lemma selectOverload_find name klasses this args group :
  selectOverload name klasses this args group =
  match List.find (fun m => canInvokeWith m args) group with
  | Some m => invokeSelected name klasses this m
  | None => Error (name +:+ ": argument types do not match any overload")
  end.
Proof.
  induction group as [|m group IH]; simpl; [reflexivity|].
  destruct (canInvokeWith m args); [reflexivity | exact IH].
Qed.

(** Within the bucket of the right arity, [canInvokeWith] is the
    positional test of the argument types. *)
Lemma canInvokeWith_in_bucket m args :
  length (argumentTypes m) = length args ->
  canInvokeWith m args = every_isCompatible 0 (argumentTypes m) args.
Proof.
  intros H. destruct m as [k n t i r argTypes | k r]; simpl in *.
  - rewrite <- H, Nat.eqb_refl. reflexivity.
  - rewrite <- H. reflexivity.
Qed.

Lemma find_in_bucket args methods :
  List.find (fun m => canInvokeWith m args) (bucket (length args) methods)
  = firstCompatible args (bucket (length args) methods).
Proof.
  unfold firstCompatible, bucket.
  induction methods as [|m methods IH]; simpl; [reflexivity|].
  destruct (Nat.eqb (length (argumentTypes m)) (length args)) eqn:E; [|exact IH].
  simpl. apply Nat.eqb_eq in E.
  rewrite (canInvokeWith_in_bucket m args E), IH. reflexivity.
Qed.

(** The outcome of a call of the dispatcher, case by case. *)
Lemma f_cases name methods klasses this args :
  f (makeMethodDispatcher name methods) klasses this args =
  match bucket (length args) methods with
  | [] => Error (name +:+ ": argument count does not match any overload")
  | group =>
      match firstCompatible args group with
      | Some m => invokeSelected name klasses this m
      | None => Error (name +:+ ": argument types do not match any overload")
      end
  end.
Proof.
  unfold f. rewrite candidates_lookup. simpl d_name.
  pose proof (find_in_bucket args methods) as Hf.
  destruct (bucket (length args) methods) as [|m group]; [reflexivity|].
  rewrite selectOverload_find, Hf. reflexivity.
Qed.

Lemma bucket_arity n methods m :
  In m (bucket n methods) -> In m methods /\ length (argumentTypes m) = n.
Proof.
  unfold bucket. rewrite filter_In, Nat.eqb_eq. tauto.
Qed.

Lemma every_isCompatible_Forall2 (argTypes : list TypeAdapter) :
  forall (i : nat) (args : list value),
    (i + length argTypes = length args)%nat ->
    (every_isCompatible i argTypes args = true <->
     Forall2 (fun t v => isCompatible (body t) v = true) argTypes (drop i args)).
Proof.
  induction argTypes as [|t rest IH]; intros i args Hlen; simpl in *.
  - rewrite drop_ge by lia. split; [constructor | reflexivity].
  - destruct (lookup_lt_is_Some_2 args i ltac:(lia)) as [v Hv].
    rewrite (drop_S _ _ _ Hv), (nth_lookup_Some _ _ _ _ Hv), andb_true_iff.
    rewrite (IH (S i) args) by lia.
    split.
    + intros [H1 H2]. constructor; assumption.
    + intros H. inversion H; subst. auto.
Qed.

Lemma firstCompatible_Some args group m :
  firstCompatible args group = Some m ->
  In m group /\ every_isCompatible 0 (argumentTypes m) args = true.
Proof. unfold firstCompatible. apply find_some. Qed.

(** Within a group of overloads that take as many arguments as were
    passed, the first one found by the loop of the dispatcher is the
    first one that accepts the arguments. *)
Lemma firstCompatible_first args group :
  Forall (fun m => length (argumentTypes m) = length args) group ->
  match firstCompatible args group with
  | Some m =>
      exists before after,
        group = before ++ m :: after /\ accepts m args /\
        Forall (fun m' => ~ accepts m' args) before
  | None => Forall (fun m' => ~ accepts m' args) group
  end.
Proof.
  unfold firstCompatible, accepts.
  induction group as [|m0 group IH]; intros Hlen; simpl; [constructor|].
  inversion Hlen as [|? ? Hm0 Hrest]; subst.
  pose proof (every_isCompatible_Forall2 (argumentTypes m0) 0 args ltac:(simpl; lia)) as Hiff.
  rewrite drop_0 in Hiff.
  destruct (every_isCompatible 0 (argumentTypes m0) args) eqn:E.
  - exists [], group. split; [reflexivity|]. split; [apply Hiff; reflexivity | constructor].
  - assert (Hno : ~ Forall2 (fun t v => isCompatible (body t) v = true)
                      (argumentTypes m0) args)
      by (intros H; apply Hiff in H; discriminate H).
    specialize (IH Hrest).
    destruct (find _ group) as [m|].
    + destruct IH as (before & after & -> & Hacc & Hbefore).
      exists (m0 :: before), after. split; [reflexivity|]. split; [exact Hacc|].
      constructor; assumption.
    + constructor; assumption.
Qed.

Lemma bucket_lengths n methods :
  Forall (fun m => length (argumentTypes m) = n) (bucket n methods).
Proof.
  apply List.Forall_forall. intros m Hin. apply bucket_arity in Hin. tauto.
Qed.

(** The first element of a list with a property is unique. *)
Lemma first_unique {A} (P : A -> Prop) (b1 b2 a1 a2 : list A) (x y : A) :
  b1 ++ x :: a1 = b2 ++ y :: a2 ->
  P x -> P y -> Forall (fun z => ~ P z) b1 -> Forall (fun z => ~ P z) b2 ->
  x = y.
Proof.
  revert b2. induction b1 as [|z b1 IH]; intros [|w b2] Heq Px Py H1 H2; simpl in Heq.
  - congruence.
  - injection Heq as -> _. inversion H2; subst. contradiction.
  - injection Heq as -> _. inversion H1; subst. contradiction.
  - injection Heq as -> Heq. inversion H1; inversion H2; subst. eauto.
Qed.

(** C6: a call with [args] fails with the arity error when no overload
    takes [length args] arguments; it fails with the signature error
    when overloads of that arity exist and none accepts the arguments
    position by position; an overload that is invoked is the first of
    that arity, in declaration order, whose argument types accept the
    arguments position by position, and on an instance, or when that
    first overload is not an instance method, it is invoked. *)
Theorem dispatch_selects_first_compatible (name : string) (methods : list Method)
    (klasses : gmap positive Klass) (this : Wrapper) (args : list value) :
  let d := makeMethodDispatcher name methods in
  let group := bucket (length args) methods in
  (group = [] ->
     f d klasses this args
     = Error (name +:+ ": argument count does not match any overload")) /\
  (group <> [] -> Forall (fun m => ~ accepts m args) group ->
     f d klasses this args
     = Error (name +:+ ": argument types do not match any overload")) /\
  (forall m, f d klasses this args = Apply m ->
     exists before after,
       group = before ++ m :: after /\ accepts m args /\
       Forall (fun m' => ~ accepts m' args) before) /\
  (forall before m after,
     group = before ++ m :: after -> accepts m args ->
     Forall (fun m' => ~ accepts m' args) before ->
     isInstance this = true \/ kind m <> INSTANCE_METHOD ->
     f d klasses this args = Apply m).
Proof.
  intros d group. subst d group. rewrite f_cases.
  pose proof (firstCompatible_first args (bucket (length args) methods)
                (bucket_lengths (length args) methods)) as Hfirst.
  destruct (bucket (length args) methods) as [|m0 group] eqn:Hb.
  - split; [reflexivity|]. split; [congruence|]. split; [discriminate|].
    intros [|b0 before] m after Heq; discriminate Heq.
  - split; [discriminate|]. split; [|split].
    + intros _ Hnone.
      destruct (firstCompatible args (m0 :: group)) as [m1|]; [|reflexivity].
      destruct Hfirst as (before & after & Heq & Hacc & _).
      rewrite Heq in Hnone. apply Forall_app in Hnone. destruct Hnone as [_ Hn].
      inversion Hn; subst. contradiction.
    + intros m. destruct (firstCompatible args (m0 :: group)) as [m1|]; [|discriminate].
      unfold invokeSelected.
      destruct (MethodType_eqb (kind m1) INSTANCE_METHOD && negb (isInstance this)).
      * unfold classLiteral.
        destruct (String.eqb name "toString"); [|discriminate].
        destruct (klasses !! w_classWrapper this); discriminate.
      * intros H. injection H as <-. exact Hfirst.
    + intros before m after Heq Hacc Hbefore Hguard.
      destruct (firstCompatible args (m0 :: group)) as [m1|].
      * destruct Hfirst as (before1 & after1 & Heq1 & Hacc1 & Hbefore1).
        assert (m1 = m).
        { apply (first_unique (fun m => accepts m args) before1 before after1 after);
            [congruence | assumption..]. }
        subst m1. unfold invokeSelected.
        destruct Hguard as [-> | Hk].
        -- rewrite andb_false_r. reflexivity.
        -- destruct (kind m); [reflexivity | reflexivity | congruence].
      * rewrite Heq in Hfirst. apply Forall_app in Hfirst. destruct Hfirst as [_ Hn].
        inversion Hn; subst. contradiction.
Qed.

Lemma dispatch_selects_first_compatible_witness :
  let d := makeMethodDispatcher "m" [m_int; m_String] in
  f d exampleKlasses anInstance [VNumber (of_int 42)] = Apply m_int /\
  f d exampleKlasses anInstance [VString (units "x")] = Apply m_String /\
  f d exampleKlasses anInstance []
    = Error "m: argument count does not match any overload" /\
  f d exampleKlasses anInstance [VBoolean true]
    = Error "m: argument types do not match any overload".
Proof.
  intros d. subst d.
  assert (Hint : forall v, accepts m_int [v] -> isCompatible (body (typeNamed "int")) v = true)
    by (intros v H; inversion H; subst; assumption).
  assert (Hstr : forall v, accepts m_String [v] ->
            isCompatible (body (typeNamed "java.lang.String")) v = true)
    by (intros v H; inversion H; subst; assumption).
  split; [|split; [|split]].
  - apply (proj2 (proj2 (proj2 (dispatch_selects_first_compatible "m" [m_int; m_String]
                                  exampleKlasses anInstance [VNumber (of_int 42)])))
             [] m_int [m_String]).
    + reflexivity.
    + repeat constructor.
    + constructor.
    + left. reflexivity.
  - apply (proj2 (proj2 (proj2 (dispatch_selects_first_compatible "m" [m_int; m_String]
                                  exampleKlasses anInstance [VString (units "x")])))
             [m_int] m_String []).
    + reflexivity.
    + repeat constructor.
    + constructor; [|constructor]. intros H. apply Hint in H. discriminate H.
    + left. reflexivity.
  - apply (dispatch_selects_first_compatible "m" [m_int; m_String] exampleKlasses
             anInstance []); reflexivity.
  - apply (dispatch_selects_first_compatible "m" [m_int; m_String] exampleKlasses
             anInstance [VBoolean true]); [discriminate|].
    constructor; [|constructor; [|constructor]]; intros H;
      [apply Hint in H | apply Hstr in H]; discriminate H.
Defined.

(** C7, as amended: when the overload selected for the arguments is an
    instance method and the receiver is a view of the class (its
    [$handle] is null), the call raises an error, unless the dispatcher
    is the one named [toString]: then, whatever the number of arguments,
    it returns the string ["<" + name + ">"] with the full name of the
    receiver's class. *)
Theorem instance_method_on_class_view (name : string) (methods : list Method)
    (klasses : gmap positive Klass) (this : Wrapper) (args : list value)
    (m : Method) (klass : Klass) :
  w_handle this = None ->
  klasses !! w_classWrapper this = Some klass ->
  firstCompatible args (bucket (length args) methods) = Some m ->
  kind m = INSTANCE_METHOD ->
  f (makeMethodDispatcher name methods) klasses this args =
  if String.eqb name "toString" then Literal (units ("<" +:+ k_name klass +:+ ">"))
  else Error (name +:+ ": cannot call instance method without an instance").
Proof.
  intros Hview Hklass Hfirst Hkind. rewrite f_cases.
  destruct (bucket (length args) methods) as [|m0 group] eqn:Hb; [discriminate|].
  rewrite Hfirst. unfold invokeSelected, isInstance, classLiteral.
  rewrite Hkind, Hview, Hklass. reflexivity.
Qed.

Lemma instance_method_on_class_view_witness :
  f (makeMethodDispatcher "m" [m_int; m_String]) exampleKlasses classView
    [VNumber (of_int 42)]
  = Error "m: cannot call instance method without an instance".
Proof.
  apply (instance_method_on_class_view "m" [m_int; m_String] exampleKlasses
           classView [VNumber (of_int 42)] m_int
           {| k_className := "K"; k_name := "com.example.K"; k_handle := 16;
              k_methods := []; k_fields := []; k_super := None |});
    reflexivity.
Defined.

(** C7, the claim as stated fails: [toString(int)] called with one
    argument on a view of the class does not raise an error, it returns
    the literal. *)
Lemma toString_with_argument_on_class_view :
  w_handle classView = None /\
  kind toString_int = INSTANCE_METHOD /\
  f (makeMethodDispatcher "toString" [toString_int]) exampleKlasses classView
    [VNumber (of_int 5)]
  = Literal (units "<com.example.K>").
Proof. split; [|split]; reflexivity. Qed.

(** ** The member resolver *)

Lemma resolveArgTypes_ok isVarArgs argTypes :
  isOk (resolveArgTypes isVarArgs argTypes) = parametersResolve isVarArgs argTypes.
Proof.
  induction argTypes as [|t rest IH]; simpl; [reflexivity|].
  destruct (if isVarArgs && Nat.eqb (length rest) 0 then getArrayTypeName t
            else getTypeName t) as [argClassName|]; simpl; [|reflexivity].
  destruct (getTypeFromJniTypename_total argClassName None) as [argType ->]. simpl.
  rewrite <- IH. destruct (resolveArgTypes isVarArgs rest); reflexivity.
Qed.




(** The test of the modifiers, [(modifiers & Modifier.STATIC) !== 0],
    reads the static bit. *)
Lemma static_bit (modifiers : Z) :
  negb (Z.land modifiers Modifier_STATIC =? 0) = Z.testbit modifiers 3.
Proof.
  unfold Modifier_STATIC. change 8 with (2 ^ 3).
  destruct (Z.testbit modifiers 3) eqn:E.
  - destruct (Z.land modifiers (2 ^ 3) =? 0) eqn:E0; [|reflexivity].
    apply Z.eqb_eq in E0.
    assert (H : Z.testbit (Z.land modifiers (2 ^ 3)) 3 = true)
      by (rewrite Z.land_spec, E, Z.pow2_bits_true by lia; reflexivity).
    rewrite E0 in H. rewrite Z.bits_0 in H. discriminate H.
  - assert (H : Z.land modifiers (2 ^ 3) = 0).
    { apply Z.bits_inj'. intros n Hn. rewrite Z.land_spec, Z.bits_0.
      rewrite Z.pow2_bits_eqb by lia.
      destruct (Z.eqb_spec 3 n) as [<-|]; [rewrite E|rewrite andb_false_r]; reflexivity. }
    rewrite H. reflexivity.
Qed.

Lemma resolveArgTypes_describes isVarArgs argTypes jsArgTypes :
  resolveArgTypes isVarArgs argTypes = Ok jsArgTypes ->
  Forall2 describes (parameterNames isVarArgs argTypes) jsArgTypes.
Proof.
  revert jsArgTypes.
  induction argTypes as [|t rest IH]; intros jsArgTypes H; simpl in H.
  - injection H as <-. constructor.
  - set (name := if isVarArgs && Nat.eqb (length rest) 0 then getArrayTypeName t
                 else getTypeName t) in *.
    destruct name as [argClassName|] eqn:En; simpl in H; [|discriminate H].
    destruct (getTypeFromJniTypename argClassName None) as [argType|] eqn:Et;
      simpl in H; [|discriminate H].
    destruct (resolveArgTypes isVarArgs rest) as [js|] eqn:Er; simpl in H;
      [|discriminate H].
    injection H as <-. specialize (IH js eq_refl).
    assert (Hd : forall n, n = Ok argClassName -> describes n argType)
      by (intros n ->; exists argClassName; split; [reflexivity | exact Et]).
    subst name. destruct rest as [|t' rest'].
    + simpl in *. constructor; [|exact IH].
      apply Hd. rewrite andb_true_r in En. exact En.
    + cbn [length Nat.eqb] in En. rewrite andb_false_r in En.
      change (parameterNames isVarArgs (t :: t' :: rest'))
        with (getTypeName t :: parameterNames isVarArgs (t' :: rest')).
      constructor; [apply Hd; exact En | exact IH].
Qed.

(** What becomes of one overload: it is dropped when one of its types
    does not resolve; otherwise its bridge function is generated, which
    fails for a reserved name. *)
Lemma resolveOverload_cases klass name handle :
  if typesResolve handle then
    exists m,
      bridges klass name handle m /\
      resolveOverload klass name handle
      = if bool_decide (sanitize false name ∈ reservedWords) then Throw "SyntaxError"
        else Ok (Some m)
  else resolveOverload klass name handle = Ok None.
Proof.
  unfold resolveOverload, typesResolve, bridges, callMakeMethod, evalFunction.
  rewrite static_bit. fold (declaredStatic handle).
  destruct (getGenericReturnType handle) as [retType|]; simpl; [|reflexivity].
  destruct (getTypeName retType) as [retTypeName|] eqn:En; simpl; [|reflexivity].
  destruct (getTypeFromJniTypename_total retTypeName None) as [jsRetType Hr].
  rewrite Hr. simpl.
  destruct (getGenericParameterTypes handle) as [argTypes|]; simpl; [|reflexivity].
  rewrite <- resolveArgTypes_ok.
  destruct (resolveArgTypes (isVarArgs handle) argTypes) as [jsArgTypes|] eqn:Ea; simpl;
    [|reflexivity].
  eexists. split.
  - exists retType, argTypes, jsRetType, jsArgTypes.
    split; [reflexivity|]. split; [exists retTypeName; split; [exact En | exact Hr]|].
    split; [reflexivity|]. split; [apply resolveArgTypes_describes; exact Ea | reflexivity].
  - destruct (bool_decide (sanitize false name ∈ reservedWords)); reflexivity.
Qed.

Lemma filter_nil_Forall {A} (p : A -> bool) (l : list A) :
  List.filter p l = [] <-> Forall (fun a => p a = false) l.
Proof.
  induction l as [|a l IH]; simpl; [split; [constructor | reflexivity]|].
  destruct (p a) eqn:E.
  - split; [discriminate|]. intros H. inversion H; subst. congruence.
  - rewrite IH. split; [intros H; constructor; assumption | intros H; now inversion H].
Qed.

(** The loop over the overloads of a name that is not reserved: the
    overloads whose types resolve give their bridge functions, in
    order. *)
Lemma mapResult_resolve klass name handles :
  sanitize false name ∉ reservedWords ->
  exists mapped,
    mapResult (resolveOverload klass name) handles = Ok mapped /\
    Forall2 (bridges klass name) (List.filter typesResolve handles) (omap id mapped).
Proof.
  intros Hname. induction handles as [|h rest IH]; simpl.
  - exists []. split; [reflexivity | constructor].
  - destruct IH as (mapped & Hm & HF). rewrite Hm.
    pose proof (resolveOverload_cases klass name h) as Hc.
    rewrite (bool_decide_eq_false_2 _ Hname) in Hc.
    destruct (typesResolve h).
    + destruct Hc as (m & Hb & ->). exists (Some m :: mapped).
      split; [reflexivity|]. simpl. constructor; assumption.
    + rewrite Hc. exists (None :: mapped). split; [reflexivity | exact HF].
Qed.

(** The loop over the overloads of a reserved name: it ends with a
    SyntaxError at the first overload whose types resolve. *)
Lemma mapResult_reserved klass name handles :
  sanitize false name ∈ reservedWords ->
  match List.filter typesResolve handles with
  | [] => exists mapped,
            mapResult (resolveOverload klass name) handles = Ok mapped /\
            omap id mapped = []
  | _ => mapResult (resolveOverload klass name) handles = Throw "SyntaxError"
  end.
Proof.
  intros Hname. induction handles as [|h rest IH]; simpl.
  - exists []. split; reflexivity.
  - pose proof (resolveOverload_cases klass name h) as Hc.
    rewrite (bool_decide_eq_true_2 _ Hname) in Hc.
    destruct (typesResolve h).
    + destruct Hc as (m & _ & ->). reflexivity.
    + rewrite Hc. simpl.
      destruct (List.filter typesResolve rest).
      * destruct IH as (mapped & -> & Hnil). exists (None :: mapped).
        split; [reflexivity | exact Hnil].
      * rewrite IH. reflexivity.
Qed.

Lemma length_zero_nil {A} (l : list A) : Nat.eqb (length l) 0 = true <-> l = [].
Proof. destruct l; simpl; split; congruence. Qed.

Lemma int_lookup :
  getTypeFromJniTypename "int" None = Ok (typeNamed "int").
Proof. reflexivity. Qed.

(** Among bridge functions, the test of [makeMethodFromOverloads] for
    an existing [valueOf()] finds the overloads declared as instance
    methods without parameters. *)
Lemma implementsDefaultValueOf_declared klass name supported methods :
  Forall2 (bridges klass name) supported methods ->
  existsb implementsDefaultValueOf methods = true <-> Exists instanceNoArgs supported.
Proof.
  induction 1 as [|h m supported methods Hb HF IH]; simpl.
  - split; [discriminate | intros H; inversion H].
  - rewrite orb_true_iff, IH, Exists_cons.
    assert (Hm : implementsDefaultValueOf m = true <-> instanceNoArgs h); [|tauto].
    destruct Hb as (retType & argTypes & jsRetType & jsArgTypes & _ & _ & Ha & Hd & ->).
    unfold implementsDefaultValueOf, instanceNoArgs. cbn [kind argumentTypes].
    rewrite Ha. apply Forall2_length in Hd.
    destruct (declaredStatic h); simpl.
    + split; [discriminate | intros [H _]; discriminate H].
    + destruct argTypes as [|t rest].
      * simpl in Hd. destruct jsArgTypes; [|discriminate Hd]. simpl. tauto.
      * assert (length (parameterNames (isVarArgs h) (t :: rest)) <> 0%nat)
          by (destruct rest; simpl; discriminate).
        destruct jsArgTypes; [exfalso; apply H; exact Hd|]. simpl.
        split; [discriminate | intros [_ H']; discriminate H'].
Qed.

(** The dispatcher that [makeMethodFromOverloads] makes. *)
Lemma makeMethodFromOverloads_cases klass name handles :
  match List.filter typesResolve handles with
  | [] => makeMethodFromOverloads klass name handles = Throw "No supported overloads"
  | supported =>
      if bool_decide (sanitize false name ∈ reservedWords) then
        makeMethodFromOverloads klass name handles = Throw "SyntaxError"
      else
        exists methods,
          Forall2 (bridges klass name) supported methods /\
          makeMethodFromOverloads klass name handles
          = Ok (makeMethodDispatcher name
                  (methods ++
                   if String.eqb name "valueOf"
                      && negb (existsb implementsDefaultValueOf methods)
                   then [defaultValueOf klass (typeNamed "int")] else []))
  end.
Proof.
  unfold makeMethodFromOverloads.
  destruct (decide (sanitize false name ∈ reservedWords)) as [Hres|Hres].
  - pose proof (mapResult_reserved klass name handles Hres) as Hm.
    rewrite (bool_decide_eq_true_2 _ Hres).
    destruct (List.filter typesResolve handles).
    + destruct Hm as (mapped & -> & Hnil). cbn [bind]. rewrite Hnil. reflexivity.
    + rewrite Hm. reflexivity.
  - destruct (mapResult_resolve klass name handles Hres) as (mapped & -> & HF).
    rewrite (bool_decide_eq_false_2 _ Hres). cbn [bind].
    destruct (List.filter typesResolve handles) as [|h supported].
    + inversion HF. reflexivity.
    + exists (omap id mapped). split; [exact HF|].
      inversion HF as [|? m ? methods Hb HF' E1 E2]. cbn [length Nat.eqb].
      destruct (String.eqb name "valueOf"); cbn [andb];
        [|rewrite app_nil_r; reflexivity].
      destruct (existsb implementsDefaultValueOf (m :: methods)); cbn [negb bind].
      * rewrite app_nil_r. reflexivity.
      * rewrite int_lookup. reflexivity.
Qed.

(** C5, as amended: the overloads that count are the supported ones,
    those whose return and parameter types resolve.  With none, the
    resolver throws.  With some, of which none is declared as an
    instance method without parameters, the dispatcher of [valueOf]
    holds their bridge functions and one more overload: an instance
    method without arguments whose call returns the receiver and whose
    declared return type is the descriptor of [int]; when a supported
    overload is declared as an instance method without parameters, the
    dispatcher holds the bridge functions and nothing else. *)
Theorem valueOf_gains_default (klass : positive) (handles : list JMethod) :
  let supported := List.filter typesResolve handles in
  let synthetic := defaultValueOf klass (typeNamed "int") in
  (supported = [] ->
     makeMethodFromOverloads klass "valueOf" handles = Throw "No supported overloads") /\
  (supported <> [] ->
     exists methods,
       Forall2 (bridges klass "valueOf") supported methods /\
       (~ Exists instanceNoArgs supported ->
          makeMethodFromOverloads klass "valueOf" handles
          = Ok (makeMethodDispatcher "valueOf" (methods ++ [synthetic]))) /\
       (Exists instanceNoArgs supported ->
          makeMethodFromOverloads klass "valueOf" handles
          = Ok (makeMethodDispatcher "valueOf" methods))) /\
  kind synthetic = INSTANCE_METHOD /\
  argumentTypes synthetic = [] /\
  (forall this args, apply synthetic this args = Return (VWrapper this)) /\
  getTypeFromJniTypename "int" None = Ok (returnType synthetic) /\
  className (returnType synthetic) = "int"%string /\
  type (body (returnType synthetic)) = int32.
Proof.
  intros supported synthetic.
  pose proof (makeMethodFromOverloads_cases klass "valueOf" handles) as Hc.
  fold supported in Hc.
  assert (Hname : bool_decide (sanitize false "valueOf" ∈ reservedWords) = false)
    by (vm_compute; reflexivity).
  split; [|split; [|repeat split]].
  - intros Hnil. rewrite Hnil in Hc. exact Hc.
  - intros Hne. destruct supported as [|h rest] eqn:Hs; [congruence|].
    rewrite Hname in Hc. destruct Hc as (methods & HF & Hc).
    exists methods. split; [exact HF|].
    pose proof (implementsDefaultValueOf_declared klass "valueOf" _ _ HF) as Hiff.
    split.
    + intros Hno. rewrite Hc.
      destruct (existsb implementsDefaultValueOf methods); [|reflexivity].
      exfalso. apply Hno, Hiff. reflexivity.
    + intros Hyes. apply Hiff in Hyes. rewrite Hc, Hyes. simpl.
      rewrite app_nil_r. reflexivity.
Qed.

Lemma valueOf_gains_default_witness :
  (exists methods,
     Forall2 (bridges 1 "valueOf") [valueOf_int] methods /\
     makeMethodFromOverloads 1 "valueOf" [valueOf_int]
     = Ok (makeMethodDispatcher "valueOf"
             (methods ++ [defaultValueOf 1 (typeNamed "int")]))) /\
  (exists methods,
     Forall2 (bridges 1 "valueOf") [valueOf_noArgs; valueOf_int] methods /\
     makeMethodFromOverloads 1 "valueOf" [valueOf_noArgs; valueOf_int]
     = Ok (makeMethodDispatcher "valueOf" methods)).
Proof.
  split.
  - destruct (proj1 (proj2 (valueOf_gains_default 1 [valueOf_int])))
      as (methods & HF & Hgain & _); [discriminate|].
    exists methods. split; [exact HF|]. apply Hgain.
    intros H. inversion H as [? ? [Hs _]|? ? H']; [discriminate Hs | inversion H'].
  - destruct (proj1 (proj2 (valueOf_gains_default 1 [valueOf_noArgs; valueOf_int])))
      as (methods & HF & _ & Hkeep); [discriminate|].
    exists methods. split; [exact HF|]. apply Hkeep.
    left. split; reflexivity.
Defined.

(** C5, the claim as stated fails: a [valueOf] declared as an instance
    method without parameters exists, but its return type does not
    resolve; the overload is dropped, and the dispatcher gets the
    synthetic overload all the same.  And when no overload of [valueOf]
    is supported, none is added: the resolver throws. *)
Lemma declared_valueOf_does_not_count :
  instanceNoArgs broken /\
  (exists methods,
     makeMethodFromOverloads 1 "valueOf" [broken; valueOf_int]
     = Ok (makeMethodDispatcher "valueOf"
             (methods ++ [defaultValueOf 1 (typeNamed "int")]))) /\
  makeMethodFromOverloads 1 "valueOf" [broken] = Throw "No supported overloads".
Proof.
  split; [split; reflexivity|]. split; [|reflexivity].
  eexists [_]. reflexivity.
Qed.





(** ** The class cache *)

Lemma newRef_fresh o st :
  refs st !! (fst (newRef o st)) = None /\ fst (newRef o st) <> NULL.
Proof.
  unfold newRef. simpl.
  pose proof (is_fresh ({[NULL]} ∪ dom (refs st))) as Hf.
  split.
  - apply not_elem_of_dom. set_solver.
  - set_solver.
Qed.

Lemma newRef_refs o st :
  refs (snd (newRef o st)) = <[fst (newRef o st) := o]> (refs st).
Proof. reflexivity. Qed.

Lemma newRef_keeps o st :
  classes (snd (newRef o st)) = classes st /\
  klasses (snd (newRef o st)) = klasses st /\
  allocated (snd (newRef o st)) = allocated st.
Proof. repeat split. Qed.

Lemma newGlobalRef_keeps h st :
  classes (snd (newGlobalRef h st)) = classes st /\
  klasses (snd (newGlobalRef h st)) = klasses st /\
  allocated (snd (newGlobalRef h st)) = allocated st.
Proof. unfold newGlobalRef. destruct (refs st !! h); repeat split. Qed.

(** A reference that is live stays live, with its object, when another
    one is made. *)
Lemma newGlobalRef_preserves h st a o :
  refs st !! a = Some o -> refs (snd (newGlobalRef h st)) !! a = Some o.
Proof.
  intros Ha. unfold newGlobalRef. destruct (refs st !! h) as [o'|]; [|exact Ha].
  rewrite newRef_refs. rewrite lookup_insert_ne; [exact Ha|].
  intros <-. destruct (newRef_fresh o' st) as [Hf _]. congruence.
Qed.

Lemma globalRefs_keeps objects :
  forall st,
    classes (snd (globalRefs objects st)) = classes st /\
    klasses (snd (globalRefs objects st)) = klasses st /\
    allocated (snd (globalRefs objects st)) = allocated st.
Proof.
  induction objects as [|o rest IH]; intros st; [repeat split|].
  specialize (IH (snd (newRef o st))).
  cbn [globalRefs]. unfold newRef in *. cbn [snd] in IH.
  destruct (globalRefs rest _) as [hs st2]. exact IH.
Qed.

Lemma initializeClass_keeps c classHandle name klass superKlass st :
  classes (initializeClass c classHandle name klass superKlass st) = classes st.
Proof.
  unfold initializeClass.
  destruct (newGlobalRef classHandle st) as [handle st1] eqn:E1.
  destruct (globalRefs _ st1) as [methodHandles st2] eqn:E2.
  destruct (globalRefs _ st2) as [fieldHandles st3] eqn:E3.
  cbn [classes set_klasses].
  pose proof (globalRefs_keeps (map FieldObject (declaredFields (info c))) st2) as (H3 & _).
  rewrite E3 in H3.
  pose proof (globalRefs_keeps
                (map (fun nm => MethodObject (snd nm)) (declaredMethods (info c))) st1)
    as (H2 & _).
  rewrite E2 in H2.
  pose proof (newGlobalRef_keeps classHandle st) as (H1 & _).
  rewrite E1 in H1. cbn [snd] in *. congruence.
Qed.

Lemma ensureClass_of_eq c classHandle cachedName st :
  ensureClass_of c classHandle cachedName st =
  let name := match cachedName with Some n => n | None => jc_name (info c) end in
  match getClass name st with
  | Some klass => (Ok klass, st)
  | None =>
      let '(superKlass, st) :=
        match c with
        | Root _ => (Ok None, st)
        | Extends _ s =>
            let '(superHandle, st) := newRef (ClassObject s) st in
            let '(k, st) := ensureClass_of s superHandle None st in
            (match k with Ok k => Ok (Some k) | Throw msg => Throw msg end,
             deleteLocalRef superHandle st)
        end in
      match superKlass with
      | Throw msg => (Throw msg, st)
      | Ok superKlass =>
          match evalFunction (sanitize true (basename name)) with
          | Throw msg => (Throw msg, st)
          | Ok _ =>
              let '(klass, st) := newObject st in
              let st := set_classes (<[name := klass]> (classes st)) st in
              (Ok (Wrapped klass),
               initializeClass c classHandle name klass superKlass st)
          end
      end
  end.
Proof. destruct c; reflexivity. Qed.

(** [classes[name]] finds a wrapper exactly when [classes] holds it
    under the name. *)
Lemma getClass_Wrapped name st k :
  getClass name st = Some (Wrapped k) <-> classes st !! name = Some k.
Proof.
  unfold getClass. destruct (classes st !! name) as [k'|].
  - split; congruence.
  - destruct (bool_decide (name ∈ ObjectPrototype)); split; discriminate.
Qed.

Lemma getClass_None name st :
  getClass name st = None -> classes st !! name = None.
Proof. unfold getClass. destruct (classes st !! name); [discriminate | reflexivity]. Qed.

Lemma getClass_ext name st1 st2 :
  classes st1 = classes st2 -> getClass name st1 = getClass name st2.
Proof. unfold getClass. intros ->. reflexivity. Qed.

(** [ensureClass] returns what [classes] gives under the name
    afterwards. *)
Lemma ensureClass_of_cached c classHandle cachedName st klass st' :
  ensureClass_of c classHandle cachedName st = (Ok klass, st') ->
  getClass (match cachedName with Some n => n | None => jc_name (info c) end) st'
  = Some klass.
Proof.
  set (name := match cachedName with Some n => n | None => jc_name (info c) end).
  intros H. rewrite ensureClass_of_eq in H. cbv zeta in H. fold name in H.
  destruct (getClass name st) as [k|] eqn:Hk.
  - injection H as <- <-. exact Hk.
  - match type of H with
    | (let '(superKlass, st) := ?e in _) = _ => destruct e as [[superKlass|msg] st0]
    end; [|discriminate H].
    destruct (evalFunction (sanitize true (basename name))); [|discriminate H].
    unfold newObject in H. injection H as <- <-.
    apply getClass_Wrapped. rewrite initializeClass_keeps. cbn [classes set_classes].
    apply lookup_insert_eq.
Qed.

Lemma ensureClass_cached classHandle name st klass st' :
  ensureClass classHandle (Some name) st = (Ok klass, st') ->
  getClass name st' = Some klass.
Proof.
  unfold ensureClass. intros H.
  destruct (refs st !! classHandle) as [[c| | |]|]; try discriminate H.
  exact (ensureClass_of_cached c classHandle (Some name) st klass st' H).
Qed.

(** What a successful [new C(C.__handle__, handle)] leaves behind. *)
Lemma instantiate_post C handle st a st1 :
  instantiate C handle st = (Ok a, st1) ->
  is_Some (klasses st !! C) /\
  w_classWrapper a = C /\ oid a = allocated st /\
  allocated st1 = Pos.succ (allocated st) /\
  classes st1 = classes st /\ klasses st1 = klasses st.
Proof.
  unfold instantiate. intros H.
  destruct (klasses st !! C) as [k|]; [|discriminate H].
  unfold construct in H.
  destruct (newGlobalRef (k_handle k) st) as [ch st'] eqn:E1.
  pose proof (newGlobalRef_keeps (k_handle k) st) as (Hc1 & Hk1 & Ha1).
  rewrite E1 in Hc1, Hk1, Ha1. simpl in Hc1, Hk1, Ha1.
  destruct handle as [h|].
  - destruct (newGlobalRef h st') as [g st''] eqn:E2.
    pose proof (newGlobalRef_keeps h st') as (Hc2 & Hk2 & Ha2).
    rewrite E2 in Hc2, Hk2, Ha2. simpl in Hc2, Hk2, Ha2.
    simpl in H. injection H as <- <-. simpl.
    repeat split; try congruence. eauto.
  - simpl in H. injection H as <- <-. simpl.
    repeat split; try congruence. eauto.
Qed.

Lemma instantiate_ok C handle st k :
  klasses st !! C = Some k ->
  exists a st1, instantiate C handle st = (Ok a, st1).
Proof.
  intros Hk. unfold instantiate. rewrite Hk.
  destruct (construct C (k_handle k) handle st) as [w st1]. eauto.
Qed.

Lemma deleteLocalRef_keeps h st :
  classes (deleteLocalRef h st) = classes st /\
  klasses (deleteLocalRef h st) = klasses st.
Proof. split; reflexivity. Qed.

(** [new C(C.__handle__, null)] returns an object built by a class
    wrapper only for a [C] that is a class wrapper. *)
Lemma newC_ClassView C st a st1 :
  newC C st = (Ok (ClassView a), st1) ->
  exists k, C = Wrapped k /\ instantiate k None st = (Ok a, st1).
Proof.
  unfold newC. destruct C as [k|key].
  - destruct (instantiate k None st) as [[w|msg] st0] eqn:E; [|discriminate].
    intros H. injection H as <- <-. exists k. split; [reflexivity | exact E].
  - destruct (String.eqb key "constructor"); [|discriminate].
    unfold newObject. discriminate.
Qed.

(** The value that [use] passes to [new]: what [classes] gives under
    the name at that point. *)
Lemma use_found loader X st r st1 :
  use loader X st = (r, st1) ->
  (exists C st0, getClass X st0 = Some C /\ newC C st0 = (r, st1))
  \/ (exists msg, r = Throw msg).
Proof.
  unfold use. intros H.
  destruct (getClass X st) as [C|] eqn:HX.
  - left. exists C, st. split; assumption.
  - match type of H with
    | (let '(C, st) := ?e in _) = _ => destruct e as [[C|msg] st'] eqn:HE
    end; [|right; injection H as <- _; eauto].
    left. exists C, st'. split; [|exact H].
    destruct loader as [loadClass|].
    + destruct (loadClass X st) as [[klassObj|msg] st0]; [|discriminate HE].
      exact (ensureClass_cached _ _ _ _ _ HE).
    + destruct (findClass (slashes X) st) as [[handle|msg] st0]; [|discriminate HE].
      destruct (ensureClass handle (Some X) st0) as [C' st0'] eqn:E.
      injection HE as -> <-.
      apply ensureClass_cached in E.
      rewrite (getClass_ext X (deleteLocalRef handle st0') st0' eq_refl). exact E.
Qed.

(** After a [use(X)] that returned an object built by a class wrapper,
    [classes] holds that wrapper under [X]. *)
Lemma use_post loader X st a st1 :
  use loader X st = (Ok (ClassView a), st1) ->
  classes st1 !! X = Some (w_classWrapper a) /\
  is_Some (klasses st1 !! w_classWrapper a) /\
  allocated st1 = Pos.succ (oid a).
Proof.
  intros H. apply use_found in H.
  destruct H as [(C & st0 & HC & H) | (msg & H)]; [|discriminate H].
  apply newC_ClassView in H. destruct H as (k & -> & H).
  apply getClass_Wrapped in HC.
  apply instantiate_post in H. destruct H as (Hs & -> & -> & Ha & Hc & Hk).
  rewrite Hc, Hk. auto.
Qed.

(** C2, as amended: a call [use(X)] that follows a [use(X)] which
    returned an object built by a class wrapper succeeds as well and
    returns a new object, not the one returned before; the two objects
    have the same class wrapper ([$classWrapper]), the one that
    [classes] holds under [X], and the second call leaves [classes] as
    it is. *)
Theorem use_twice_same_class (loader : option Loader) (X : string)
    (st st1 : Factory) (a : Wrapper) :
  use loader X st = (Ok (ClassView a), st1) ->
  exists b st2,
    use loader X st1 = (Ok (ClassView b), st2) /\
    oid b <> oid a /\
    w_classWrapper b = w_classWrapper a /\
    classes st1 !! X = Some (w_classWrapper a) /\
    classes st2 = classes st1.
Proof.
  intros H. apply use_post in H. destruct H as (HX & [k Hk] & Ha).
  destruct (instantiate_ok (w_classWrapper a) None st1 k Hk) as (b & st2 & Hb).
  exists b, st2. unfold use.
  rewrite (proj2 (getClass_Wrapped X st1 _) HX). unfold newC. rewrite Hb.
  split; [reflexivity|].
  apply instantiate_post in Hb. destruct Hb as (_ & Hw & Ho & _ & Hc & _).
  repeat split; try assumption. rewrite Ho, Ha. lia.
Qed.

Lemma use_twice_same_class_witness :
  exists b st2,
    use None "com.example.K" (snd usedOnce) = (Ok (ClassView b), st2) /\
    oid b <> 3%positive /\
    w_classWrapper b = 2%positive /\
    classes (snd usedOnce) !! "com.example.K"%string = Some 2%positive /\
    classes st2 = classes (snd usedOnce).
Proof.
  apply (use_twice_same_class None "com.example.K" freshFactory (snd usedOnce)
           {| oid := 3; w_classWrapper := 2; w_classHandle := 7; w_handle := None |}).
  vm_compute. reflexivity.
Defined.

(** C2, the claim as stated fails: two calls [use("com.example.K")] in
    a row return two different objects. *)
Lemma use_twice_distinct :
  exists a b,
    fst usedOnce = Ok (ClassView a) /\ fst usedTwice = Ok (ClassView b) /\
    oid a <> oid b /\ a <> b.
Proof.
  exists {| oid := 3; w_classWrapper := 2; w_classHandle := 7; w_handle := None |},
         {| oid := 4; w_classWrapper := 2; w_classHandle := 8; w_handle := None |}.
  repeat split; try (vm_compute; reflexivity); discriminate.
Qed.

(** A name that [classes] inherits from [Object.prototype] is never
    looked up as a class: [use('constructor')] finds the function
    [Object] and returns a new empty object, with no class wrapper and
    nothing stored in [classes]; [use] of another inherited name, such
    as [toString], finds a value that is no constructor and throws a
    TypeError. *)
Lemma use_of_an_inherited_name (loader : option Loader) (X : string) (st : Factory) :
  X ∈ ObjectPrototype ->
  classes st !! X = None ->
  use loader X st =
  if String.eqb X "constructor" then
    (Ok (EmptyObject (allocated st)), set_allocated (Pos.succ (allocated st)) st)
  else (Throw "TypeError: C is not a constructor", st).
Proof.
  intros HX Hmiss. unfold use, getClass. rewrite Hmiss.
  rewrite (bool_decide_eq_true_2 _ HX). unfold newC.
  destruct (String.eqb X "constructor"); reflexivity.
Qed.

(** C3, as amended: for an instance [i] whose handle [h] denotes an
    object that [env.isInstanceOf] finds to be of the class of the
    wrapper [C], [cast(i.$handle, C)] succeeds; the handle of the result
    is not [h] but a new global reference, which denotes the same
    object, and [h] goes on denoting it. *)
Theorem cast_pins_same_object (st : Factory) (i C : Wrapper) (h : ptr)
    (o : JObject) (k : Klass) :
  w_handle i = Some h ->
  refs st !! h = Some o ->
  klasses st !! w_classWrapper C = Some k ->
  isInstanceOf (w_handle i) (w_classHandle C) st = true ->
  exists r st' g,
    cast (inr h) C st = (Ok r, st') /\
    w_classWrapper r = w_classWrapper C /\
    w_handle r = Some g /\
    g <> h /\
    refs st' !! g = Some o /\
    refs st' !! h = Some o /\
    isSameObject g h st'.
Proof.
  intros Hi Hh Hk Hinst. rewrite Hi in Hinst.
  unfold cast. rewrite Hinst. unfold instantiate. rewrite Hk. unfold construct.
  destruct (newGlobalRef (k_handle k) st) as [ch st1] eqn:E1.
  assert (Hh1 : refs st1 !! h = Some o).
  { pose proof (newGlobalRef_preserves (k_handle k) st h o Hh) as Hp.
    rewrite E1 in Hp. exact Hp. }
  unfold newGlobalRef at 1. rewrite Hh1.
  destruct (newRef_fresh o st1) as [Hfresh _].
  pose proof (newRef_refs o st1) as Hrefs.
  destruct (newRef o st1) as [g st2]. cbn [fst snd] in Hfresh, Hrefs.
  assert (Hne : g <> h) by congruence.
  unfold newObject.
  eexists _, _, g. split; [reflexivity|]. cbn [w_classWrapper w_handle].
  unfold isSameObject. cbn [refs set_allocated]. rewrite Hrefs.
  rewrite lookup_insert_eq, lookup_insert_ne by exact Hne.
  repeat split; try assumption. congruence.
Qed.

Lemma cast_pins_same_object_witness :
  exists r st' g,
    cast (inr 10) K_view (snd K_instance) = (Ok r, st') /\
    w_classWrapper r = 2%positive /\
    w_handle r = Some g /\
    g <> 10 /\
    refs st' !! g = Some (Instance K_class 0) /\
    refs st' !! 10 = Some (Instance K_class 0) /\
    isSameObject g 10 st'.
Proof.
  apply (cast_pins_same_object (snd K_instance)
           {| oid := 4; w_classWrapper := 2; w_classHandle := 9; w_handle := Some 10 |}
           K_view 10 (Instance K_class 0)
           {| k_className := "K"; k_name := "com.example.K"; k_handle := 4;
              k_methods := [5]; k_fields := [6]; k_super := Some (Wrapped 1%positive) |});
    vm_compute; reflexivity.
Defined.

(** C3, the claim as stated fails: the instance [i] of [K] has the
    handle 10, and [cast(i.$handle, K)] has the handle 12. *)
Lemma cast_changes_handle :
  exists i r,
    fst K_instance = Ok i /\ fst K_recast = Ok r /\
    isInstanceOf (w_handle i) (w_classHandle K_view) (snd K_instance) = true /\
    w_handle i = Some 10 /\ w_handle r = Some 12 /\
    w_handle r <> w_handle i.
Proof.
  exists {| oid := 4; w_classWrapper := 2; w_classHandle := 9; w_handle := Some 10 |},
         {| oid := 5; w_classWrapper := 2; w_classHandle := 11; w_handle := Some 12 |}.
  repeat split; try (vm_compute; reflexivity); discriminate.
Qed.

(** ** Process memory *)

Lemma write_le_outside n a v m x :
  x < a \/ a + Z.of_nat n <= x -> write_le n a v m x = m x.
Proof.
  intros H. unfold write_le.
  destruct (a <=? x) eqn:E1; [|reflexivity].
  destruct (x <? a + Z.of_nat n) eqn:E2; [|reflexivity].
  apply Z.leb_le in E1. apply Z.ltb_lt in E2. lia.
Qed.

Lemma write_le_inside n a v m x :
  a <= x < a + Z.of_nat n -> write_le n a v m x = (v / 256 ^ (x - a)) mod 256.
Proof.
  intros H. unfold write_le.
  replace (a <=? x) with true by (symmetry; apply Z.leb_le; lia).
  replace (x <? a + Z.of_nat n) with true by (symmetry; apply Z.ltb_lt; lia).
  reflexivity.
Qed.

Lemma read_le_ext n :
  forall m1 m2 a,
    (forall x, a <= x < a + Z.of_nat n -> readU8 m1 x = readU8 m2 x) ->
    read_le n m1 a = read_le n m2 a.
Proof.
  induction n as [|k IH]; intros m1 m2 a H; [reflexivity|].
  cbn [read_le]. rewrite (H a) by lia.
  rewrite (IH m1 m2 (a + 1)); [reflexivity|].
  intros x Hx. apply H. lia.
Qed.

Lemma bytes_ext n :
  forall m1 m2 a,
    (forall x, a <= x < a + Z.of_nat n -> readU8 m1 x = readU8 m2 x) ->
    bytes n m1 a = bytes n m2 a.
Proof.
  induction n as [|k IH]; intros m1 m2 a H; [reflexivity|].
  cbn [bytes]. rewrite (H a) by lia.
  rewrite (IH m1 m2 (a + 1)); [reflexivity|].
  intros x Hx. apply H. lia.
Qed.

Lemma read_le_range n :
  forall m a, 0 <= read_le n m a < 256 ^ Z.of_nat n.
Proof.
  induction n as [|k IH]; intros m a.
  - simpl. lia.
  - cbn [read_le]. specialize (IH m (a + 1)).
    assert (Hb : 0 <= readU8 m a < 256) by (unfold readU8; apply Z.mod_pos_bound; lia).
    rewrite Nat2Z.inj_succ, Z.pow_succ_r by lia. lia.
Qed.

(** A word that was written is read back, cut to its width. *)
Lemma read_write_same n :
  forall a v m, read_le n (write_le n a v m) a = v mod 256 ^ Z.of_nat n.
Proof.
  induction n as [|k IH]; intros a v m.
  - simpl. symmetry. apply Z.mod_1_r.
  - cbn [read_le].
    rewrite (read_le_ext k (write_le (S k) a v m) (write_le k (a + 1) (v / 256) m) (a + 1)).
    + rewrite IH. unfold readU8. rewrite write_le_inside by lia.
      rewrite Z.sub_diag, Z.pow_0_r, Z.div_1_r, Z.mod_mod by lia.
      rewrite Nat2Z.inj_succ, Z.pow_succ_r by lia.
      symmetry. apply Z.rem_mul_r; [lia|]. apply Z.pow_pos_nonneg; lia.
    + intros x Hx. unfold readU8.
      rewrite !write_le_inside by lia. f_equal.
      replace (x - a) with (Z.succ (x - (a + 1))) by lia.
      rewrite Z.pow_succ_r by lia.
      rewrite Z.div_div by (try lia; apply Z.pow_pos_nonneg; lia).
      reflexivity.
Qed.

(** A write leaves the words of other places as they are. *)
Lemma read_write_other n1 n2 a1 a2 v m :
  a1 + Z.of_nat n1 <= a2 \/ a2 + Z.of_nat n2 <= a1 ->
  read_le n1 (write_le n2 a2 v m) a1 = read_le n1 m a1.
Proof.
  intros H. apply read_le_ext. intros x Hx. unfold readU8.
  rewrite write_le_outside by lia. reflexivity.
Qed.

Lemma bytes_copy n :
  forall dst src N m j,
    0 <= j -> j + Z.of_nat n <= N ->
    bytes n (copy dst src N m) (dst + j) = bytes n m (src + j).
Proof.
  induction n as [|k IH]; intros dst src N m j Hj HN; [reflexivity|].
  cbn [bytes]. f_equal.
  - unfold readU8, copy.
    replace (dst <=? dst + j) with true by (symmetry; apply Z.leb_le; lia).
    replace (dst + j <? dst + N) with true by (symmetry; apply Z.ltb_lt; lia).
    simpl. do 2 f_equal. lia.
  - replace (dst + j + 1) with (dst + (j + 1)) by lia.
    replace (src + j + 1) with (src + (j + 1)) by lia.
    apply IH; lia.
Qed.

Lemma copy_outside dst src N m x :
  x < dst \/ dst + N <= x -> copy dst src N m x = m x.
Proof.
  intros H. unfold copy.
  destruct (dst <=? x) eqn:E1; [|reflexivity].
  destruct (x <? dst + N) eqn:E2; [|reflexivity].
  apply Z.leb_le in E1. apply Z.ltb_lt in E2. lia.
Qed.

(** ** The hooking engine *)

Lemma fetchMethod_range api methodId m0 :
  let s := fetchMethod api methodId m0 in
  jniCode s mod 256 ^ Z.of_nat (pointerSize api) = jniCode s /\
  accessFlags s mod 256 ^ 4 = accessFlags s /\
  quickCode s mod 256 ^ Z.of_nat (pointerSize api) = quickCode s /\
  interpreterCode s mod 256 ^ Z.of_nat (pointerSize api) = interpreterCode s.
Proof.
  simpl. unfold readPointer, readU32.
  repeat split; apply Z.mod_small; apply read_le_range.
Qed.

(** The four words written by [patchMethod] are the words [fetchMethod]
    reads afterwards. *)
Lemma fetch_patch api methodId m0 m :
  fieldsDisjoint api ->
  fetchMethod api methodId (patchMethod api methodId (fetchMethod api methodId m0) m)
  = fetchMethod api methodId m0.
Proof.
  intros (H1 & H2 & H3 & H4 & H5 & H6).
  destruct (fetchMethod_range api methodId m0) as (R1 & R2 & R3 & R4).
  cbv zeta in R1, R2, R3, R4.
  set (s := fetchMethod api methodId m0) in *.
  unfold fetchMethod at 1, patchMethod, readPointer, writePointer, readU32, writeU32.
  unfold apart in *.
  assert (Hj : read_le (pointerSize api)
                 (write_le (pointerSize api) (methodId + o_interpreterCode (artMethodOffset api))
                    (interpreterCode s)
                    (write_le (pointerSize api) (methodId + o_quickCode (artMethodOffset api))
                       (quickCode s)
                       (write_le 4 (methodId + o_accessFlags (artMethodOffset api))
                          (accessFlags s)
                          (write_le (pointerSize api)
                             (methodId + o_jniCode (artMethodOffset api)) (jniCode s) m))))
                 (methodId + o_jniCode (artMethodOffset api)) = jniCode s).
  { rewrite !read_write_other by (simpl; lia). rewrite read_write_same. exact R1. }
  assert (Ha : read_le 4
                 (write_le (pointerSize api) (methodId + o_interpreterCode (artMethodOffset api))
                    (interpreterCode s)
                    (write_le (pointerSize api) (methodId + o_quickCode (artMethodOffset api))
                       (quickCode s)
                       (write_le 4 (methodId + o_accessFlags (artMethodOffset api))
                          (accessFlags s)
                          (write_le (pointerSize api)
                             (methodId + o_jniCode (artMethodOffset api)) (jniCode s) m))))
                 (methodId + o_accessFlags (artMethodOffset api)) = accessFlags s).
  { rewrite !read_write_other by (simpl; lia). rewrite read_write_same. exact R2. }
  assert (Hq : read_le (pointerSize api)
                 (write_le (pointerSize api) (methodId + o_interpreterCode (artMethodOffset api))
                    (interpreterCode s)
                    (write_le (pointerSize api) (methodId + o_quickCode (artMethodOffset api))
                       (quickCode s)
                       (write_le 4 (methodId + o_accessFlags (artMethodOffset api))
                          (accessFlags s)
                          (write_le (pointerSize api)
                             (methodId + o_jniCode (artMethodOffset api)) (jniCode s) m))))
                 (methodId + o_quickCode (artMethodOffset api)) = quickCode s).
  { rewrite read_write_other by (simpl; lia). rewrite read_write_same. exact R3. }
  rewrite Hj, Ha, Hq, read_write_same, R4.
  destruct s; reflexivity.
Qed.

(** What a call of [replaceArtImplementation(fn)] with a function [fn]
    leaves behind, whether it returns or throws: the snapshot is held,
    the method is otherwise as it was. *)
Lemma replaceArt_install api self fn st ms :
  methods st !! self = Some ms ->
  exists ms1,
    methods (snd (replaceArtImplementation api self (Some fn) st)) !! self = Some ms1 /\
    artOriginalMethodInfo ms1 = Some (artSnapshot api st ms) /\
    ms_methodId ms1 = ms_methodId ms /\
    ms_type ms1 = ms_type ms.
Proof.
  intros Hm. unfold replaceArtImplementation. rewrite Hm.
  cbn [set_methods methods mem].
  destruct (findQuickGenericJniTrampoline api (mem st)) as [tramp|msg];
    cbn [snd methods set_patchedMethods set_mem set_methods];
    rewrite lookup_insert_eq; eexists; (split; [reflexivity|]);
    unfold artSnapshot; destruct (artOriginalMethodInfo ms); repeat split.
Qed.

(** What [replaceArtImplementation(null)] does to a method that holds a
    snapshot. *)
Lemma replaceArt_clear api self st ms original :
  methods st !! self = Some ms ->
  artOriginalMethodInfo ms = Some original ->
  exists st2,
    replaceArtImplementation api self None st = (Ok tt, st2) /\
    mem st2 = patchMethod api (ms_methodId ms) original (mem st) /\
    patchedMethods st2 = patchedMethods st ∖ {[self]} /\
    methods st2 !! self
      = Some (set_implementation None (set_artOriginalMethodInfo (Some original) ms)).
Proof.
  intros Hm Ho. unfold replaceArtImplementation. rewrite Hm, Ho.
  eexists. split; [reflexivity|].
  cbn [mem patchedMethods methods set_methods set_mem set_patchedMethods].
  rewrite lookup_insert_eq. repeat split.
Qed.

Lemma bytes_writes_outside (id p : ptr) (m : memory) (api : Api) implementation
    (v1 v2 v3 v4 v5 : Z) :
  apart p 56 id 56 ->
  (forall implementation m x,
     x < id \/ id + 56 <= x -> dvmUseJNIBridge api id implementation m x = m x) ->
  bytes 56
    (dvmUseJNIBridge api id implementation
       (writeU32 (id + DVM_METHOD_OFFSET_JNI_ARG_INFO) v5
          (writeU16 (id + DVM_METHOD_OFFSET_INS_SIZE) v4
             (writeU16 (id + DVM_METHOD_OFFSET_OUTS_SIZE) v3
                (writeU16 (id + DVM_METHOD_OFFSET_REGISTERS_SIZE) v2
                   (writeU32 (id + DVM_METHOD_OFFSET_ACCESS_FLAGS) v1 m)))))) p
  = bytes 56 m p.
Proof.
  intros Hap Hframe. apply bytes_ext. intros x Hx. unfold readU8, apart in *.
  rewrite Hframe by lia.
  unfold writeU32, writeU16, DVM_METHOD_OFFSET_JNI_ARG_INFO, DVM_METHOD_OFFSET_INS_SIZE,
    DVM_METHOD_OFFSET_OUTS_SIZE, DVM_METHOD_OFFSET_REGISTERS_SIZE,
    DVM_METHOD_OFFSET_ACCESS_FLAGS.
  rewrite !write_le_outside by (simpl; lia). reflexivity.
Qed.

(** What a call of [replaceDalvikImplementation(fn)] with a function
    [fn] leaves behind: a copy [original] that holds the snapshot. *)
Lemma replaceDalvik_install api self fn st ms :
  methods st !! self = Some ms ->
  hookable api st ms -> flavor api = dalvik ->
  exists ms1 original,
    methods (snd (replaceDalvikImplementation api self (Some fn) st)) !! self = Some ms1 /\
    dalvikOriginalMethod ms1 = Some original /\
    bytes 56 (mem (snd (replaceDalvikImplementation api self (Some fn) st))) original
      = dalvikSnapshot st ms /\
    ms_methodId ms1 = ms_methodId ms /\
    ms_type ms1 = ms_type ms.
Proof.
  intros Hm Hh Hf. unfold hookable in Hh. rewrite Hf in Hh. destruct Hh as [Hap Hframe].
  unfold replaceDalvikImplementation. rewrite Hm. unfold dalvikSnapshot.
  destruct (dalvikOriginalMethod ms) as [original|] eqn:Ho.
  - exists (set_implementation (Some (NativeCallback api self fn)) ms), original.
    cbn [snd methods mem set_patchedMethods set_methods set_mem].
    rewrite lookup_insert_eq. split; [reflexivity|]. split; [exact Ho|].
    split; [|split; reflexivity].
    cbn [ms_methodId set_implementation].
    apply bytes_writes_outside; assumption.
  - exists (set_implementation (Some (NativeCallback api self fn))
              (set_dalvikCopies (brk st) (brk st + DVM_METHOD_SIZE) ms)), (brk st).
    unfold dup, alloc.
    cbn [snd fst methods mem brk set_patchedMethods set_methods set_mem set_brk].
    rewrite lookup_insert_eq. split; [reflexivity|]. split; [reflexivity|].
    split; [|split; reflexivity].
    cbn [ms_methodId set_implementation set_dalvikCopies].
    rewrite bytes_writes_outside by assumption.
    unfold DVM_METHOD_SIZE.
    rewrite (bytes_ext 56 _ (copy (brk st) (ms_methodId ms) 56 (mem st))).
    + pose proof (bytes_copy 56 (brk st) (ms_methodId ms) 56 (mem st) 0) as Hc.
      rewrite !Z.add_0_r in Hc. apply Hc; simpl; lia.
    + intros x Hx. unfold readU8. rewrite copy_outside by (simpl in Hx; lia).
      reflexivity.
Qed.

Lemma replaceDalvik_clear api self st ms original :
  methods st !! self = Some ms ->
  dalvikOriginalMethod ms = Some original ->
  exists st2,
    replaceDalvikImplementation api self None st = (Ok tt, st2) /\
    mem st2 = copy (ms_methodId ms) original DVM_METHOD_SIZE (mem st) /\
    patchedMethods st2 = patchedMethods st ∖ {[self]} /\
    methods st2 !! self = Some (set_implementation None ms).
Proof.
  intros Hm Ho. unfold replaceDalvikImplementation. rewrite Hm, Ho.
  eexists. split; [reflexivity|].
  cbn [mem patchedMethods methods set_methods set_mem set_patchedMethods].
  rewrite lookup_insert_eq. repeat split.
Qed.

(** The words of the record after [patchMethod] are the words that
    were written, cut to the width of their fields. *)
Lemma artWords_patch api methodId s m :
  fieldsDisjoint api ->
  artWords api (patchMethod api methodId s m) methodId = storedWords api s.
Proof.
  intros (H1 & H2 & H3 & H4 & H5 & H6).
  unfold artWords, storedWords, patchMethod, writePointer, writeU32, apart in *.
  f_equal; [|f_equal; [|f_equal; [|f_equal]]].
  - rewrite !read_write_other by (simpl; lia). apply read_write_same.
  - rewrite !read_write_other by (simpl; lia). apply read_write_same.
  - rewrite read_write_other by (simpl; lia). apply read_write_same.
  - apply read_write_same.
Qed.

(** What [fetchMethod] reads is what stands in memory. *)
Lemma storedWords_fetch api methodId m :
  storedWords api (fetchMethod api methodId m) = artWords api m methodId.
Proof.
  unfold storedWords, artWords, fetchMethod, readPointer, readU32.
  cbn [jniCode accessFlags quickCode interpreterCode].
  repeat f_equal; apply Z.mod_small; apply read_le_range.
Qed.




Lemma releaseClass_keeps st entry :
  mem (releaseClass st entry) = mem st /\
  patchedMethods (releaseClass st entry) = patchedMethods st /\
  methods (releaseClass st entry) = methods st.
Proof.
  unfold releaseClass. cbn [mem patchedMethods methods set_classes].
  destruct (klasses st !! entry.2) as [klass|]; [|repeat split].
  cbn [deleteGlobalRef mem patchedMethods methods set_refs].
  assert (Hfold : forall hs s,
            mem (fold_left (fun st h => deleteGlobalRef h st) hs s) = mem s /\
            patchedMethods (fold_left (fun st h => deleteGlobalRef h st) hs s)
              = patchedMethods s /\
            methods (fold_left (fun st h => deleteGlobalRef h st) hs s) = methods s).
  { induction hs as [|h hs IH]; intros s; [repeat split|].
    cbn [fold_left]. destruct (IH (deleteGlobalRef h s)) as (H1 & H2 & H3).
    rewrite H1, H2, H3. repeat split. }
  destruct (Hfold (k_fields klass)
              (fold_left (fun st m => deleteGlobalRef m st) (k_methods klass) st))
    as (H1 & H2 & H3).
  destruct (Hfold (k_methods klass) st) as (H4 & H5 & H6).
  rewrite H1, H2, H3, H4, H5, H6. repeat split.
Qed.

Lemma releaseClasses_keep entries :
  forall st,
    mem (fold_left releaseClass entries st) = mem st /\
    patchedMethods (fold_left releaseClass entries st) = patchedMethods st /\
    methods (fold_left releaseClass entries st) = methods st.
Proof.
  induction entries as [|e entries IH]; intros st; [repeat split|].
  cbn [fold_left]. destruct (IH (releaseClass st e)) as (H1 & H2 & H3).
  destruct (releaseClass_keeps st e) as (H4 & H5 & H6).
  rewrite H1, H2, H3, H4, H5, H6. repeat split.
Qed.

(** With no entry in [patchedClasses] (always so on ART, and on Dalvik
    as long as no hooked method was called through the bridge),
    [dispose] restores nothing: the [while] loop over [patchedMethods]
    does not run, memory and [patchedMethods] stay as they are. *)
Lemma dispose_skips_patchedMethods api st :
  patchedClasses st = [] ->
  exists st',
    dispose api st = (Ok tt, st') /\
    mem st' = mem st /\
    patchedMethods st' = patchedMethods st /\
    methods st' = methods st.
Proof.
  intros Hp. unfold dispose. cbn [Set_length ToNumber num_gt].
  rewrite Hp. cbn [forInKeys omap fold_right List.filter map app restorePatchedClasses].
  eexists. split; [reflexivity|].
  apply (releaseClasses_keep _ st).
Qed.

(** C1, evaluated on ART: a method is hooked, so it is in
    [patchedMethods] and its record holds the replacement; [dispose]
    returns, and the method is in [patchedMethods] as before and its
    record still holds the replacement, not the pre-hook snapshot. *)
Theorem dispose_leaves_hook_in_place :
  fst (setImplementation artApi 1 (Some 7) hookFactory) = Ok tt /\
  artSnapshot artApi hookFactory exampleMethod
    = {| jniCode := 0; accessFlags := 1; quickCode := 24576; interpreterCode := 26624 |} /\
  1%positive ∈ patchedMethods hooked /\
  fst (dispose artApi hooked) = Ok tt /\
  1%positive ∈ patchedMethods (snd (dispose artApi hooked)) /\
  fetchMethod artApi 4096 (mem (snd (dispose artApi hooked)))
    = {| jniCode := 36871; accessFlags := 524545; quickCode := 20480;
         interpreterCode := 28672 |}.
Proof.
  split; [vm_compute; reflexivity|].
  split; [vm_compute; reflexivity|].
  split; [apply (bool_decide_unpack _); vm_compute; exact I|].
  split; [vm_compute; reflexivity|].
  split; [apply (bool_decide_unpack _); vm_compute; exact I|].
  vm_compute; reflexivity.
Qed.

(** The sibling path of [dispose]: on Dalvik, a hooked method that was
    called once is an entry of [patchedClasses], and the loop over
    [patchedClasses] restores it; a hooked method that was not called
    stays hooked. *)
Lemma dispose_restores_called_method :
  bytes 56 (mem (snd (dispose dalvikApi calledDalvik))) 4096
    = bytes 56 (mem hookFactory) 4096 /\
  elements (patchedMethods (snd (dispose dalvikApi calledDalvik))) = [] /\
  bytes 56 (mem (snd (dispose dalvikApi hookedDalvik))) 4096
    <> bytes 56 (mem hookFactory) 4096 /\
  elements (patchedMethods (snd (dispose dalvikApi hookedDalvik))) = [1%positive].
Proof.
  split; [vm_compute; reflexivity|].
  split; [vm_compute; reflexivity|].
  split; [vm_compute; discriminate|].
  vm_compute; reflexivity.
Qed.

(** * Further properties *)

(** ** Selection of an overload by its signature *)

Lemma colons_app s t : colons (s +:+ t) = (colons s + colons t)%nat.
Proof. induction s as [|a s IH]; simpl; [reflexivity|]. rewrite IH. lia. Qed.

Lemma colons_concat (l : list string) :
  colons (String.concat ":" l)
  = (Nat.pred (length l) + list_sum (map colons l))%nat.
Proof.
  induction l as [|x l IH]; [reflexivity|].
  destruct l as [|y l].
  - simpl. lia.
  - change (String.concat ":" (x :: y :: l))
      with (x +:+ String ":" (String.concat ":" (y :: l))).
    rewrite colons_app. cbn [colons]. rewrite IH. simpl. lia.
Qed.

(** Two strings without colon that are followed by a colon in the same
    string are the same. *)
Lemma colon_free_prefix x :
  forall y a b,
    colons x = 0%nat -> colons y = 0%nat ->
    x +:+ String ":" a = y +:+ String ":" b -> x = y /\ a = b.
Proof.
  induction x as [|c x IH]; intros y a b Hx Hy H.
  - destruct y as [|d y]; simpl in *.
    + injection H as ->. auto.
    + injection H as <- _. simpl in Hy. discriminate Hy.
  - destruct y as [|d y]; simpl in *.
    + injection H as -> _. simpl in Hx. discriminate Hx.
    + injection H as -> H.
      destruct (Ascii.eqb d ":"); [discriminate Hx|].
      destruct (IH y a b Hx Hy H) as [-> ->]. auto.
Qed.

Lemma list_sum_zero (l : list nat) :
  list_sum l = 0%nat -> Forall (fun n => n = 0%nat) l.
Proof.
  induction l as [|n l IH]; simpl; intros H; constructor; [lia | apply IH; lia].
Qed.

Lemma concat_colon_free_inj (l1 : list string) :
  forall l2,
    Forall (fun s => colons s = 0%nat) l1 ->
    Forall (fun s => colons s = 0%nat) l2 ->
    length l1 = length l2 ->
    String.concat ":" l1 = String.concat ":" l2 -> l1 = l2.
Proof.
  induction l1 as [|x l1 IH]; intros l2 H1 H2 Hlen H.
  - destruct l2; [reflexivity | discriminate Hlen].
  - destruct l2 as [|y l2]; [discriminate Hlen|].
    inversion H1 as [|? ? Hx H1']; subst. inversion H2 as [|? ? Hy H2']; subst.
    destruct l1 as [|x' l1]; destruct l2 as [|y' l2]; try discriminate Hlen.
    + simpl in H. congruence.
    + change (x +:+ String ":" (String.concat ":" (x' :: l1))
              = y +:+ String ":" (String.concat ":" (y' :: l2))) in H.
      destruct (colon_free_prefix x y _ _ Hx Hy H) as [-> Hrest].
      f_equal. apply IH; try assumption. simpl in Hlen |- *. lia.
Qed.

(** Joined with colons, a list of names without colon is told apart
    from every other list of the same length. *)
Lemma concat_colon_inj (l1 l2 : list string) :
  Forall (fun s => colons s = 0%nat) l2 ->
  length l1 = length l2 ->
  String.concat ":" l1 = String.concat ":" l2 -> l1 = l2.
Proof.
  intros H2 Hlen H.
  apply concat_colon_free_inj; try assumption.
  assert (Hc : colons (String.concat ":" l1) = colons (String.concat ":" l2))
    by (rewrite H; reflexivity).
  rewrite !colons_concat, Hlen in Hc.
  assert (Hz : list_sum (map colons l2) = 0%nat).
  { clear -H2. induction H2 as [|s l Hs _ IH]; simpl; [reflexivity | lia]. }
  rewrite Hz in Hc.
  assert (Hz1 : list_sum (map colons l1) = 0%nat) by lia.
  apply list_sum_zero in Hz1. rewrite Forall_map in Hz1. exact Hz1.
Qed.

Lemma findSignature_named name names group :
  Forall (fun s => colons s = 0%nat) names ->
  Forall (fun m => length (argumentTypes m) = length names) group ->
  findSignature name (String.concat ":" names) group =
  match firstNamed names group with
  | Some m => Ok m
  | None => Throw (name +:+ ": specified argument types do not match any overload")
  end.
Proof.
  intros Hfree Hgroup. unfold firstNamed.
  induction Hgroup as [|m group Hm _ IH]; simpl; [reflexivity|].
  destruct (String.eqb (signatureOf m) (String.concat ":" names)) eqn:E.
  - apply String.eqb_eq in E. unfold signatureOf in E.
    apply concat_colon_inj in E; [|assumption | rewrite length_map; exact Hm].
    rewrite bool_decide_eq_true_2 by exact E. reflexivity.
  - apply String.eqb_neq in E.
    rewrite bool_decide_eq_false_2; [exact IH|].
    intros Heq. apply E. unfold signatureOf. rewrite Heq. reflexivity.
Qed.

(** [overload(names...)], for type names without colon: it throws the
    arity error when no overload takes that many arguments; otherwise
    it returns the first overload of that arity, in declaration order,
    whose argument types have exactly these class names, and throws
    when there is none. *)
Theorem overload_by_signature (name : string) (methods : list Method)
    (names : list string) :
  Forall (fun s => colons s = 0%nat) names ->
  overload (makeMethodDispatcher name methods) names =
  match bucket (length names) methods with
  | [] => Throw (name +:+ ": argument count does not match any overload")
  | group =>
      match firstNamed names group with
      | Some m => Ok m
      | None => Throw (name +:+ ": specified argument types do not match any overload")
      end
  end.
Proof.
  intros Hfree. unfold overload. rewrite candidates_lookup. simpl d_name.
  assert (Hgroup : Forall (fun m => length (argumentTypes m) = length names)
                     (bucket (length names) methods)).
  { apply List.Forall_forall. intros m Hin. apply bucket_arity in Hin. tauto. }
  destruct (bucket (length names) methods) as [|m group]; [reflexivity|].
  apply findSignature_named; assumption.
Qed.

Lemma overload_by_signature_witness :
  overload (makeMethodDispatcher "m" [m_int; m_String]) ["java.lang.String"%string]
    = Ok m_String /\
  overload (makeMethodDispatcher "m" [m_int; m_String]) ["Ljava.lang.String;"%string]
    = Throw "m: specified argument types do not match any overload".
Proof.
  split.
  - rewrite (overload_by_signature "m" [m_int; m_String] ["java.lang.String"%string]);
      [reflexivity | repeat constructor].
  - rewrite (overload_by_signature "m" [m_int; m_String] ["Ljava.lang.String;"%string]);
      [reflexivity | repeat constructor].
Defined.

(** ** What the dispatcher applies *)

(** Whatever the dispatcher applies is one of its overloads, takes as
    many arguments as were passed, accepts each argument at its
    position, and is no instance method unless the receiver is an
    instance. *)
Theorem dispatch_is_sound (name : string) (methods : list Method)
    (klasses : gmap positive Klass) (this : Wrapper) (args : list value)
    (m : Method) :
  f (makeMethodDispatcher name methods) klasses this args = Apply m ->
  In m methods /\
  Forall2 (fun t v => isCompatible (body t) v = true) (argumentTypes m) args /\
  (kind m = INSTANCE_METHOD -> isInstance this = true).
Proof.
  rewrite f_cases. intros H.
  destruct (bucket (length args) methods) as [|m0 group] eqn:Hb; [discriminate H|].
  destruct (firstCompatible args (m0 :: group)) as [m1|] eqn:Hf; [|discriminate H].
  apply firstCompatible_Some in Hf. destruct Hf as [Hin Hc].
  rewrite <- Hb in Hin. apply bucket_arity in Hin. destruct Hin as [Hin Hlen].
  unfold invokeSelected in H.
  destruct (MethodType_eqb (kind m1) INSTANCE_METHOD && negb (isInstance this)) eqn:E.
  - unfold classLiteral in H. destruct (String.eqb name "toString"); [|discriminate H].
    destruct (klasses !! w_classWrapper this); discriminate H.
  - injection H as <-. split; [exact Hin|]. split.
    + apply (every_isCompatible_Forall2 (argumentTypes m1) 0 args) in Hc; [|lia].
      exact Hc.
    + intros Hk. rewrite Hk in E. simpl in E.
      destruct (isInstance this); [reflexivity | discriminate E].
Qed.

Lemma dispatch_is_sound_witness :
  In m_String [m_int; m_String] /\
  Forall2 (fun t v => isCompatible (body t) v = true) (argumentTypes m_String)
    [VString (units "x")] /\
  (kind m_String = INSTANCE_METHOD -> isInstance anInstance = true).
Proof.
  apply (dispatch_is_sound "m" [m_int; m_String] exampleKlasses anInstance
           [VString (units "x")] m_String).
  reflexivity.
Defined.

(** A call that some overload accepts is not turned down for its
    arguments: the call goes to the first accepting overload of that
    arity, which on an instance is applied. *)
Theorem dispatch_is_complete (name : string) (methods : list Method)
    (klasses : gmap positive Klass) (this : Wrapper) (args : list value)
    (m : Method) :
  In m methods ->
  Forall2 (fun t v => isCompatible (body t) v = true) (argumentTypes m) args ->
  exists m',
    firstCompatible args (bucket (length args) methods) = Some m' /\
    f (makeMethodDispatcher name methods) klasses this args
      = invokeSelected name klasses this m' /\
    (isInstance this = true ->
       f (makeMethodDispatcher name methods) klasses this args = Apply m').
Proof.
  intros Hin Hc. pose proof (Forall2_length _ _ _ Hc) as Hlen.
  assert (Hb : In m (bucket (length args) methods)).
  { unfold bucket. apply filter_In. split; [exact Hin|]. apply Nat.eqb_eq. exact Hlen. }
  assert (He : every_isCompatible 0 (argumentTypes m) args = true)
    by (apply every_isCompatible_Forall2; [lia | exact Hc]).
  rewrite f_cases.
  destruct (bucket (length args) methods) as [|m0 group] eqn:Hbk; [destruct Hb|].
  destruct (firstCompatible args (m0 :: group)) as [m'|] eqn:Hf.
  - exists m'. split; [reflexivity|]. split; [reflexivity|].
    intros Hi. unfold invokeSelected. rewrite Hi, andb_false_r. reflexivity.
  - unfold firstCompatible in Hf.
    pose proof (find_none _ _ Hf m Hb) as Hn. simpl in Hn. congruence.
Qed.

Lemma dispatch_is_complete_witness :
  exists m',
    firstCompatible [VNull] (bucket 1 [m_int; m_String]) = Some m' /\
    f (makeMethodDispatcher "m" [m_int; m_String]) exampleKlasses anInstance [VNull]
      = invokeSelected "m" exampleKlasses anInstance m' /\
    (isInstance anInstance = true ->
       f (makeMethodDispatcher "m" [m_int; m_String]) exampleKlasses anInstance [VNull]
         = Apply m').
Proof.
  apply (dispatch_is_complete "m" [m_int; m_String] exampleKlasses anInstance
           [VNull] m_String).
  - right. left. reflexivity.
  - repeat constructor.
Defined.

(** ** The two dispatchers of a constructor *)

Lemma constructorMethods_parallel klass name jsRetType jsVoidType constructors :
  Forall2 (sameConstructor klass name)
    (fst (constructorMethods klass name jsRetType jsVoidType constructors))
    (snd (constructorMethods klass name jsRetType jsVoidType constructors)).
Proof.
  induction constructors as [|c rest IH]; simpl; [constructor|].
  destruct (constructorMethods klass name jsRetType jsVoidType rest) as [ctors inits].
  destruct (resolveArgTypes false (c_getGenericParameterTypes c)) as [jsArgTypes|];
    [|exact IH].
  cbn [fst snd] in *. constructor; [|exact IH].
  unfold sameConstructor. eauto 10.
Qed.

Lemma bucket_parallel klass name n (l1 l2 : list Method) :
  Forall2 (sameConstructor klass name) l1 l2 ->
  Forall2 (sameConstructor klass name) (bucket n l1) (bucket n l2).
Proof.
  induction 1 as [|a b l1 l2 Hab _ IH]; simpl; [constructor|].
  destruct Hab as (id & r & v & ts & -> & ->). simpl.
  destruct (Nat.eqb (length ts) n); [|exact IH].
  constructor; [|exact IH]. unfold sameConstructor. eauto 10.
Qed.

Lemma firstCompatible_parallel klass name args (l1 l2 : list Method) :
  Forall2 (sameConstructor klass name) l1 l2 ->
  match firstCompatible args l1, firstCompatible args l2 with
  | Some a, Some b => sameConstructor klass name a b
  | None, None => True
  | _, _ => False
  end.
Proof.
  unfold firstCompatible.
  induction 1 as [|a b l1 l2 Hab _ IH]; simpl; [exact I|].
  pose proof Hab as (id & r & v & ts & -> & ->). simpl.
  destruct (every_isCompatible 0 ts args); [exact Hab | exact IH].
Qed.

(** [$new] and [$init] go together: when [$new], on a class view or on
    an instance, applies the method made for a constructor, [$init] on
    an instance with the same arguments applies the method made for the
    same constructor (same method id and argument types), of kind
    instance method. *)
Theorem new_and_init_agree (klass : positive) (name : string)
    (constructors : list JConstructor) (made : Constructors)
    (klasses : gmap positive Klass) (this instance : Wrapper) (args : list value)
    (a : Method) :
  makeConstructor klass name constructors = Ok made ->
  f (allocAndInit made) klasses this args = Apply a ->
  isInstance instance = true ->
  exists b,
    f (initOnly made) klasses instance args = Apply b /\
    sameConstructor klass name a b.
Proof.
  unfold makeConstructor. intros Hmade Ha Hi.
  destruct (getTypeFromJniTypename name (Some false)) as [jsRetType|]; [|discriminate Hmade].
  destruct (getTypeFromJniTypename "void" (Some false)) as [jsVoidType|];
    [|discriminate Hmade].
  cbn [bind] in Hmade.
  pose proof (constructorMethods_parallel klass name jsRetType jsVoidType constructors) as Hp.
  destruct (constructorMethods klass name jsRetType jsVoidType constructors)
    as [jsCtorMethods jsInitMethods].
  cbn [fst snd] in Hp.
  destruct (Nat.eqb (length jsInitMethods) 0); [discriminate Hmade|].
  injection Hmade as <-. cbn [allocAndInit initOnly] in *.
  rewrite f_cases in Ha. rewrite f_cases.
  pose proof (bucket_parallel klass name (length args) _ _ Hp) as Hb.
  pose proof (firstCompatible_parallel klass name args _ _ Hb) as Hf.
  destruct (bucket (length args) jsCtorMethods) as [|a0 g1] eqn:E1; [discriminate Ha|].
  destruct (bucket (length args) jsInitMethods) as [|b0 g2] eqn:E2;
    [inversion Hb|].
  destruct (firstCompatible args (a0 :: g1)) as [x|]; [|discriminate Ha].
  destruct (firstCompatible args (b0 :: g2)) as [y|]; [|destruct Hf].
  exists y. unfold invokeSelected in *. rewrite Hi, andb_false_r.
  split; [reflexivity|].
  pose proof Hf as (id & r & v & ts & -> & ->). simpl in Ha.
  injection Ha as <-. exact Hf.
Qed.

Lemma new_and_init_agree_witness :
  exists made a b,
    makeConstructor 1 "com.example.K" [brokenConstructor; defaultConstructor] = Ok made /\
    f (allocAndInit made) exampleKlasses classView [] = Apply a /\
    f (initOnly made) exampleKlasses anInstance [] = Apply b /\
    sameConstructor 1 "com.example.K" a b.
Proof.
  eexists. eexists.
  assert (Hm : makeConstructor 1 "com.example.K" [brokenConstructor; defaultConstructor]
               = Ok {| allocAndInit :=
                         makeMethodDispatcher "<init>"
                           [makeMethod 1 "K" CONSTRUCTOR_METHOD 8360
                              (typeNamed "com.example.K") []];
                       initOnly :=
                         makeMethodDispatcher "<init>"
                           [makeMethod 1 "K" INSTANCE_METHOD 8360 (typeNamed "void") []] |})
    by reflexivity.
  destruct (new_and_init_agree 1 "com.example.K" [brokenConstructor; defaultConstructor]
              _ exampleKlasses classView anInstance [] _ Hm eq_refl eq_refl)
    as (b & Hb & Hs).
  exists b. repeat split; try assumption.
Defined.

(** ** Type names and class names *)

Lemma get_last x c : String.get (String.length x) (x +:+ String c EmptyString) = Some c.
Proof. induction x as [|a x IH]; simpl; [reflexivity | exact IH]. Qed.

Lemma substring_prefix x y : String.substring 0 (String.length x) (x +:+ y) = x.
Proof.
  induction x as [|a x IH]; simpl.
  - destruct y; reflexivity.
  - rewrite IH. reflexivity.
Qed.

Lemma length_append x y :
  String.length (x +:+ y) = (String.length x + String.length y)%nat.
Proof. induction x as [|a x IH]; simpl; [reflexivity | rewrite IH; reflexivity]. Qed.

Lemma isDescriptor_descriptor x : isDescriptor (String "L" (x +:+ ";")) = true.
Proof.
  unfold isDescriptor.
  replace (String.length (String "L" (x +:+ ";")) - 1)%nat with (S (String.length x))
    by (cbn [String.length]; rewrite length_append; simpl; lia).
  cbn [String.get]. rewrite get_last. reflexivity.
Qed.

Lemma stripDescriptor_descriptor x : stripDescriptor (String "L" (x +:+ ";")) = x.
Proof.
  unfold stripDescriptor.
  replace (String.length (String "L" (x +:+ ";")) - 2)%nat with (String.length x)
    by (cbn [String.length]; rewrite length_append; simpl; lia).
  cbn [String.substring]. apply substring_prefix.
Qed.

(** A name in descriptor form, [L...;], is looked up as the reference
    type of the name between [L] and [;], whatever that name is: the
    descriptor carries the bare name as its [className], its raw type
    is a pointer, and it accepts what the reference type of the bare
    name accepts. *)
Theorem descriptor_is_reference_type (x : string) (unbox : option bool) :
  getTypeFromJniTypename (String "L" (x +:+ ";")) unbox
  = Ok {| className := x; body := getObjectType x (default true unbox) |}.
Proof.
  rewrite getTypeFromJniTypename_eq.
  assert (Hp : getPrimitiveType (String "L" (x +:+ ";")) = None) by reflexivity.
  rewrite Hp. cbn [Ascii.eqb Bool.eqb]. cbn [bind].
  unfold objectCase. rewrite isDescriptor_descriptor, stripDescriptor_descriptor.
  reflexivity.
Qed.

Lemma lastIndexOf_no_dot s : dots s = 0%nat -> lastIndexOf "." s = -1.
Proof.
  induction s as [|a s IH]; simpl; intros H; [reflexivity|].
  destruct (Ascii.eqb a "."); [discriminate H|].
  rewrite IH by exact H. reflexivity.
Qed.

Lemma lastIndexOf_cons c a s :
  lastIndexOf c (String a s) =
  if 0 <=? lastIndexOf c s then lastIndexOf c s + 1
  else if Ascii.eqb a c then 0 else -1.
Proof. reflexivity. Qed.

Lemma lastIndexOf_append_dot p s :
  dots s = 0%nat ->
  lastIndexOf "." (p +:+ String "." s) = Z.of_nat (String.length p).
Proof.
  intros Hs. induction p as [|a p IH].
  - change ("" +:+ String "." s) with (String "." s).
    rewrite lastIndexOf_cons, (lastIndexOf_no_dot s Hs). reflexivity.
  - change (String a p +:+ String "." s) with (String a (p +:+ String "." s)).
    rewrite lastIndexOf_cons, IH.
    replace (0 <=? Z.of_nat (String.length p)) with true
      by (symmetry; apply Z.leb_le; lia).
    cbn [String.length]. lia.
Qed.

Lemma substring_all s : String.substring 0 (String.length s) s = s.
Proof. induction s as [|a s IH]; simpl; [reflexivity | rewrite IH; reflexivity]. Qed.

Lemma slice_all s : slice 0 s = s.
Proof. unfold slice. simpl Z.to_nat. rewrite Nat.sub_0_r. apply substring_all. Qed.

Lemma substring_skip p :
  forall n k s, String.substring (String.length p + n) k (p +:+ s) = String.substring n k s.
Proof. induction p as [|a p IH]; intros n k s; simpl; [reflexivity | apply IH]. Qed.

(** [basename] gives the part of a class name after its last dot, and
    the whole name when it has no dot. *)
Theorem basename_is_simple_name (package simple : string) :
  dots simple = 0%nat ->
  basename simple = simple /\
  basename (package +:+ String "." simple) = simple.
Proof.
  intros Hs. unfold basename. split.
  - rewrite (lastIndexOf_no_dot simple Hs). apply slice_all.
  - rewrite (lastIndexOf_append_dot package simple Hs). unfold slice.
    replace (Z.to_nat (Z.of_nat (String.length package) + 1))
      with (String.length package + 1)%nat by lia.
    rewrite length_append. cbn [String.length].
    replace (String.length package + S (String.length simple)
             - (String.length package + 1))%nat
      with (String.length simple) by lia.
    rewrite substring_skip. cbn [String.substring]. apply substring_all.
Qed.

Lemma basename_is_simple_name_witness :
  basename "K" = "K"%string /\ basename "com.example.K" = "K"%string.
Proof.
  apply (basename_is_simple_name "com.example" "K"). reflexivity.
Defined.

(** ** The class cache over time *)

(** [ensureClass] after a miss. *)
Lemma ensureClass_of_miss c classHandle cachedName st :
  getClass (match cachedName with Some n => n | None => jc_name (info c) end) st = None ->
  ensureClass_of c classHandle cachedName st =
  let name := match cachedName with Some n => n | None => jc_name (info c) end in
  match ensureSuperclass c st with
  | (Throw msg, st0) => (Throw msg, st0)
  | (Ok superKlass, st0) =>
      match evalFunction (sanitize true (basename name)) with
      | Throw msg => (Throw msg, st0)
      | Ok _ =>
          (Ok (Wrapped (allocated st0)),
           initializeClass c classHandle name (allocated st0) superKlass
             (set_classes (<[name := allocated st0]> (classes st0))
                (set_allocated (Pos.succ (allocated st0)) st0)))
      end
  end.
Proof.
  intros Hmiss. rewrite ensureClass_of_eq. cbv zeta. rewrite Hmiss.
  fold (ensureSuperclass c st).
  destruct (ensureSuperclass c st) as [[superKlass|msg] st0]; reflexivity.
Qed.

Lemma ensureClass_of_hit c classHandle cachedName st klass :
  getClass (match cachedName with Some n => n | None => jc_name (info c) end) st
  = Some klass ->
  ensureClass_of c classHandle cachedName st = (Ok klass, st).
Proof. intros Hhit. rewrite ensureClass_of_eq. cbv zeta. rewrite Hhit. reflexivity. Qed.

(** Whatever its outcome, [ensureClass] leaves the entries that
    [classes] has as they are. *)
Lemma ensureClass_of_mono c :
  forall classHandle cachedName st n k,
    classes st !! n = Some k ->
    classes (snd (ensureClass_of c classHandle cachedName st)) !! n = Some k.
Proof.
  induction c as [i | i s IH]; intros classHandle cachedName st n k Hn.
  - destruct (getClass (match cachedName with
                        | Some x => x
                        | None => jc_name (info (Root i))
                        end) st) as [klass|] eqn:Hname;
      [rewrite (ensureClass_of_hit (Root i) _ cachedName _ _ Hname); exact Hn|].
    rewrite (ensureClass_of_miss (Root i) _ cachedName _ Hname). cbv zeta.
    apply getClass_None in Hname. cbn [ensureSuperclass].
    destruct (evalFunction _); [|exact Hn].
    cbn [snd]. rewrite initializeClass_keeps. cbn [classes set_classes set_allocated].
    rewrite lookup_insert_ne; [exact Hn | intros E; rewrite E in Hname; congruence].
  - destruct (getClass (match cachedName with
                        | Some x => x
                        | None => jc_name (info (Extends i s))
                        end) st) as [klass|] eqn:Hname;
      [rewrite (ensureClass_of_hit (Extends i s) _ cachedName _ _ Hname); exact Hn|].
    rewrite (ensureClass_of_miss (Extends i s) _ cachedName _ Hname). cbv zeta.
    apply getClass_None in Hname. cbn [ensureSuperclass]. unfold newRef.
    specialize (IH (fresh ({[NULL]} ∪ dom (refs st))) None
                  (set_refs (<[fresh ({[NULL]} ∪ dom (refs st)) := ClassObject s]> (refs st)) st)
                  n k Hn).
    destruct (ensureClass_of s _ None _) as [[ks|msg] st0]; cbn [snd] in IH;
      [|exact IH].
    destruct (evalFunction _); [|exact IH].
    cbn [snd]. rewrite initializeClass_keeps.
    cbn [classes set_classes set_allocated deleteLocalRef set_refs].
    rewrite lookup_insert_ne; [exact IH | intros E; rewrite E in Hname; congruence].
Qed.

Lemma instantiate_keeps C handle st :
  classes (snd (instantiate C handle st)) = classes st.
Proof.
  unfold instantiate. destruct (klasses st !! C) as [k|]; [|reflexivity].
  unfold construct.
  pose proof (newGlobalRef_keeps (k_handle k) st) as (H1 & _).
  destruct (newGlobalRef (k_handle k) st) as [ch st1]. cbn [snd] in H1.
  destruct handle as [h|].
  - pose proof (newGlobalRef_keeps h st1) as (H2 & _).
    destruct (newGlobalRef h st1) as [g st2]. unfold newObject.
    cbn [snd classes set_allocated] in *. congruence.
  - unfold newObject. cbn [snd classes set_allocated]. exact H1.
Qed.

Lemma newC_keeps C st : classes (snd (newC C st)) = classes st.
Proof.
  unfold newC. destruct C as [k|key].
  - pose proof (instantiate_keeps k None st) as H.
    destruct (instantiate k None st) as [[w|msg] st1]; exact H.
  - destruct (String.eqb key "constructor"); reflexivity.
Qed.

(** Neither [use] (of a factory without class loader) nor [cast] changes
    or removes an entry of [classes]: a wrapper, once cached under a
    name, stays the wrapper of that name, whether the call returns or
    throws. *)
Theorem cache_entries_are_kept (X : string) (obj : Wrapper + ptr) (w : Wrapper)
    (st : Factory) (n : string) (k : positive) :
  classes st !! n = Some k ->
  classes (snd (use None X st)) !! n = Some k /\
  classes (snd (cast obj w st)) !! n = Some k.
Proof.
  intros Hn. split.
  - unfold use. destruct (getClass X st) as [C|].
    + rewrite newC_keeps. exact Hn.
    + unfold findClass.
      destruct (List.find _ (loadedClasses st)) as [c|]; [|exact Hn].
      unfold newRef, ensureClass.
      cbn [refs set_refs]. rewrite lookup_insert_eq.
      pose proof (ensureClass_of_mono c (fresh ({[NULL]} ∪ dom (refs st))) (Some X)
                    (set_refs (<[fresh ({[NULL]} ∪ dom (refs st)) := ClassObject c]> (refs st)) st)
                    n k Hn) as Hm.
      destruct (ensureClass_of c _ (Some X) _) as [[C|msg] st1]; cbn [snd] in Hm.
      * rewrite newC_keeps. exact Hm.
      * exact Hm.
  - unfold cast. destruct (isInstanceOf _ _ st); [|exact Hn].
    rewrite instantiate_keeps. exact Hn.
Qed.

Lemma cache_entries_are_kept_witness :
  classes (snd (use None "java.lang.String" (snd usedOnce))) !! "com.example.K"%string
    = Some 2%positive /\
  classes (snd (cast (inr 8) K_view (snd usedOnce))) !! "com.example.K"%string
    = Some 2%positive.
Proof.
  apply (cache_entries_are_kept "java.lang.String" (inr 8) K_view (snd usedOnce)
           "com.example.K" 2).
  vm_compute. reflexivity.
Defined.




Lemma chainClosed_ext c st1 st2 :
  classes st1 = classes st2 -> chainClosed c st1 -> chainClosed c st2.
Proof.
  intros E. induction c as [i | i s IH]; simpl; [tauto|].
  intros [H1 H2]. split; [|exact (IH H2)].
  rewrite <- (getClass_ext _ st1 st2 E). intros H. specialize (H1 H).
  eapply Forall_impl; [exact H1|]. intros a Ha. cbn beta in *.
  rewrite <- (getClass_ext _ st1 st2 E). exact Ha.
Qed.

(** A name for which [classes] gives a value goes on being given one
    when entries are added. *)
Lemma getClass_grows a st name k st' :
  classes st' = <[name := k]> (classes st) ->
  is_Some (getClass a st) -> is_Some (getClass a st').
Proof.
  intros E. unfold getClass. rewrite E.
  destruct (decide (name = a)) as [->|Hne].
  - rewrite lookup_insert_eq. eauto.
  - rewrite lookup_insert_ne by exact Hne. tauto.
Qed.

Lemma ensureClass_of_closes c :
  forall classHandle st r st',
    chainClosed c st ->
    (is_Some (getClass (jc_name (info c)) st) ->
     Forall (fun a => is_Some (getClass a st)) (ancestry c)) ->
    ensureClass_of c classHandle None st = (Ok r, st') ->
    Forall (fun a => is_Some (getClass a st')) (ancestry c).
Proof.
  induction c as [i | i s IH]; intros classHandle st r st' Hclosed Hcached H;
    cbn [info] in *;
    (destruct (getClass (jc_name i) st) as [klass|] eqn:Hname;
     [first [rewrite (ensureClass_of_hit (Root i) _ None _ _ Hname) in H
            |rewrite (ensureClass_of_hit (Extends i s) _ None _ _ Hname) in H];
      injection H as <- <-; apply Hcached; eauto|]);
    first [rewrite (ensureClass_of_miss (Root i) _ None _ Hname) in H
          |rewrite (ensureClass_of_miss (Extends i s) _ None _ Hname) in H];
    cbv zeta in H; cbn [info ensureSuperclass] in H.
  - destruct (evalFunction _); [|discriminate H]. injection H as <- <-.
    cbn [ancestry]. constructor; [|constructor].
    eexists. apply getClass_Wrapped.
    rewrite initializeClass_keeps. apply lookup_insert_eq.
  - destruct Hclosed as [Hs Hclosed]. unfold newRef in H.
    set (st1 := set_refs (<[fresh ({[NULL]} ∪ dom (refs st)) := ClassObject s]> (refs st)) st)
      in *.
    destruct (ensureClass_of s (fresh ({[NULL]} ∪ dom (refs st))) None st1)
      as [[ks|msg] st0] eqn:Es; [|discriminate H].
    pose proof (IH _ st1 ks st0 (chainClosed_ext s st st1 eq_refl Hclosed) Hs Es) as Hup.
    destruct (evalFunction _); [|discriminate H]. injection H as <- <-.
    cbn [ancestry].
    assert (Hgrow : forall a, is_Some (getClass a st0) ->
              is_Some (getClass a
                (initializeClass (Extends i s) classHandle (jc_name i)
                   (allocated (deleteLocalRef (fresh ({[NULL]} ∪ dom (refs st))) st0))
                   (Some ks)
                   (set_classes
                      (<[jc_name i := allocated
                           (deleteLocalRef (fresh ({[NULL]} ∪ dom (refs st))) st0)]>
                         (classes (deleteLocalRef (fresh ({[NULL]} ∪ dom (refs st))) st0)))
                      (set_allocated
                         (Pos.succ (allocated
                            (deleteLocalRef (fresh ({[NULL]} ∪ dom (refs st))) st0)))
                         (deleteLocalRef (fresh ({[NULL]} ∪ dom (refs st))) st0)))))).
    { intros x. apply (getClass_grows x st0 (jc_name i) (allocated st0)).
      rewrite initializeClass_keeps. reflexivity. }
    constructor.
    + eexists. apply getClass_Wrapped.
      rewrite initializeClass_keeps. apply lookup_insert_eq.
    + eapply Forall_impl; [exact Hup|]. exact Hgrow.
Qed.

Lemma initializeClass_klass c classHandle name klass superKlass st :
  exists K,
    klasses (initializeClass c classHandle name klass superKlass st) !! klass = Some K /\
    k_name K = name /\ k_className K = basename name /\ k_super K = superKlass /\
    length (k_methods K) = length (declaredMethods (info c)) /\
    length (k_fields K) = length (declaredFields (info c)).
Proof.
  unfold initializeClass.
  destruct (newGlobalRef classHandle st) as [handle st1].
  assert (Hlen : forall objects s, length (fst (globalRefs objects s)) = length objects).
  { induction objects as [|o rest IH]; intros s; [reflexivity|].
    cbn [globalRefs]. unfold newRef. specialize (IH (set_refs
      (<[fresh ({[NULL]} ∪ dom (refs s)) := o]> (refs s)) s)).
    destruct (globalRefs rest _) as [hs s']. cbn [fst length] in *. lia. }
  pose proof (Hlen (map (fun nm => MethodObject (snd nm)) (declaredMethods (info c))) st1)
    as Hm.
  destruct (globalRefs _ st1) as [methodHandles st2].
  pose proof (Hlen (map FieldObject (declaredFields (info c))) st2) as Hf.
  destruct (globalRefs _ st2) as [fieldHandles st3].
  cbn [fst] in Hm, Hf. rewrite length_map in Hm, Hf.
  eexists. cbn [klasses set_klasses]. rewrite lookup_insert_eq.
  split; [reflexivity|]. cbn. auto.
Qed.

(** When [ensureClass] returns after a miss, the whole chain of
    superclasses is wrapped: the class is stored in [classes] under its
    name, [classes] gives a value for the name of every superclass
    (given that, before, a class of the chain found in [classes] had
    its own superclasses found there), and the new wrapper carries the
    name, the simple name and, as its parent, what [classes] gives for
    its direct superclass (none for a class without superclass). *)
Theorem superclasses_are_cached (c : JClass) (classHandle : ptr)
    (cachedName : option string) (st st' : Factory) (klass : ClassesValue) :
  let name := match cachedName with Some n => n | None => jc_name (info c) end in
  getClass name st = None ->
  chainClosed c st ->
  ensureClass_of c classHandle cachedName st = (Ok klass, st') ->
  exists k K,
    klass = Wrapped k /\
    classes st' !! name = Some k /\
    Forall (fun a => is_Some (getClass a st')) (superNames c) /\
    klasses st' !! k = Some K /\
    k_name K = name /\ k_className K = basename name /\
    match c with
    | Root _ => k_super K = None
    | Extends _ s =>
        is_Some (k_super K) /\
        (name <> jc_name (info s) -> k_super K = getClass (jc_name (info s)) st')
    end.
Proof.
  intros name Hmiss Hclosed H.
  rewrite (ensureClass_of_miss _ _ _ _ Hmiss) in H. cbv zeta in H. fold name in H.
  destruct c as [i | i s]; cbn [ensureSuperclass] in H.
  - destruct (evalFunction _); [|discriminate H]. injection H as <- <-.
    destruct (initializeClass_klass (Root i) classHandle name (allocated st) None
                (set_classes (<[name := allocated st]> (classes st))
                   (set_allocated (Pos.succ (allocated st)) st)))
      as (K & HK & Hn & Hc & Hs & _).
    exists (allocated st), K. split; [reflexivity|].
    split; [rewrite initializeClass_keeps; apply lookup_insert_eq|].
    split; [constructor|]. auto.
  - destruct Hclosed as [Hs Hclosed]. unfold newRef in H.
    set (st1 := set_refs (<[fresh ({[NULL]} ∪ dom (refs st)) := ClassObject s]> (refs st)) st)
      in *.
    destruct (ensureClass_of s (fresh ({[NULL]} ∪ dom (refs st))) None st1)
      as [[ks|msg] st0] eqn:Es; [|discriminate H].
    pose proof (ensureClass_of_closes s _ st1 ks st0
                  (chainClosed_ext s st st1 eq_refl Hclosed) Hs Es) as Hup.
    pose proof (ensureClass_of_cached s _ None _ ks st0 Es) as Hks.
    destruct (evalFunction _); [|discriminate H]. injection H as <- <-.
    cbn [superNames].
    match goal with
    | |- context [initializeClass ?c ?h ?n ?k ?sk ?s] =>
        destruct (initializeClass_klass c h n k sk s) as (K & HK & Hn & Hc & Hsup & _);
        assert (Hkeep : classes (initializeClass c h n k sk s)
                        = <[name := allocated st0]> (classes st0))
          by (rewrite initializeClass_keeps; reflexivity);
        set (sti := initializeClass c h n k sk s) in *
    end.
    exists (allocated st0), K. split; [reflexivity|].
    split; [rewrite Hkeep; apply lookup_insert_eq|].
    split; [|split; [exact HK|split; [exact Hn|split; [exact Hc|]]]].
    + eapply Forall_impl; [exact Hup|]. intros x.
      apply (getClass_grows x st0 name (allocated st0)). exact Hkeep.
    + rewrite Hsup. split; [eauto|].
      intros Hne. rewrite <- Hks. unfold getClass. rewrite Hkeep.
      rewrite lookup_insert_ne by exact Hne. reflexivity.
Qed.

Lemma superclasses_are_cached_witness :
  exists k K,
    Wrapped 2 = Wrapped k /\
    classes (snd (ensureClass_of K_class 1 (Some "com.example.K"%string)
                    (snd (newRef (ClassObject K_class) freshFactory))))
      !! "com.example.K"%string = Some k /\
    Forall (fun a => is_Some
              (getClass a (snd (ensureClass_of K_class 1 (Some "com.example.K"%string)
                                  (snd (newRef (ClassObject K_class) freshFactory))))))
      ["java.lang.Object"%string] /\
    klasses (snd (ensureClass_of K_class 1 (Some "com.example.K"%string)
                    (snd (newRef (ClassObject K_class) freshFactory)))) !! k = Some K /\
    k_name K = "com.example.K"%string /\ k_className K = "K"%string /\
    is_Some (k_super K) /\
    ("com.example.K"%string <> "java.lang.Object"%string ->
     k_super K
     = getClass "java.lang.Object"
         (snd (ensureClass_of K_class 1 (Some "com.example.K"%string)
                 (snd (newRef (ClassObject K_class) freshFactory))))).
Proof.
  apply (superclasses_are_cached K_class 1 (Some "com.example.K"%string)
           (snd (newRef (ClassObject K_class) freshFactory))
           (snd (ensureClass_of K_class 1 (Some "com.example.K"%string)
                   (snd (newRef (ClassObject K_class) freshFactory))))
           (Wrapped 2)).
  - reflexivity.
  - simpl. split; [|exact I]. intros [k Hk]. vm_compute in Hk. discriminate Hk.
  - vm_compute. reflexivity.
Defined.

(** ** References pinned by a wrapper object *)

Lemma newGlobalRef_cases h st :
  (exists o, refs st !! h = Some o /\
     refs st !! fst (newGlobalRef h st) = None /\
     fst (newGlobalRef h st) <> NULL /\
     refs (snd (newGlobalRef h st)) = <[fst (newGlobalRef h st) := o]> (refs st))
  \/ (refs st !! h = None /\ fst (newGlobalRef h st) = NULL /\
      refs (snd (newGlobalRef h st)) = refs st).
Proof.
  unfold newGlobalRef. destruct (refs st !! h) as [o|] eqn:E.
  - left. exists o. destruct (newRef_fresh o st) as [Hf Hn].
    repeat split; assumption.
  - right. repeat split.
Qed.

(** The destructor of a wrapper object undoes what its constructor did
    to the reference table: the constructor pins the class, and the
    object if there is one, with new global references, and the
    destructor deletes exactly these. *)
Theorem wrapper_destructor_releases (C : positive) (classHandle : ptr)
    (handle : option ptr) (st st1 : Factory) (w : Wrapper) :
  refs st !! NULL = None ->
  construct C classHandle handle st = (w, st1) ->
  refs (destructorOf w st1) = refs st.
Proof.
  intros H0 H. unfold construct in H.
  pose proof (newGlobalRef_cases classHandle st) as Hc.
  destruct (newGlobalRef classHandle st) as [ch sa]. cbn [fst snd] in Hc.
  assert (Hsa0 : refs sa !! NULL = None).
  { destruct Hc as [(o & _ & _ & Hn & ->) | (_ & _ & ->)]; [|exact H0].
    rewrite lookup_insert_ne by exact Hn. exact H0. }
  assert (Hrel : delete ch (refs sa) = refs st).
  { destruct Hc as [(o & _ & Hf & Hn & ->) | (_ & -> & ->)];
      [apply delete_insert_id; exact Hf | apply delete_id; exact H0]. }
  destruct handle as [h|].
  - pose proof (newGlobalRef_cases h sa) as Hh.
    destruct (newGlobalRef h sa) as [g sb]. cbn [fst snd] in Hh.
    assert (Hrel' : delete g (refs sb) = refs sa).
    { destruct Hh as [(o & _ & Hf & Hn & ->) | (_ & -> & ->)];
        [apply delete_insert_id; exact Hf | apply delete_id; exact Hsa0]. }
    unfold newObject in H. injection H as <- <-.
    unfold destructorOf, makeHandleDestructor. simpl.
    rewrite Hrel', Hrel. reflexivity.
  - unfold newObject in H. injection H as <- <-.
    unfold destructorOf, makeHandleDestructor. simpl.
    exact Hrel.
Qed.

Lemma wrapper_destructor_releases_witness :
  refs (destructorOf (fst (construct 2 4 (Some 8) (snd withObject)))
          (snd (construct 2 4 (Some 8) (snd withObject))))
  = refs (snd withObject).
Proof.
  apply (wrapper_destructor_releases 2 4 (Some 8) (snd withObject)).
  - vm_compute. reflexivity.
  - destruct (construct 2 4 (Some 8) (snd withObject)); reflexivity.
Defined.

Lemma newRef_preserves o st a o' :
  refs st !! a = Some o' -> refs (snd (newRef o st)) !! a = Some o'.
Proof.
  intros Ha. rewrite newRef_refs. rewrite lookup_insert_ne; [exact Ha|].
  intros <-. destruct (newRef_fresh o st) as [Hf _]. congruence.
Qed.

Lemma globalRefs_preserves objects :
  forall st a o,
    refs st !! a = Some o -> refs (snd (globalRefs objects st)) !! a = Some o.
Proof.
  induction objects as [|x rest IH]; intros st a o Ha; [exact Ha|].
  cbn [globalRefs].
  pose proof (newRef_preserves x st a o Ha) as H1.
  destruct (newRef x st) as [h st1]. cbn [snd] in H1.
  specialize (IH st1 a o H1).
  destruct (globalRefs rest st1) as [hs st2]. exact IH.
Qed.

(** [initializeClass] pins the class with a new global reference and
    keeps the references that are live. *)
Lemma initializeClass_refs c classHandle name klass superKlass st o :
  refs st !! classHandle = Some o ->
  (forall a o', refs st !! a = Some o' ->
     refs (initializeClass c classHandle name klass superKlass st) !! a = Some o') /\
  exists K,
    klasses (initializeClass c classHandle name klass superKlass st) !! klass = Some K /\
    k_name K = name /\
    refs (initializeClass c classHandle name klass superKlass st) !! k_handle K = Some o /\
    k_handle K <> classHandle.
Proof.
  intros Hh. unfold initializeClass.
  pose proof (newGlobalRef_cases classHandle st) as Hc.
  pose proof (newGlobalRef_preserves classHandle st) as Hp.
  destruct (newGlobalRef classHandle st) as [handle st1]. cbn [fst snd] in Hc, Hp.
  destruct Hc as [(o1 & Ho1 & Hf & Hn & Hr) | (Hnone & _)]; [|congruence].
  assert (o1 = o) by congruence. subst o1.
  assert (Hh1 : refs st1 !! handle = Some o) by (rewrite Hr; apply lookup_insert_eq).
  pose proof (globalRefs_preserves
                (map (fun nm => MethodObject (snd nm)) (declaredMethods (info c))) st1) as Hp2.
  destruct (globalRefs _ st1) as [methodHandles st2]. cbn [snd] in Hp2.
  pose proof (globalRefs_preserves (map FieldObject (declaredFields (info c))) st2) as Hp3.
  destruct (globalRefs _ st2) as [fieldHandles st3]. cbn [snd] in Hp3.
  cbn [refs klasses set_klasses]. split.
  - intros a o' Ha. apply Hp3, Hp2, Hp. exact Ha.
  - eexists. rewrite lookup_insert_eq. split; [reflexivity|]. cbn [k_name k_handle].
    split; [reflexivity|]. split; [apply Hp3, Hp2; exact Hh1 | congruence].
Qed.

Lemma ensureClass_of_preserves_refs c :
  forall classHandle cachedName st a o,
    refs st !! classHandle = Some (ClassObject c) ->
    refs st !! a = Some o ->
    refs (snd (ensureClass_of c classHandle cachedName st)) !! a = Some o.
Proof.
  induction c as [i | i s IH]; intros classHandle cachedName st a o Hh Ha.
  - destruct (getClass (match cachedName with
                        | Some x => x
                        | None => jc_name (info (Root i))
                        end) st) as [klass|] eqn:Hname;
      [rewrite (ensureClass_of_hit (Root i) _ cachedName _ _ Hname); exact Ha|].
    rewrite (ensureClass_of_miss (Root i) _ cachedName _ Hname). cbv zeta.
    cbn [ensureSuperclass].
    destruct (evalFunction _); [|exact Ha].
    cbn [snd].
    apply (initializeClass_refs (Root i) classHandle _ _ None _ (ClassObject (Root i)));
      [exact Hh | exact Ha].
  - destruct (getClass (match cachedName with
                        | Some x => x
                        | None => jc_name (info (Extends i s))
                        end) st) as [klass|] eqn:Hname;
      [rewrite (ensureClass_of_hit (Extends i s) _ cachedName _ _ Hname); exact Ha|].
    rewrite (ensureClass_of_miss (Extends i s) _ cachedName _ Hname). cbv zeta.
    cbn [ensureSuperclass].
    pose proof (newRef_fresh (ClassObject s) st) as [Hfresh _].
    pose proof (newRef_preserves (ClassObject s) st) as Hp.
    pose proof (newRef_refs (ClassObject s) st) as Hr.
    destruct (newRef (ClassObject s) st) as [superHandle st1]. cbn [fst snd] in *.
    assert (Hsh : refs st1 !! superHandle = Some (ClassObject s))
      by (rewrite Hr; apply lookup_insert_eq).
    pose proof (IH superHandle None st1 a o Hsh (Hp a o Ha)) as Ha2.
    pose proof (IH superHandle None st1 classHandle _ Hsh (Hp _ _ Hh)) as Hh2.
    assert (Hne : forall x ox, refs st !! x = Some ox -> superHandle <> x)
      by (intros x ox Hx ->; congruence).
    destruct (ensureClass_of s superHandle None st1) as [[ks|msg] st2]; cbn [snd] in *.
    + destruct (evalFunction _).
      * cbn [snd].
        apply (initializeClass_refs (Extends i s) classHandle _ _ (Some ks) _
                 (ClassObject (Extends i s))).
        -- cbn [refs set_classes set_allocated deleteLocalRef set_refs].
           rewrite lookup_delete_ne by exact (Hne _ _ Hh). exact Hh2.
        -- cbn [refs set_classes set_allocated deleteLocalRef set_refs].
           rewrite lookup_delete_ne by exact (Hne _ _ Ha). exact Ha2.
      * cbn [snd refs deleteLocalRef set_refs].
        rewrite lookup_delete_ne by exact (Hne _ _ Ha). exact Ha2.
    + cbn [snd refs deleteLocalRef set_refs].
      rewrite lookup_delete_ne by exact (Hne _ _ Ha). exact Ha2.
Qed.

Lemma ensureClass_of_pins c classHandle cachedName st klass st' :
  getClass (match cachedName with Some n => n | None => jc_name (info c) end) st = None ->
  refs st !! classHandle = Some (ClassObject c) ->
  ensureClass_of c classHandle cachedName st = (Ok klass, st') ->
  exists k K,
    klass = Wrapped k /\
    klasses st' !! k = Some K /\
    k_name K = (match cachedName with Some n => n | None => jc_name (info c) end) /\
    refs st' !! k_handle K = Some (ClassObject c) /\
    k_handle K <> classHandle /\
    refs st' !! classHandle = Some (ClassObject c).
Proof.
  set (name := match cachedName with Some n => n | None => _ end).
  intros Hmiss Hh H. rewrite (ensureClass_of_miss _ _ _ _ Hmiss) in H. cbv zeta in H.
  fold name in H.
  assert (Hsuper : forall sk sx,
            refs sx !! classHandle = Some (ClassObject c) ->
            (Ok (Wrapped (allocated sx)),
             initializeClass c classHandle name (allocated sx) sk
               (set_classes (<[name := allocated sx]> (classes sx))
                  (set_allocated (Pos.succ (allocated sx)) sx))) = (Ok klass, st') ->
            exists k K,
              klass = Wrapped k /\
              klasses st' !! k = Some K /\ k_name K = name /\
              refs st' !! k_handle K = Some (ClassObject c) /\
              k_handle K <> classHandle /\
              refs st' !! classHandle = Some (ClassObject c)).
  { intros sk sx Hx E. injection E as <- <-.
    match goal with
    | |- context [initializeClass ?c ?h ?n ?k ?s ?x] =>
        destruct (initializeClass_refs c h n k s x (ClassObject c) Hx)
          as (Hpres & K & HK & Hn & Hr & Hne)
    end.
    exists (allocated sx), K. repeat split; try assumption. apply Hpres. exact Hx. }
  destruct c as [i | i s]; cbn [ensureSuperclass] in H.
  - destruct (evalFunction _); [|discriminate H].
    apply (Hsuper None st Hh H).
  - pose proof (newRef_fresh (ClassObject s) st) as [Hfresh _].
    pose proof (newRef_preserves (ClassObject s) st _ _ Hh) as Hp.
    pose proof (newRef_refs (ClassObject s) st) as Hr.
    destruct (newRef (ClassObject s) st) as [superHandle st1]. cbn [fst snd] in *.
    assert (Hsh : refs st1 !! superHandle = Some (ClassObject s))
      by (rewrite Hr; apply lookup_insert_eq).
    pose proof (ensureClass_of_preserves_refs s superHandle None st1 classHandle _ Hsh Hp)
      as Hh2.
    destruct (ensureClass_of s superHandle None st1) as [[ks|msg] st2]; cbn [snd] in *;
      [|discriminate H].
    destruct (evalFunction _); [|discriminate H].
    apply (Hsuper (Some ks) (deleteLocalRef superHandle st2)); [|exact H].
    cbn [refs deleteLocalRef set_refs].
    rewrite lookup_delete_ne; [exact Hh2 | intros ->; congruence].
Qed.

(** On a miss, without class loader, a [use(X)] that returns has found
    the class by the slash form of [X] and returns a view of it: an
    object built by a class wrapper, without [$handle], whose
    [$classHandle] denotes that class, and whose class wrapper carries
    the name [X] and a handle of its own for the class. *)
Theorem use_pins_the_class (X : string) (st st' : Factory) (v : UseValue) :
  getClass X st = None ->
  use None X st = (Ok v, st') ->
  exists a c K,
    v = ClassView a /\
    List.find (fun c => String.eqb (slashes (jc_name (info c))) (slashes X))
      (loadedClasses st) = Some c /\
    w_handle a = None /\
    refs st' !! w_classHandle a = Some (ClassObject c) /\
    klasses st' !! w_classWrapper a = Some K /\
    k_name K = X /\
    refs st' !! k_handle K = Some (ClassObject c).
Proof.
  intros Hmiss H. unfold use in H. rewrite Hmiss in H. unfold findClass in H.
  destruct (List.find _ (loadedClasses st)) as [c|] eqn:Hfind; [|discriminate H].
  pose proof (newRef_refs (ClassObject c) st) as Hr.
  destruct (newRef (ClassObject c) st) as [handle st1] eqn:E1. cbn [fst snd] in Hr.
  assert (Hh : refs st1 !! handle = Some (ClassObject c))
    by (rewrite Hr; apply lookup_insert_eq).
  assert (Hmiss1 : getClass X st1 = None).
  { pose proof (newRef_keeps (ClassObject c) st) as (Hc & _).
    rewrite E1 in Hc. cbn [snd] in Hc. rewrite (getClass_ext X st1 st Hc). exact Hmiss. }
  unfold ensureClass in H. rewrite Hh in H.
  destruct (ensureClass_of c handle (Some X) st1) as [[C|msg] st2] eqn:E2;
    [|discriminate H].
  destruct (ensureClass_of_pins c handle (Some X) st1 C st2 Hmiss1 Hh E2)
    as (k & K & -> & HK & Hn & Hkh & Hne & _).
  unfold newC, instantiate in H.
  cbn [klasses deleteLocalRef set_refs] in H. rewrite HK in H.
  unfold construct in H.
  assert (Hkh3 : refs (deleteLocalRef handle st2) !! k_handle K = Some (ClassObject c)).
  { cbn [refs deleteLocalRef set_refs]. rewrite lookup_delete_ne by congruence. exact Hkh. }
  unfold newGlobalRef in H. rewrite Hkh3 in H.
  pose proof (newRef_refs (ClassObject c) (deleteLocalRef handle st2)) as Hr3.
  pose proof (newRef_preserves (ClassObject c) (deleteLocalRef handle st2) _ _ Hkh3) as Hp3.
  pose proof (newRef_keeps (ClassObject c) (deleteLocalRef handle st2)) as (_ & Hk3 & _).
  destruct (newRef (ClassObject c) (deleteLocalRef handle st2)) as [ch st3].
  cbn [fst snd] in *. unfold newObject in H. injection H as <- <-.
  eexists. exists c, K. split; [reflexivity|].
  cbn [w_handle w_classHandle w_classWrapper refs klasses set_allocated].
  split; [reflexivity|]. split; [reflexivity|].
  split; [rewrite Hr3; apply lookup_insert_eq|].
  split; [rewrite Hk3; exact HK|]. split; [exact Hn | exact Hp3].
Qed.

Lemma use_pins_the_class_witness :
  exists a c K,
    ClassView K_view = ClassView a /\
    List.find (fun c => String.eqb (slashes (jc_name (info c))) (slashes "com.example.K"))
      (loadedClasses freshFactory) = Some c /\
    w_handle a = None /\
    refs (snd usedOnce) !! w_classHandle a = Some (ClassObject c) /\
    klasses (snd usedOnce) !! w_classWrapper a = Some K /\
    k_name K = "com.example.K"%string /\
    refs (snd usedOnce) !! k_handle K = Some (ClassObject c).
Proof.
  apply (use_pins_the_class "com.example.K" freshFactory (snd usedOnce) (ClassView K_view)).
  - reflexivity.
  - vm_compute. reflexivity.
Defined.

(** ** What [dispose] leaves behind *)

Lemma setImplementation_keeps api self fn st :
  classes (snd (setImplementation api self fn st)) = classes st /\
  klasses (snd (setImplementation api self fn st)) = klasses st /\
  refs (snd (setImplementation api self fn st)) = refs st /\
  patchedClasses (snd (setImplementation api self fn st)) = patchedClasses st.
Proof.
  unfold setImplementation.
  destruct (methods st !! self) as [ms|] eqn:Hm; [|repeat split].
  destruct (ms_type ms); [repeat split | |];
    (destruct (flavor api);
     [ unfold replaceArtImplementation; rewrite Hm;
       destruct fn as [fn|]; destruct (artOriginalMethodInfo ms);
       try (repeat split; fail);
       cbn [mem set_methods];
       try (destruct (findQuickGenericJniTrampoline api (mem st)));
       repeat split
     | unfold replaceDalvikImplementation; rewrite Hm;
       destruct fn as [fn|]; destruct (dalvikOriginalMethod ms);
       repeat split ]).
Qed.

Lemma restoreTargetMethods_keeps api keys :
  forall targets st,
    classes (snd (restoreTargetMethods api keys targets st)) = classes st /\
    klasses (snd (restoreTargetMethods api keys targets st)) = klasses st /\
    refs (snd (restoreTargetMethods api keys targets st)) = refs st /\
    patchedClasses (snd (restoreTargetMethods api keys targets st)) = patchedClasses st.
Proof.
  induction keys as [|methodId rest IH]; intros targets st; [repeat split|].
  cbn [restoreTargetMethods].
  destruct (lookupKey methodId targets) as [method|]; [|apply IH].
  pose proof (setImplementation_keeps api method None st) as (H1 & H2 & H3 & H4).
  destruct (setImplementation api method None st) as [[u|msg] st1]; cbn [snd] in *.
  - destruct (IH (deleteKey methodId targets) st1) as (H5 & H6 & H7 & H8).
    rewrite H5, H6, H7, H8. auto.
  - auto.
Qed.

Lemma restorePatchedClasses_keeps api keys :
  forall st,
    classes (snd (restorePatchedClasses api keys st)) = classes st /\
    klasses (snd (restorePatchedClasses api keys st)) = klasses st /\
    refs (snd (restorePatchedClasses api keys st)) = refs st.
Proof.
  induction keys as [|entryId rest IH]; intros st; [repeat split|].
  cbn [restorePatchedClasses].
  destruct (lookupKey entryId (patchedClasses st)) as [entry|]; [|apply IH].
  match goal with
  | |- context [restoreTargetMethods api ?k ?t ?s] =>
      pose proof (restoreTargetMethods_keeps api k t s) as (H1 & H2 & H3 & _);
      destruct (restoreTargetMethods api k t s) as [[[u|msg] remaining] st1]
  end; cbn [snd classes klasses refs set_mem] in *.
  - match goal with
    | |- context [restorePatchedClasses api rest ?s] =>
        destruct (IH s) as (H4 & H5 & H6)
    end.
    rewrite H4, H5, H6. cbn [classes klasses refs set_patchedClasses]. auto.
  - cbn [classes klasses refs set_patchedClasses]. auto.
Qed.

Lemma lookupKey_None {A} key (d : list (ptr * A)) :
  lookupKey key d = None -> ~ In key (map fst d).
Proof.
  induction d as [|[k v] d IH]; simpl; [tauto|].
  destruct (Z.eqb_spec k key) as [->|Hne]; [discriminate|].
  intros H [E|Hin]; [congruence | exact (IH H Hin)].
Qed.

Lemma deleteKey_keys {A} key (d : list (ptr * A)) k :
  In k (map fst (deleteKey key d)) -> In k (map fst d) /\ k <> key.
Proof.
  unfold deleteKey. rewrite !in_map_iff.
  intros ([k' v] & <- & Hin). apply filter_In in Hin. destruct Hin as [Hin Hne].
  split; [exists (k', v); split; [reflexivity | exact Hin]|].
  simpl in *. apply negb_true_iff, Z.eqb_neq in Hne. exact Hne.
Qed.

(** A loop over the keys of [patchedClasses] that returns has deleted
    every entry. *)
Lemma restorePatchedClasses_ok api keys :
  forall st st',
    (forall k, In k (map fst (patchedClasses st)) -> In k keys) ->
    restorePatchedClasses api keys st = (Ok tt, st') -> patchedClasses st' = [].
Proof.
  induction keys as [|entryId rest IH]; intros st st' Hkeys H.
  - injection H as <-.
    destruct (patchedClasses st) as [|[k e] d]; [reflexivity|].
    destruct (Hkeys k (or_introl eq_refl)).
  - cbn [restorePatchedClasses] in H.
    destruct (lookupKey entryId (patchedClasses st)) as [entry|] eqn:Hl.
    + match type of H with
      | context [restoreTargetMethods api ?k ?t ?s] =>
          pose proof (restoreTargetMethods_keeps api k t s) as (_ & _ & _ & Hp);
          destruct (restoreTargetMethods api k t s) as [[[u|msg] remaining] st1]
      end; [|discriminate H].
      cbn [snd patchedClasses set_mem] in Hp.
      apply (IH _ _) in H; [exact H|].
      cbn [patchedClasses set_patchedClasses]. rewrite Hp.
      intros k Hk. apply deleteKey_keys in Hk. destruct Hk as [Hk Hne].
      destruct (Hkeys k Hk) as [E|Hin]; [congruence | exact Hin].
    + apply (IH _ _) in H; [exact H|].
      intros k Hk. destruct (Hkeys k Hk) as [E|Hin]; [|exact Hin].
      subst k. exfalso. exact (lookupKey_None _ _ Hl Hk).
Qed.

Lemma In_insertIndex x y l : In y (insertIndex x l) <-> y = x \/ In y l.
Proof.
  induction l as [|z l IH]; simpl; [intuition congruence|].
  destruct (fst x <=? fst z); simpl; [intuition congruence|].
  rewrite IH. intuition congruence.
Qed.

(** The loop [for (key in d)] visits every key of [d]. *)
Lemma forInKeys_complete {A} (d : list (ptr * A)) k :
  In k (map fst d) -> In k (forInKeys d).
Proof.
  intros Hk. unfold forInKeys. apply in_or_app.
  apply in_map_iff in Hk. destruct Hk as ([k' v] & <- & Hin). simpl.
  destruct (arrayIndex k') as [i|] eqn:Hi.
  - left. apply in_map_iff. exists (i, k'). split; [reflexivity|].
    assert (Hsort : forall l y, In y l -> In y (fold_right insertIndex [] l)).
    { induction l as [|z l IH]; intros y Hy; [destruct Hy|].
      simpl. apply In_insertIndex. destruct Hy as [->|Hy]; [left; reflexivity|].
      right. apply IH. exact Hy. }
    apply Hsort. clear Hsort. induction d as [|[k0 v0] d IH]; [destruct Hin|].
    cbn [omap list_omap fst].
    destruct Hin as [E|Hin].
    + injection E as -> ->. rewrite Hi. left. reflexivity.
    + destruct (arrayIndex k0); [right|]; apply IH; exact Hin.
  - right. apply in_map_iff. exists (k', v). split; [reflexivity|].
    apply filter_In. split; [exact Hin|]. simpl. rewrite Hi. reflexivity.
Qed.

Lemma deleteGlobalRefs_None hs :
  forall st a,
    (refs st !! a = None \/ In a hs) ->
    refs (fold_left (fun st h => deleteGlobalRef h st) hs st) !! a = None.
Proof.
  induction hs as [|h hs IH]; intros st a Ha; cbn [fold_left].
  - destruct Ha as [Ha | []]. exact Ha.
  - apply IH. cbn [refs deleteGlobalRef set_refs].
    destruct (decide (h = a)) as [->|Hne].
    + left. apply lookup_delete_eq.
    + rewrite lookup_delete_ne by exact Hne.
      destruct Ha as [Ha | [Ha | Ha]]; [left; exact Ha | congruence | right; exact Ha].
Qed.

Lemma deleteGlobalRefs_keeps hs :
  forall st,
    classes (fold_left (fun st h => deleteGlobalRef h st) hs st) = classes st /\
    klasses (fold_left (fun st h => deleteGlobalRef h st) hs st) = klasses st /\
    patchedClasses (fold_left (fun st h => deleteGlobalRef h st) hs st) = patchedClasses st.
Proof.
  induction hs as [|h hs IH]; intros st; [repeat split|].
  cbn [fold_left]. destruct (IH (deleteGlobalRef h st)) as (H1 & H2 & H3).
  rewrite H1, H2, H3. repeat split.
Qed.

(** One step of the loop over [classes]: the name leaves [classes], the
    handles of its wrapper leave the reference table, and what was
    released stays released. *)
Lemma releaseClass_step st name klass :
  classes (releaseClass st (name, klass)) = delete name (classes st) /\
  klasses (releaseClass st (name, klass)) = klasses st /\
  patchedClasses (releaseClass st (name, klass)) = patchedClasses st /\
  (forall a, refs st !! a = None -> refs (releaseClass st (name, klass)) !! a = None) /\
  (forall K, klasses st !! klass = Some K ->
     forall a, a = k_handle K \/ In a (k_methods K) \/ In a (k_fields K) ->
       refs (releaseClass st (name, klass)) !! a = None).
Proof.
  unfold releaseClass. cbn [fst snd classes klasses patchedClasses refs set_classes].
  destruct (klasses st !! klass) as [K|] eqn:HK.
  - set (s1 := fold_left (fun st m => deleteGlobalRef m st) (k_methods K) st).
    set (s2 := fold_left (fun st f => deleteGlobalRef f st) (k_fields K) s1).
    destruct (deleteGlobalRefs_keeps (k_methods K) st) as (A1 & A2 & A3).
    destruct (deleteGlobalRefs_keeps (k_fields K) s1) as (B1 & B2 & B3).
    fold s1 in A1, A2, A3. fold s2 in B1, B2, B3.
    cbn [classes klasses patchedClasses refs deleteGlobalRef set_refs].
    rewrite B1, A1, B2, A2, B3, A3.
    assert (Hstay : forall a, refs st !! a = None -> refs s2 !! a = None).
    { intros a Ha. apply deleteGlobalRefs_None. left.
      apply deleteGlobalRefs_None. left. exact Ha. }
    repeat split.
    + intros a Ha. destruct (decide (k_handle K = a)) as [->|Hne];
        [apply lookup_delete_eq | rewrite lookup_delete_ne by exact Hne; auto].
    + intros K' HK' a Ha. injection HK' as <-.
      destruct (decide (k_handle K = a)) as [->|Hne]; [apply lookup_delete_eq|].
      rewrite lookup_delete_ne by exact Hne.
      destruct Ha as [Ha | [Ha | Ha]]; [congruence | |].
      * apply deleteGlobalRefs_None. left. apply deleteGlobalRefs_None. right. exact Ha.
      * apply deleteGlobalRefs_None. right. exact Ha.
  - repeat split; try (intros; assumption). intros K HK'. discriminate HK'.
Qed.

Lemma releaseClasses_spec entries :
  forall st,
    let st' := fold_left releaseClass entries st in
    klasses st' = klasses st /\
    patchedClasses st' = patchedClasses st /\
    (forall n, (classes st !! n = None \/ In n (map fst entries)) ->
       classes st' !! n = None) /\
    (forall a, refs st !! a = None -> refs st' !! a = None) /\
    (forall name klass K, In (name, klass) entries -> klasses st !! klass = Some K ->
       forall a, a = k_handle K \/ In a (k_methods K) \/ In a (k_fields K) ->
         refs st' !! a = None).
Proof.
  induction entries as [|[name klass] rest IH]; intros st; cbn [fold_left] in *.
  - repeat split; try (intros; assumption).
    + intros n [Hn | []]. exact Hn.
    + intros ? ? ? [].
  - destruct (releaseClass_step st name klass) as (S1 & S2 & S3 & S4 & S5).
    destruct (IH (releaseClass st (name, klass))) as (I1 & I2 & I3 & I4 & I5).
    cbv zeta in *. split; [congruence|]. split; [congruence|]. split; [|split].
    + intros n Hn. apply I3. rewrite S1.
      destruct (decide (name = n)) as [->|Hne]; [left; apply lookup_delete_eq|].
      rewrite lookup_delete_ne by exact Hne.
      destruct Hn as [Hn | [Hn | Hn]]; [left; exact Hn | simpl in Hn; congruence | right; exact Hn].
    + intros a Ha. apply I4, S4, Ha.
    + intros n k K [Hin | Hin] HK a Ha.
      * injection Hin as <- <-. apply I4. exact (S5 K HK a Ha).
      * apply (I5 n k K Hin); [rewrite S2; exact HK | exact Ha].
Qed.

(** A [dispose] that returns empties [classes] and [patchedClasses] and
    deletes, for every class wrapper that was cached, the global
    references the wrapper had pinned: its class handle and the handles
    of its reflected methods and fields. *)
Theorem dispose_releases_the_cache (api : Api) (st st' : Factory) :
  dispose api st = (Ok tt, st') ->
  classes st' = ∅ /\
  patchedClasses st' = [] /\
  forall name klass K,
    classes st !! name = Some klass ->
    klasses st !! klass = Some K ->
    refs st' !! k_handle K = None /\
    Forall (fun h => refs st' !! h = None) (k_methods K ++ k_fields K).
Proof.
  unfold dispose. cbn [Set_length ToNumber num_gt]. intros H.
  pose proof (restorePatchedClasses_keeps api (forInKeys (patchedClasses st)) st)
    as (Hc & Hk & Hr).
  pose proof (restorePatchedClasses_ok api (forInKeys (patchedClasses st)) st) as Hp.
  destruct (restorePatchedClasses api (forInKeys (patchedClasses st)) st)
    as [[[]|msg] st1]; [|discriminate H].
  injection H as <-. cbn [snd] in *.
  specialize (Hp st1 (forInKeys_complete (patchedClasses st)) eq_refl).
  destruct (releaseClasses_spec (map_to_list (classes st1)) st1) as (R1 & R2 & R3 & R4 & R5).
  cbv zeta in *.
  split; [|split; [congruence|]].
  - apply map_eq. intros n. rewrite lookup_empty. apply R3.
    destruct (classes st1 !! n) as [k|] eqn:Hn; [right | left; reflexivity].
    apply elem_of_map_to_list in Hn. apply list_elem_of_In in Hn.
    apply (in_map fst) in Hn. exact Hn.
  - intros name klass K Hname HK.
    assert (Hin : In (name, klass) (map_to_list (classes st1))).
    { apply list_elem_of_In, elem_of_map_to_list. rewrite Hc. exact Hname. }
    rewrite <- Hk in HK.
    split; [apply (R5 name klass K Hin HK); left; reflexivity|].
    apply List.Forall_forall. intros h Hh. apply in_app_or in Hh.
    apply (R5 name klass K Hin HK). right. exact Hh.
Qed.

Lemma dispose_releases_the_cache_witness :
  classes (snd (dispose artApi (snd usedOnce))) = ∅ /\
  patchedClasses (snd (dispose artApi (snd usedOnce))) = [] /\
  forall name klass K,
    classes (snd usedOnce) !! name = Some klass ->
    klasses (snd usedOnce) !! klass = Some K ->
    refs (snd (dispose artApi (snd usedOnce))) !! k_handle K = None /\
    Forall (fun h => refs (snd (dispose artApi (snd usedOnce))) !! h = None)
      (k_methods K ++ k_fields K).
Proof.
  apply (dispose_releases_the_cache artApi (snd usedOnce)).
  vm_compute. reflexivity.
Defined.

(** ** Installing a replacement *)

Lemma findQuickGenericJniTrampoline_range api m p :
  findQuickGenericJniTrampoline api m = Ok p ->
  0 <= p < 256 ^ Z.of_nat (pointerSize api).
Proof.
  unfold findQuickGenericJniTrampoline.
  destruct (runtimeOffset_classLinker api); [|discriminate].
  destruct (classLinkerOffset_quickGenericJniTrampoline api); [|discriminate].
  destruct (negb (isNull _)); [|discriminate].
  destruct (negb (isNull _)); [|discriminate].
  destruct (negb (isNull _)); [|discriminate].
  intros H. injection H as <-. apply read_le_range.
Qed.

(** The four words written by [patchMethod], when each fits its field,
    are the words [fetchMethod] reads afterwards. *)
Lemma fetch_patch_fitting api methodId s m :
  fieldsDisjoint api ->
  0 <= jniCode s < 256 ^ Z.of_nat (pointerSize api) ->
  0 <= quickCode s < 256 ^ Z.of_nat (pointerSize api) ->
  0 <= interpreterCode s < 256 ^ Z.of_nat (pointerSize api) ->
  let r := fetchMethod api methodId (patchMethod api methodId s m) in
  jniCode r = jniCode s /\
  accessFlags r = accessFlags s mod 256 ^ 4 /\
  quickCode r = quickCode s /\
  interpreterCode r = interpreterCode s.
Proof.
  intros (H1 & H2 & H3 & H4 & H5 & H6) Rj Rq Ri.
  unfold fetchMethod, patchMethod, readPointer, writePointer, readU32, writeU32, apart in *.
  cbn [jniCode accessFlags quickCode interpreterCode].
  split; [|split; [|split]].
  - rewrite !read_write_other by (simpl; lia). rewrite read_write_same.
    apply Z.mod_small. exact Rj.
  - rewrite !read_write_other by (simpl; lia). rewrite read_write_same. reflexivity.
  - rewrite read_write_other by (simpl; lia). rewrite read_write_same.
    apply Z.mod_small. exact Rq.
  - rewrite read_write_same. apply Z.mod_small. exact Ri.
Qed.

(** On ART, a successful assignment of a function to [implementation]
    leaves the method's record with the callback as its JNI code, the
    runtime's generic JNI trampoline as its quick code and the
    interpreter bridge as its interpreter code; of the 32 access flags
    it sets the native and the fast-native flag and leaves the others
    as they were.  The method is in [patchedMethods] and holds the
    callback and the pre-hook snapshot. *)
Theorem art_install_patches_the_record (api : Api) (st : Factory) (self : positive)
    (ms : MethodState) (fn : Z) (trampoline : ptr) :
  flavor api = art ->
  methods st !! self = Some ms ->
  ms_type ms <> CONSTRUCTOR_METHOD ->
  fieldsDisjoint api ->
  findQuickGenericJniTrampoline api (mem st) = Ok trampoline ->
  0 <= NativeCallback api self fn < 256 ^ Z.of_nat (pointerSize api) ->
  0 <= artInterpreterToCompiledCodeBridge api < 256 ^ Z.of_nat (pointerSize api) ->
  exists st1 ms1,
    setImplementation api self (Some fn) st = (Ok tt, st1) /\
    jniCode (fetchMethod api (ms_methodId ms) (mem st1)) = NativeCallback api self fn /\
    quickCode (fetchMethod api (ms_methodId ms) (mem st1)) = trampoline /\
    interpreterCode (fetchMethod api (ms_methodId ms) (mem st1))
      = artInterpreterToCompiledCodeBridge api /\
    (forall i, 0 <= i < 32 ->
       Z.testbit (accessFlags (fetchMethod api (ms_methodId ms) (mem st1))) i
       = Z.testbit (accessFlags (fetchMethod api (ms_methodId ms) (mem st))) i
         || (i =? 8) || (i =? 19)) /\
    self ∈ patchedMethods st1 /\
    methods st1 !! self = Some ms1 /\
    implementation ms1 = Some (NativeCallback api self fn) /\
    artOriginalMethodInfo ms1 = Some (artSnapshot api st ms).
Proof.
  intros Hf Hm Htype Hdisj Htramp Rcb Rbridge.
  pose proof (findQuickGenericJniTrampoline_range api (mem st) trampoline Htramp) as Rt.
  unfold setImplementation. rewrite Hm, Hf.
  assert (Hgo : (match ms_type ms with
                 | CONSTRUCTOR_METHOD =>
                     (Throw "Reimplementing $new is not possible. Please replace implementation of $init instead.", st)
                 | _ => replaceArtImplementation api self (Some fn) st
                 end) = replaceArtImplementation api self (Some fn) st)
    by (destruct (ms_type ms); [congruence | reflexivity | reflexivity]).
  rewrite Hgo. clear Hgo.
  unfold replaceArtImplementation. rewrite Hm.
  cbn [set_methods mem]. rewrite Htramp.
  eexists. eexists. split; [reflexivity|].
  cbn [mem set_mem set_patchedMethods patchedMethods methods set_methods].
  match goal with
  | |- context [patchMethod api ?id ?s ?m] =>
      destruct (fetch_patch_fitting api id s m Hdisj Rcb Rt Rbridge) as (A1 & A2 & A3 & A4)
  end.
  cbv zeta in A1, A2, A3, A4. cbn [jniCode accessFlags quickCode interpreterCode] in *.
  cbn [ms_methodId set_implementation set_artOriginalMethodInfo] in *.
  split; [exact A1|]. split; [exact A3|]. split; [exact A4|].
  split.
  - intros i Hi. rewrite A2.
    change (256 ^ 4) with (2 ^ 32). rewrite Z.mod_pow2_bits_low by lia.
    rewrite !Z.lor_spec. unfold fetchMethod. cbn [accessFlags]. unfold kAccNative, kAccFastNative.
    change 256 with (2 ^ 8). change 524288 with (2 ^ 19).
    rewrite !Z.pow2_bits_eqb by lia.
    rewrite (Z.eqb_sym 8 i), (Z.eqb_sym 19 i). reflexivity.
  - split; [apply elem_of_union; left; apply elem_of_singleton; reflexivity|].
    rewrite lookup_insert_eq. split; [reflexivity|]. split; [reflexivity|].
    unfold artSnapshot. cbn [artOriginalMethodInfo set_implementation set_artOriginalMethodInfo].
    destruct (artOriginalMethodInfo ms); reflexivity.
Qed.

Lemma art_install_patches_the_record_witness :
  exists st1 ms1,
    setImplementation artApi 1 (Some 7) hookFactory = (Ok tt, st1) /\
    jniCode (fetchMethod artApi 4096 (mem st1)) = 36871 /\
    quickCode (fetchMethod artApi 4096 (mem st1)) = 20480 /\
    interpreterCode (fetchMethod artApi 4096 (mem st1)) = 28672 /\
    (forall i, 0 <= i < 32 ->
       Z.testbit (accessFlags (fetchMethod artApi 4096 (mem st1))) i
       = Z.testbit (accessFlags (fetchMethod artApi 4096 (mem hookFactory))) i
         || (i =? 8) || (i =? 19)) /\
    1%positive ∈ patchedMethods st1 /\
    methods st1 !! 1%positive = Some ms1 /\
    implementation ms1 = Some 36871 /\
    artOriginalMethodInfo ms1 = Some (artSnapshot artApi hookFactory exampleMethod).
Proof.
  apply (art_install_patches_the_record artApi hookFactory 1 exampleMethod 7 20480).
  - reflexivity.
  - reflexivity.
  - discriminate.
  - unfold fieldsDisjoint, apart. simpl. lia.
  - vm_compute. reflexivity.
  - simpl. lia.
  - simpl. lia.
Defined.

(** On ART, an assignment of a function to [implementation] that fails
    for want of the trampoline throws and leaves memory and
    [patchedMethods] as they are, but not the method: it now holds the
    callback as its [implementation], and a snapshot. *)
Theorem art_install_failure_keeps_callback (api : Api) (st : Factory) (self : positive)
    (ms : MethodState) (fn : Z) (errorMessage : string) :
  flavor api = art ->
  methods st !! self = Some ms ->
  ms_type ms <> CONSTRUCTOR_METHOD ->
  findQuickGenericJniTrampoline api (mem st) = Throw errorMessage ->
  exists st1 ms1,
    setImplementation api self (Some fn) st
      = (Throw ("Cannot find the correct copy of quick generic jni trampoline: "
                +:+ errorMessage), st1) /\
    mem st1 = mem st /\
    patchedMethods st1 = patchedMethods st /\
    methods st1 !! self = Some ms1 /\
    implementation ms1 = Some (NativeCallback api self fn) /\
    artOriginalMethodInfo ms1 = Some (artSnapshot api st ms).
Proof.
  intros Hf Hm Htype Htramp.
  unfold setImplementation. rewrite Hm, Hf.
  assert (Hgo : (match ms_type ms with
                 | CONSTRUCTOR_METHOD =>
                     (Throw "Reimplementing $new is not possible. Please replace implementation of $init instead.", st)
                 | _ => replaceArtImplementation api self (Some fn) st
                 end) = replaceArtImplementation api self (Some fn) st)
    by (destruct (ms_type ms); [congruence | reflexivity | reflexivity]).
  rewrite Hgo. clear Hgo.
  unfold replaceArtImplementation. rewrite Hm.
  cbn [set_methods mem]. rewrite Htramp.
  eexists. eexists. split; [reflexivity|].
  cbn [mem patchedMethods methods set_methods]. rewrite lookup_insert_eq.
  repeat split.
Qed.

Lemma art_install_failure_keeps_callback_witness :
  exists st1 ms1,
    setImplementation artApi 1 (Some 7) (set_mem (fun _ => 0) hookFactory)
      = (Throw "Cannot find the correct copy of quick generic jni trampoline: runtime == null",
         st1) /\
    mem st1 = mem (set_mem (fun _ => 0) hookFactory) /\
    patchedMethods st1 = patchedMethods (set_mem (fun _ => 0) hookFactory) /\
    methods st1 !! 1%positive = Some ms1 /\
    implementation ms1 = Some 36871 /\
    artOriginalMethodInfo ms1
      = Some (artSnapshot artApi (set_mem (fun _ => 0) hookFactory) exampleMethod).
Proof.
  apply (art_install_failure_keeps_callback artApi (set_mem (fun _ => 0) hookFactory) 1
           exampleMethod 7 "runtime == null").
  - reflexivity.
  - reflexivity.
  - discriminate.
  - reflexivity.
Defined.

(** ** Replacing a replacement *)

Lemma setImplementation_flavor api self fn st ms :
  methods st !! self = Some ms ->
  ms_type ms <> CONSTRUCTOR_METHOD ->
  setImplementation api self fn st
  = match flavor api with
    | art => replaceArtImplementation api self fn st
    | dalvik => replaceDalvikImplementation api self fn st
    end.
Proof.
  intros Hm Htype. unfold setImplementation. rewrite Hm.
  destruct (ms_type ms); [congruence | reflexivity | reflexivity].
Qed.

(** The copy that holds the snapshot after a Dalvik install lies apart
    from the record. *)
Lemma replaceDalvik_install_apart api self fn st ms :
  methods st !! self = Some ms ->
  hookable api st ms -> flavor api = dalvik ->
  exists ms1 original,
    methods (snd (replaceDalvikImplementation api self (Some fn) st)) !! self = Some ms1 /\
    dalvikOriginalMethod ms1 = Some original /\
    apart original 56 (ms_methodId ms) 56.
Proof.
  intros Hm Hh Hf. unfold hookable in Hh. rewrite Hf in Hh. destruct Hh as [Hap Hframe].
  unfold replaceDalvikImplementation. rewrite Hm.
  destruct (dalvikOriginalMethod ms) as [original|] eqn:Ho.
  - exists (set_implementation (Some (NativeCallback api self fn)) ms), original.
    cbn [snd methods mem set_patchedMethods set_methods set_mem].
    rewrite lookup_insert_eq. split; [reflexivity|]. split; [exact Ho | exact Hap].
  - exists (set_implementation (Some (NativeCallback api self fn))
              (set_dalvikCopies (brk st) (brk st + DVM_METHOD_SIZE) ms)), (brk st).
    unfold dup, alloc.
    cbn [snd fst methods mem brk set_patchedMethods set_methods set_mem set_brk].
    rewrite lookup_insert_eq. split; [reflexivity|]. split; [reflexivity | exact Hap].
Qed.

Lemma install_holds api self fn st ms :
  methods st !! self = Some ms ->
  ms_type ms <> CONSTRUCTOR_METHOD ->
  hookable api st ms ->
  exists ms1,
    methods (snd (setImplementation api self (Some fn) st)) !! self = Some ms1 /\
    holdsSnapshot api st ms (snd (setImplementation api self (Some fn) st)) ms1.
Proof.
  intros Hm Htype Hh.
  rewrite (setImplementation_flavor api self (Some fn) st ms Hm Htype).
  unfold holdsSnapshot. pose proof Hh as Hh0. unfold hookable in Hh |- *.
  destruct (flavor api) eqn:Hf.
  - destruct Hh as [Hdisj Hread].
    destruct (replaceArt_install api self fn st ms Hm) as (ms1 & Hm1 & Ho1 & Hid1 & Ht1).
    exists ms1. split; [exact Hm1|]. split; [exact Hid1|]. split; [exact Ht1|].
    split; [|exact Ho1]. split; [exact Hdisj|].
    intros original Ho. rewrite Ho1 in Ho. injection Ho as <-. rewrite Hid1.
    unfold artSnapshot. destruct (artOriginalMethodInfo ms) as [o|] eqn:E;
      [apply Hread; reflexivity | eauto].
  - destruct (replaceDalvik_install api self fn st ms Hm Hh0 Hf)
      as (ms1 & original & Hm1 & Ho1 & Hb1 & Hid1 & Ht1).
    destruct (replaceDalvik_install_apart api self fn st ms Hm Hh0 Hf)
      as (ms1' & original' & Hm1' & Ho1' & Hap').
    rewrite Hm1 in Hm1'. injection Hm1' as <-.
    rewrite Ho1 in Ho1'. injection Ho1' as <-.
    exists ms1. split; [exact Hm1|]. split; [exact Hid1|]. split; [exact Ht1|].
    split; [|exists original; split; [exact Ho1 | exact Hb1]].
    rewrite Ho1, Hid1. split; [exact Hap' | exact (proj2 Hh)].
Qed.

Lemma holdsSnapshot_trans api st ms st1 ms1 st2 ms2 :
  holdsSnapshot api st ms st1 ms1 ->
  holdsSnapshot api st1 ms1 st2 ms2 ->
  holdsSnapshot api st ms st2 ms2.
Proof.
  unfold holdsSnapshot.
  intros (Hid1 & Ht1 & Hh1 & Hs1) (Hid2 & Ht2 & Hh2 & Hs2).
  split; [congruence|]. split; [congruence|]. split; [exact Hh2|].
  destruct (flavor api).
  - rewrite Hs2. unfold artSnapshot at 1. rewrite Hs1. reflexivity.
  - destruct Hs1 as (o1 & Ho1 & Hb1). destruct Hs2 as (o2 & Ho2 & Hb2).
    exists o2. split; [exact Ho2|]. rewrite Hb2. unfold dalvikSnapshot at 1.
    rewrite Ho1. exact Hb1.
Qed.

Lemma setImplementations_hold api self fns :
  forall st ms st1 ms1,
    ms_type ms <> CONSTRUCTOR_METHOD ->
    methods st1 !! self = Some ms1 ->
    holdsSnapshot api st ms st1 ms1 ->
    exists ms2,
      methods (setImplementations api self fns st1) !! self = Some ms2 /\
      holdsSnapshot api st ms (setImplementations api self fns st1) ms2.
Proof.
  induction fns as [|fn fns IH]; intros st ms st1 ms1 Htype Hm1 Hs.
  - exists ms1. split; assumption.
  - unfold setImplementations. cbn [fold_left].
    assert (Htype1 : ms_type ms1 <> CONSTRUCTOR_METHOD)
      by (destruct Hs as (_ & Ht & _); rewrite Ht; exact Htype).
    destruct (install_holds api self fn st1 ms1 Hm1 Htype1 (proj1 (proj2 (proj2 Hs))))
      as (ms2 & Hm2 & Hs2).
    apply (IH st ms _ ms2 Htype Hm2).
    exact (holdsSnapshot_trans api st ms st1 ms1 _ ms2 Hs Hs2).
Qed.

Lemma clear_held api self st ms st1 ms1 :
  ms_type ms <> CONSTRUCTOR_METHOD ->
  methods st1 !! self = Some ms1 ->
  holdsSnapshot api st ms st1 ms1 ->
  exists st2 ms2,
    setImplementation api self None st1 = (Ok tt, st2) /\
    recordRestored api st ms st2 /\
    (self ∉ patchedMethods st2) /\
    methods st2 !! self = Some ms2 /\
    implementation ms2 = None.
Proof.
  intros Htype Hm1 (Hid & Ht & Hh & Hs).
  assert (Htype1 : ms_type ms1 <> CONSTRUCTOR_METHOD) by (rewrite Ht; exact Htype).
  rewrite (setImplementation_flavor api self None st1 ms1 Hm1 Htype1).
  unfold recordRestored. unfold hookable in Hh.
  destruct (flavor api) eqn:Hf.
  - destruct Hh as [Hdisj Hread].
    destruct (replaceArt_clear api self st1 ms1 _ Hm1 Hs) as (st2 & Hc & Hmem & Hp & Hm2).
    exists st2. eexists. split; [exact Hc|].
    split; [|split; [rewrite Hp; apply not_elem_of_difference; right;
                     apply elem_of_singleton; reflexivity
                    | split; [exact Hm2 | reflexivity]]].
    rewrite Hmem, Hid. destruct (Hread _ Hs) as [m0 E]. rewrite Hid in E.
    rewrite E. apply fetch_patch. exact Hdisj.
  - destruct Hs as (original & Ho & Hb).
    destruct (replaceDalvik_clear api self st1 ms1 original Hm1 Ho)
      as (st2 & Hc & Hmem & Hp & Hm2).
    exists st2. eexists. split; [exact Hc|].
    split; [|split; [rewrite Hp; apply not_elem_of_difference; right;
                     apply elem_of_singleton; reflexivity
                    | split; [exact Hm2 | reflexivity]]].
    rewrite Hmem, Hid, <- Hb. unfold DVM_METHOD_SIZE.
    pose proof (bytes_copy 56 (ms_methodId ms) original 56 (mem st1) 0) as Hcopy.
    rewrite !Z.add_0_r in Hcopy. apply Hcopy; simpl; lia.
Qed.

(** However many times a method's [implementation] is set to a function
    in a row, setting it to [null] once afterwards succeeds and restores
    the record to the snapshot taken before the first of them: a
    replacement is never taken for the original. *)
Theorem replacing_a_replacement_keeps_the_original (api : Api) (st : Factory)
    (self : positive) (ms : MethodState) (fn : Z) (fns : list Z) :
  methods st !! self = Some ms ->
  ms_type ms <> CONSTRUCTOR_METHOD ->
  hookable api st ms ->
  exists st2 ms2,
    setImplementation api self None (setImplementations api self (fn :: fns) st)
      = (Ok tt, st2) /\
    recordRestored api st ms st2 /\
    (self ∉ patchedMethods st2) /\
    methods st2 !! self = Some ms2 /\
    implementation ms2 = None.
Proof.
  intros Hm Htype Hh.
  destruct (install_holds api self fn st ms Hm Htype Hh) as (ms1 & Hm1 & Hs1).
  change (setImplementations api self (fn :: fns) st)
    with (setImplementations api self fns (snd (setImplementation api self (Some fn) st))).
  destruct (setImplementations_hold api self fns st ms _ ms1 Htype Hm1 Hs1)
    as (ms2 & Hm2 & Hs2).
  exact (clear_held api self st ms _ ms2 Htype Hm2 Hs2).
Qed.

Lemma replacing_a_replacement_keeps_the_original_witness :
  (exists st2 ms2,
     setImplementation artApi 1 None (setImplementations artApi 1 [7; 8; 9] hookFactory)
       = (Ok tt, st2) /\
     recordRestored artApi hookFactory exampleMethod st2 /\
     (1%positive ∉ patchedMethods st2) /\
     methods st2 !! 1%positive = Some ms2 /\
     implementation ms2 = None) /\
  (exists st2 ms2,
     setImplementation dalvikApi 1 None (setImplementations dalvikApi 1 [7; 8] hookFactory)
       = (Ok tt, st2) /\
     recordRestored dalvikApi hookFactory exampleMethod st2 /\
     (1%positive ∉ patchedMethods st2) /\
     methods st2 !! 1%positive = Some ms2 /\
     implementation ms2 = None).
Proof.
  split.
  - apply (replacing_a_replacement_keeps_the_original artApi hookFactory 1 exampleMethod 7 [8; 9]).
    + reflexivity.
    + discriminate.
    + split; [unfold fieldsDisjoint, apart; simpl; lia | intros original H; discriminate H].
  - apply (replacing_a_replacement_keeps_the_original dalvikApi hookFactory 1 exampleMethod 7 [8]).
    + reflexivity.
    + discriminate.
    + split; [unfold apart; simpl; lia|].
      intros implementation m x Hx. simpl in Hx |- *. unfold writePointer.
      apply write_le_outside. simpl. lia.
Defined.

(** ** The set [patchedMethods] *)

Lemma tracked_install st st' self ms' :
  tracked st ->
  methods st' = <[self := ms']> (methods st) ->
  patchedMethods st' = {[self]} ∪ patchedMethods st ->
  implementation ms' <> None ->
  tracked st'.
Proof.
  intros Ht Hm Hp Hi x msx Hx. rewrite Hm in Hx. rewrite Hp.
  destruct (decide (x = self)) as [->|Hne].
  - rewrite lookup_insert_eq in Hx. injection Hx as <-.
    split; [intros _; exact Hi | intros _; apply elem_of_union; left;
                                 apply elem_of_singleton; reflexivity].
  - rewrite lookup_insert_ne in Hx by congruence.
    rewrite <- (Ht x msx Hx). split.
    + intros H. apply elem_of_union in H. destruct H as [H|H]; [|exact H].
      apply elem_of_singleton in H. contradiction.
    + intros H. apply elem_of_union. right. exact H.
Qed.

Lemma tracked_clear st st' self ms' :
  tracked st ->
  methods st' = <[self := ms']> (methods st) ->
  patchedMethods st' = patchedMethods st ∖ {[self]} ->
  implementation ms' = None ->
  tracked st'.
Proof.
  intros Ht Hm Hp Hi x msx Hx. rewrite Hm in Hx. rewrite Hp.
  destruct (decide (x = self)) as [->|Hne].
  - rewrite lookup_insert_eq in Hx. injection Hx as <-.
    split; [|intros H; congruence].
    intros H. apply elem_of_difference in H. destruct H as [_ H].
    exfalso. apply H. apply elem_of_singleton. reflexivity.
  - rewrite lookup_insert_ne in Hx by congruence.
    rewrite <- (Ht x msx Hx). split.
    + intros H. apply elem_of_difference in H. exact (proj1 H).
    + intros H. apply elem_of_difference. split; [exact H|].
      intros E. apply elem_of_singleton in E. contradiction.
Qed.

(** An assignment to [implementation] that ends without an error keeps
    [patchedMethods] exact: if the set held the methods with a
    replacement, and no other, before, it does so afterwards, on both
    VMs, for a function as for [null], for any method. *)
Theorem patchedMethods_is_kept_exact (api : Api) (st st' : Factory) (self : positive)
    (fn : option Z) :
  tracked st ->
  setImplementation api self fn st = (Ok tt, st') ->
  tracked st'.
Proof.
  intros Ht. unfold setImplementation.
  destruct (methods st !! self) as [ms|] eqn:Hm; [|discriminate].
  assert (Hart : replaceArtImplementation api self fn st = (Ok tt, st') -> tracked st').
  { unfold replaceArtImplementation. rewrite Hm.
    destruct fn as [fn|].
    - intros H. cbn [set_methods mem] in H.
      destruct (findQuickGenericJniTrampoline api (mem st)); [|discriminate].
      injection H as <-.
      eapply tracked_install; [exact Ht | reflexivity | reflexivity | discriminate].
    - destruct (artOriginalMethodInfo ms) as [original|].
      + intros H. injection H as <-.
        eapply tracked_clear; [exact Ht | reflexivity | reflexivity | reflexivity].
      + intros H. injection H as <-. exact Ht. }
  assert (Hdalvik : replaceDalvikImplementation api self fn st = (Ok tt, st') -> tracked st').
  { unfold replaceDalvikImplementation. rewrite Hm.
    destruct fn as [fn|].
    - destruct (dalvikOriginalMethod ms) as [original|].
      + intros H. injection H as <-.
        eapply tracked_install; [exact Ht | reflexivity | reflexivity | discriminate].
      + unfold dup, alloc. intros H. injection H as <-.
        eapply tracked_install; [exact Ht | reflexivity | reflexivity | discriminate].
    - destruct (dalvikOriginalMethod ms) as [original|].
      + intros H. injection H as <-.
        eapply tracked_clear; [exact Ht | reflexivity | reflexivity | reflexivity].
      + intros H. injection H as <-. exact Ht. }
  destruct (ms_type ms); [discriminate | | ]; destruct (flavor api); assumption.
Qed.

Lemma patchedMethods_is_kept_exact_witness :
  tracked (snd (setImplementation artApi 1 (Some 7) hookFactory)) /\
  tracked (snd (setImplementation dalvikApi 1 None hookedDalvik)).
Proof.
  assert (H0 : tracked hookFactory).
  { intros self ms H. unfold hookFactory in H. cbn [methods set_methods] in H.
    apply lookup_singleton_Some in H. destruct H as [<- <-].
    split; [intros H; apply elem_of_empty in H; contradiction | intros H; contradiction]. }
  split.
  - apply (patchedMethods_is_kept_exact artApi hookFactory _ 1 (Some 7)); [exact H0|].
    reflexivity.
  - apply (patchedMethods_is_kept_exact dalvikApi hookedDalvik _ 1 None); [|reflexivity].
    apply (patchedMethods_is_kept_exact dalvikApi hookFactory _ 1 (Some 7)); [exact H0|].
    reflexivity.
Defined.

(** ** A hooked Dalvik method that was called *)

(** The first call of a hooked method on a class not patched so far
    records the class with its vtable pointer and count, and the method
    as its one target. *)
Lemma synchronize_first_call api self this instance st ms original :
  methods st !! self = Some ms ->
  dalvikOriginalMethod ms = Some original ->
  patchedClasses st = [] ->
  exists e s,
    synchronizeDalvikVtable api self this instance st
      = set_patchedClasses [(dalvikClassObject api this instance st, e)] s /\
    methods s = methods st /\
    patchedMethods s = patchedMethods st /\
    vtablePtr e = dalvikClassObject api this instance st + DVM_CLASS_OBJECT_OFFSET_VTABLE /\
    vtableCountPtr e
      = dalvikClassObject api this instance st + DVM_CLASS_OBJECT_OFFSET_VTABLE_COUNT /\
    vtable e = readPointer api (mem st) (vtablePtr e) /\
    vtableCount e = readS32 (mem st) (vtableCountPtr e) /\
    targetMethods e = [(ms_methodId ms, self)].
Proof.
  intros Hm Ho Hp.
  unfold synchronizeDalvikVtable, dalvikClassObject. rewrite Hm, Ho, Hp.
  cbn [lookupKey]. unfold alloc.
  cbn [assignKey lookupKey targetMethods patchedClasses set_patchedClasses set_mem
       set_brk mem shadowVtableCount shadowVtable vtableCountPtr].
  rewrite Hp. cbn [assignKey]. rewrite Z.eqb_refl.
  eexists. eexists. split; [reflexivity|].
  cbn [methods patchedMethods set_mem set_patchedClasses set_brk set_shadow
       vtablePtr vtableCountPtr vtable vtableCount targetMethods].
  repeat split.
Qed.

Lemma forInKeys_single {A} (k : ptr) (v : A) : forInKeys [(k, v)] = [k].
Proof. unfold forInKeys. simpl. destruct (arrayIndex k); reflexivity. Qed.

(** [dispose] on a factory with one patched class that has one target
    method. *)
Lemma dispose_single_entry api s c e self ms original :
  flavor api = dalvik ->
  patchedClasses s = [(c, e)] ->
  targetMethods e = [(ms_methodId ms, self)] ->
  methods s !! self = Some ms ->
  ms_type ms <> CONSTRUCTOR_METHOD ->
  dalvikOriginalMethod ms = Some original ->
  exists st2,
    dispose api s = (Ok tt, st2) /\
    mem st2 = copy (ms_methodId ms) original DVM_METHOD_SIZE
                (writeS32 (vtableCountPtr e) (vtableCount e)
                   (writePointer api (vtablePtr e) (vtable e) (mem s))) /\
    patchedMethods st2 = patchedMethods s ∖ {[self]} /\
    methods st2 !! self = Some (set_implementation None ms).
Proof.
  intros Hf Hp Ht Hm Htype Ho.
  unfold dispose. cbn [Set_length ToNumber num_gt]. rewrite Hp, forInKeys_single.
  cbn [restorePatchedClasses]. rewrite Hp. cbn [lookupKey]. rewrite Z.eqb_refl.
  rewrite Ht, forInKeys_single. cbn [restoreTargetMethods lookupKey].
  rewrite Z.eqb_refl.
  set (s1 := set_mem _ s).
  assert (Hm1 : methods s1 !! self = Some ms) by exact Hm.
  rewrite (setImplementation_flavor api self None s1 ms Hm1 Htype), Hf.
  destruct (replaceDalvik_clear api self s1 ms original Hm1 Ho) as (st2 & Hc & Hmem & Hp2 & Hm2).
  rewrite Hc.
  eexists. split; [reflexivity|].
  match goal with
  | |- context [fold_left releaseClass ?l ?x] =>
      destruct (releaseClasses_keep l x) as (R1 & R2 & R3)
  end.
  rewrite R1, R2, R3. cbn [mem patchedMethods methods set_patchedClasses].
  rewrite Hmem, Hp2, Hm2. repeat split.
Qed.

(** A signed 32-bit word that was read, written back as it is, reads
    as the same signed word. *)
Lemma readS32_writeS32 m0 a0 m a :
  readS32 (writeS32 a (readS32 m0 a0) m) a = readS32 m0 a0.
Proof.
  unfold readS32, writeS32. rewrite read_write_same.
  pose proof (read_le_range 4 m0 a0) as R.
  set (u := read_le 4 m0 a0) in *.
  change (256 ^ Z.of_nat 4) with 4294967296 in *.
  destruct (u <? 2147483648) eqn:E.
  - rewrite Z.mod_small by lia. rewrite E. reflexivity.
  - apply Z.ltb_ge in E.
    replace ((u - 4294967296) mod 4294967296) with u.
    + replace (u <? 2147483648) with false by (symmetry; apply Z.ltb_ge; lia). reflexivity.
    + apply (Z.mod_unique _ _ (-1)); lia.
Qed.

(** On Dalvik, [dispose] undoes the hook of a method that was called
    once through the bridge, when that call was the first to patch a
    class ([patchedClasses] was empty): it succeeds, the class's vtable
    pointer and vtable count read as before the call, the method's
    record is overwritten with its saved copy, and the method has no
    implementation and is out of [patchedMethods].  The vtable fields of
    the class are taken to lie apart from the record and from its
    copy. *)
Theorem dispose_undoes_a_called_hook (api : Api) (st : Factory) (self : positive)
    (ms : MethodState) (original : ptr) (this : Wrapper) (instance : bool) :
  flavor api = dalvik ->
  methods st !! self = Some ms ->
  ms_type ms <> CONSTRUCTOR_METHOD ->
  dalvikOriginalMethod ms = Some original ->
  patchedClasses st = [] ->
  apart (dalvikClassObject api this instance st + DVM_CLASS_OBJECT_OFFSET_VTABLE_COUNT)
        (4 + Z.of_nat (pointerSize api)) (ms_methodId ms) 56 ->
  apart (dalvikClassObject api this instance st + DVM_CLASS_OBJECT_OFFSET_VTABLE_COUNT)
        (4 + Z.of_nat (pointerSize api)) original 56 ->
  exists st2 ms2,
    dispose api (synchronizeDalvikVtable api self this instance st) = (Ok tt, st2) /\
    readPointer api (mem st2)
      (dalvikClassObject api this instance st + DVM_CLASS_OBJECT_OFFSET_VTABLE)
    = readPointer api (mem st)
        (dalvikClassObject api this instance st + DVM_CLASS_OBJECT_OFFSET_VTABLE) /\
    readS32 (mem st2)
      (dalvikClassObject api this instance st + DVM_CLASS_OBJECT_OFFSET_VTABLE_COUNT)
    = readS32 (mem st)
        (dalvikClassObject api this instance st + DVM_CLASS_OBJECT_OFFSET_VTABLE_COUNT) /\
    bytes 56 (mem st2) (ms_methodId ms)
    = bytes 56 (mem (synchronizeDalvikVtable api self this instance st)) original /\
    (self ∉ patchedMethods st2) /\
    methods st2 !! self = Some ms2 /\
    implementation ms2 = None.
Proof.
  intros Hf Hm Htype Ho Hp Hap1 Hap2.
  destruct (synchronize_first_call api self this instance st ms original Hm Ho Hp)
    as (e & s & Hs & Hms & Hps & Evp & Ecp & Evt & Evc & Etm).
  set (c := dalvikClassObject api this instance st) in *.
  set (st1 := synchronizeDalvikVtable api self this instance st) in *.
  assert (Hp1 : patchedClasses st1 = [(c, e)]) by (rewrite Hs; reflexivity).
  assert (Hm1 : methods st1 !! self = Some ms)
    by (rewrite Hs; cbn [methods set_patchedClasses]; rewrite Hms; exact Hm).
  destruct (dispose_single_entry api st1 c e self ms original Hf Hp1 Etm Hm1 Htype Ho)
    as (st2 & Hd & Hmem & Hp2 & Hm2).
  exists st2, (set_implementation None ms).
  split; [exact Hd|].
  unfold apart, DVM_CLASS_OBJECT_OFFSET_VTABLE_COUNT, DVM_CLASS_OBJECT_OFFSET_VTABLE,
    DVM_METHOD_SIZE in *.
  rewrite Hmem.
  split; [|split; [|split; [|split; [|split; [exact Hm2 | reflexivity]]]]].
  - unfold readPointer.
    rewrite (read_le_ext _ _ (writeS32 (vtableCountPtr e) (vtableCount e)
                                (writePointer api (vtablePtr e) (vtable e) (mem st1)))).
    + unfold writeS32. rewrite read_write_other by (rewrite Ecp; simpl; lia).
      unfold writePointer. rewrite Evp, read_write_same.
      rewrite Evt, Evp. unfold readPointer. apply Z.mod_small. apply read_le_range.
    + intros x Hx. unfold readU8. rewrite copy_outside by lia. reflexivity.
  - transitivity (readS32 (writeS32 (vtableCountPtr e) (vtableCount e)
                             (writePointer api (vtablePtr e) (vtable e) (mem st1)))
                    (c + 112)).
    + unfold readS32. f_equal.
      rewrite (read_le_ext 4 _ (writeS32 (vtableCountPtr e) (vtableCount e)
                                  (writePointer api (vtablePtr e) (vtable e) (mem st1))));
        [reflexivity|].
      intros x Hx. unfold readU8. rewrite copy_outside by (simpl in Hx; lia). reflexivity.
    + rewrite Evc, Ecp. apply readS32_writeS32.
  - pose proof (bytes_copy 56 (ms_methodId ms) original 56
                  (writeS32 (vtableCountPtr e) (vtableCount e)
                     (writePointer api (vtablePtr e) (vtable e) (mem st1))) 0) as Hc.
    rewrite !Z.add_0_r in Hc. rewrite Hc by (simpl; lia).
    apply bytes_ext. intros x Hx. unfold readU8, writeS32, writePointer.
    rewrite Ecp, Evp.
    rewrite !write_le_outside by (simpl in Hx |- *; lia). reflexivity.
  - rewrite Hp2. apply not_elem_of_difference. right. apply elem_of_singleton. reflexivity.
Qed.

Lemma dispose_undoes_a_called_hook_witness :
  (exists st2 ms2,
     dispose dalvikApi (synchronizeDalvikVtable dalvikApi 1 receiver true hookedWithVtable)
       = (Ok tt, st2) /\
     readPointer dalvikApi (mem st2) 12404
       = readPointer dalvikApi (mem hookedWithVtable) 12404 /\
     readS32 (mem st2) 12400 = readS32 (mem hookedWithVtable) 12400 /\
     bytes 56 (mem st2) 4096
       = bytes 56 (mem (synchronizeDalvikVtable dalvikApi 1 receiver true hookedWithVtable))
           1048576 /\
     (1%positive ∉ patchedMethods st2) /\
     methods st2 !! 1%positive = Some ms2 /\
     implementation ms2 = None) /\
  readPointer dalvikApi (mem hookedWithVtable) 12404 = 16384 /\
  readS32 (mem hookedWithVtable) 12400 = 2 /\
  readPointer dalvikApi
    (mem (synchronizeDalvikVtable dalvikApi 1 receiver true hookedWithVtable)) 12404
    = 1048688 /\
  readS32 (mem (synchronizeDalvikVtable dalvikApi 1 receiver true hookedWithVtable)) 12400
    = 3.
Proof.
  split; [|repeat split; vm_compute; reflexivity].
  apply (dispose_undoes_a_called_hook dalvikApi hookedWithVtable 1
           (set_implementation (Some 36871)
              (set_dalvikCopies 1048576 1048632 exampleMethod))
           1048576 receiver true).
  - reflexivity.
  - vm_compute. reflexivity.
  - discriminate.
  - reflexivity.
  - vm_compute. reflexivity.
  - right. vm_compute. discriminate.
  - left. vm_compute. discriminate.
Defined.

(** ** Reference types and [null] *)

(** For every type name, the looked-up type accepts [null] exactly when
    it is marshalled as a pointer, and that is so exactly when the name
    is not one of the nine primitive names; such a type takes one
    argument word. *)
Theorem null_is_for_pointer_types (typename : string) (unbox : option bool) :
  exists t,
    getTypeFromJniTypename typename unbox = Ok t /\
    (isCompatible (body t) VNull = true <-> type (body t) = pointer) /\
    (type (body t) = pointer <-> getPrimitiveType typename = None) /\
    (type (body t) = pointer <-> wordSize (body t) = 1%nat /\ byteSize (body t) = None).
Proof.
  rewrite getTypeFromJniTypename_eq.
  destruct (getPrimitiveType typename) as [p|] eqn:Ep.
  - cbn [bind fst snd]. eexists. split; [reflexivity|]. cbn [body].
    unfold getPrimitiveType in Ep.
    repeat match type of Ep with
    | (if ?c then _ else _) = _ => destruct c
    end;
    try discriminate Ep; injection Ep as <-; cbn;
    (split; [split; discriminate|]);
    (split; [split; discriminate|]);
    split; try discriminate; intros [_ H]; discriminate H.
  - assert (Hobj : forall n u,
              exists t, (named <- Ok (objectCase n u) ;;
                         Ok {| className := fst named; body := snd named |}) = Ok t /\
                (isCompatible (body t) VNull = true <-> type (body t) = pointer) /\
                (type (body t) = pointer <-> @None TypeBody = None) /\
                (type (body t) = pointer <->
                 wordSize (body t) = 1%nat /\ byteSize (body t) = None)).
    { intros n u. eexists. split; [reflexivity|]. cbn. repeat split. }
    destruct typename as [|first rest]; [apply Hobj|].
    destruct (Ascii.eqb first "[") eqn:E; [|apply Hobj].
    apply Ascii.eqb_eq in E. subst first.
    destruct (getTypeFromJniTypename_total rest (Some (default true unbox))) as [e He].
    rewrite He. unfold getArrayType.
    repeat match goal with
    | |- context [if String.eqb ?a ?b then _ else _] =>
        destruct (String.eqb a b);
        [eexists; split; [reflexivity|]; cbn; repeat split|]
    end.
    assert (Hp : String.prefix "[" (String "[" rest) = true)
      by (simpl; destruct rest; reflexivity).
    rewrite Hp. eexists. split; [reflexivity|]. cbn. repeat split.
Qed.

(** ** Calling a hooked method on ART *)

(** [resolveArtTargetMethodId] for a method that holds a snapshot: the
    clone, with the words of the snapshot written over its four
    fields. *)
Lemma resolveArtTargetMethodId_held api thread Clone self st ms held :
  methods st !! self = Some ms ->
  artOriginalMethodInfo ms = Some held ->
  fieldsDisjoint api ->
  exists st2,
    resolveArtTargetMethodId api thread Clone self st
      = (Ok (fst (Clone (ms_methodId ms) thread (mem st))), st2) /\
    artWords api (mem st2) (fst (Clone (ms_methodId ms) thread (mem st)))
      = storedWords api held.
Proof.
  intros Hm Ho Hdisj. unfold resolveArtTargetMethodId. rewrite Hm, Ho.
  destruct (Clone (ms_methodId ms) thread (mem st)) as [target m].
  eexists. split; [reflexivity|]. cbn [mem set_mem fst].
  apply artWords_patch. exact Hdisj.
Qed.

(** On ART, the method id that a call from script passes to JNI: for a
    method that was never hooked it is the method's own id, and nothing
    is written.  Once the method is hooked it is the id of a clone, and
    the four words of the clone are the words the method's record had
    before the hook: the call reaches the original code, not the
    replacement.  It stays so after the hook is cleared: the snapshot
    is never reset, so every later call clones the method again. *)
Theorem script_calls_reach_the_original (api : Api) (thread : ptr)
    (Clone : ptr -> ptr -> memory -> ptr * memory) (st : Factory) (self : positive)
    (ms : MethodState) (fn : Z) :
  flavor api = art ->
  methods st !! self = Some ms ->
  ms_type ms <> CONSTRUCTOR_METHOD ->
  fieldsDisjoint api ->
  artOriginalMethodInfo ms = None ->
  let st1 := snd (setImplementation api self (Some fn) st) in
  let st3 := snd (setImplementation api self None st1) in
  resolveArtTargetMethodId api thread Clone self st = (Ok (ms_methodId ms), st) /\
  (exists st2,
     resolveArtTargetMethodId api thread Clone self st1
       = (Ok (fst (Clone (ms_methodId ms) thread (mem st1))), st2) /\
     artWords api (mem st2) (fst (Clone (ms_methodId ms) thread (mem st1)))
       = artWords api (mem st) (ms_methodId ms)) /\
  (exists st4,
     resolveArtTargetMethodId api thread Clone self st3
       = (Ok (fst (Clone (ms_methodId ms) thread (mem st3))), st4) /\
     artWords api (mem st4) (fst (Clone (ms_methodId ms) thread (mem st3)))
       = artWords api (mem st) (ms_methodId ms)).
Proof.
  intros Hf Hm Htype Hdisj Ho st1 st3. subst st1 st3.
  split; [unfold resolveArtTargetMethodId; rewrite Hm, Ho; reflexivity|].
  rewrite (setImplementation_flavor api self (Some fn) st ms Hm Htype), Hf.
  destruct (replaceArt_install api self fn st ms Hm) as (ms1 & Hm1 & Ho1 & Hid1 & Ht1).
  unfold artSnapshot in Ho1. rewrite Ho in Ho1.
  set (st1 := snd (replaceArtImplementation api self (Some fn) st)) in *.
  assert (Htype1 : ms_type ms1 <> CONSTRUCTOR_METHOD) by (rewrite Ht1; exact Htype).
  split.
  - destruct (resolveArtTargetMethodId_held api thread Clone self st1 ms1 _ Hm1 Ho1 Hdisj)
      as (st2 & Hr & Hw).
    rewrite Hid1 in Hr, Hw. exists st2. split; [exact Hr|].
    rewrite Hw. apply storedWords_fetch.
  - rewrite (setImplementation_flavor api self None st1 ms1 Hm1 Htype1), Hf.
    destruct (replaceArt_clear api self st1 ms1 _ Hm1 Ho1) as (st3 & Hc & _ & _ & Hm3).
    rewrite Hc. cbn [snd].
    destruct (resolveArtTargetMethodId_held api thread Clone self st3 _ _ Hm3 eq_refl Hdisj)
      as (st4 & Hr & Hw).
    cbn [ms_methodId set_implementation set_artOriginalMethodInfo] in Hr, Hw.
    rewrite Hid1 in Hr, Hw. exists st4. split; [exact Hr|].
    rewrite Hw. apply storedWords_fetch.
Qed.

Lemma script_calls_reach_the_original_witness :
  let Clone := fun (id _ : ptr) (m : memory) => (65536, copy 65536 id 64 m) in
  let st1 := snd (setImplementation artApi 1 (Some 7) hookFactory) in
  let st3 := snd (setImplementation artApi 1 None st1) in
  resolveArtTargetMethodId artApi 0 Clone 1 hookFactory = (Ok 4096, hookFactory) /\
  (exists st2,
     resolveArtTargetMethodId artApi 0 Clone 1 st1
       = (Ok (fst (Clone 4096 0 (mem st1))), st2) /\
     artWords artApi (mem st2) (fst (Clone 4096 0 (mem st1)))
       = artWords artApi (mem hookFactory) 4096) /\
  (exists st4,
     resolveArtTargetMethodId artApi 0 Clone 1 st3
       = (Ok (fst (Clone 4096 0 (mem st3))), st4) /\
     artWords artApi (mem st4) (fst (Clone 4096 0 (mem st3)))
       = artWords artApi (mem hookFactory) 4096).
Proof.
  intros Clone.
  apply (script_calls_reach_the_original artApi 0 Clone hookFactory 1 exampleMethod 7).
  - reflexivity.
  - reflexivity.
  - discriminate.
  - unfold fieldsDisjoint, apart. simpl. lia.
  - reflexivity.
Defined.
